(** * NED FAI report generator: a shallow embedding of [app.py]

    The development follows the layout of the script:

    - [PyFloat]: the float arithmetic used by [optimize_image]
      ([max_size / long_edge], [int(w * scale)]), on the IEEE-754 binary64
      specification of the standard library;
    - [Image], [raster], [heap]: Pillow image objects, held in a store so
      that identity, copying and in-place drawing are visible;
    - [optimize_image], [render_image]: the two functions of the script;
    - [textwrap]: the word wrapping used for the cover page;
    - [Session] and the two button handlers ("Preview Final Draft",
      "Convert to PDF"). *)

From Stdlib Require Import ZArith Lia Bool List Ascii String.
From Stdlib Require Import Floats.SpecFloat.
From stdpp Require Import base option list gmap strings pretty.

Local Open Scope string_scope.
Local Open Scope list_scope.
Local Open Scope Z_scope.

(** ** Exceptions and results *)

Inductive exn :=
| ValueError          (* raised by Pillow and by [int()] *)
| OverflowError       (* [int(inf)] *)
| ZeroDivisionError   (* [a / 0] *)
| KeyError            (* a missing [st.session_state] key *)
| IndexError          (* a list index out of range *)
| StaleReference.     (* a location outside the store; Python has none *)

Inductive result (A : Type) :=
| Ok (a : A)
| Raise (e : exn).
Arguments Ok {A} a.
Arguments Raise {A} e.

(** ** Python floats *)

Module PyFloat.

Definition prec : Z := 53.
Definition emax : Z := 1024.

(** [float(n)] for an [int]: the nearest binary64. *)
Definition of_int (n : Z) : spec_float := binary_normalize prec emax n 0 false.

Definition mul : spec_float -> spec_float -> spec_float := SFmul prec emax.
Definition div : spec_float -> spec_float -> spec_float := SFdiv prec emax.

(** [a / b] on two [int]s: true division; both operands of the script are
    far below [2^53], where it is the binary64 quotient of the two
    conversions. *)
Definition truediv (a b : Z) : result spec_float :=
  if b =? 0 then Raise ZeroDivisionError else Ok (div (of_int a) (of_int b)).

(** [n * x] with [n] an [int] and [x] a [float]. *)
Definition int_mul (n : Z) (x : spec_float) : spec_float := mul (of_int n) x.

(** [int(x)]: truncation toward zero. *)
Definition int (x : spec_float) : result Z :=
  match x with
  | S754_zero _ => Ok 0
  | S754_finite s m e =>
      let a := match e with
               | Zneg k => Z.shiftr (Zpos m) (Zpos k)
               | _ => Z.shiftl (Zpos m) e
               end in
      Ok (if s then - a else a)
  | S754_infinity _ => Raise OverflowError
  | S754_nan => Raise ValueError
  end.

End PyFloat.

(** ** Pillow images *)

(** [Image.Transpose] *)
Inductive Transpose :=
| FLIP_LEFT_RIGHT | ROTATE_180 | FLIP_TOP_BOTTOM | TRANSPOSE
| ROTATE_270 | TRANSVERSE | ROTATE_90.

(** [Image.Resampling] (the one filter the script names, and the one Pillow
    substitutes for bilevel and palette images). *)
Inductive Resampling := NEAREST | LANCZOS.

(** Fonts returned by [ImageFont.truetype] and [ImageFont.load_default]. *)
Inductive Font :=
| TrueType (file : string) (size : Z)
| DefaultFont.

(** Pixel contents.  The script never looks at a pixel: it only hands
    rasters to Pillow.  A raster is therefore recorded as the history of
    Pillow operations that produced it, starting from the decoded upload;
    two rasters with the same history have the same pixels. *)
Inductive raster :=
| Decoded (upload : N)
| Filled (color : string)
| Transposed (method : Transpose) (r : raster)
| Resampled (size : Z * Z) (filter : Resampling) (r : raster)
| Converted (from to : string) (r : raster)
| Pasted (src : raster) (box : Z * Z) (onto : raster)
| Lettered (xy : Z * Z) (text : string) (fill : string) (font : Font)
           (anchor : option string) (onto : raster).

Record Image := mkImage {
  mode : string;
  width : Z;
  height : Z;
  orientation : option Z;   (* EXIF tag 0x0112, when the file carries one *)
  pixels : raster
}.

Definition size (im : Image) : Z * Z := (width im, height im).

(** ** The store of image objects *)

Abbreviation loc := nat.
Abbreviation heap := (list Image).

Definition PIL (A : Type) : Type := heap -> result (A * heap).

Global Instance PIL_ret : MRet PIL := fun A a h => Ok (a, h).
Global Instance PIL_bind : MBind PIL := fun A B k m h =>
  match m h with
  | Ok (a, h') => k a h'
  | Raise e => Raise e
  end.

Definition raise {A} (e : exn) : PIL A := fun _ => Raise e.
Definition lift {A} (r : result A) : PIL A :=
  fun h => match r with Ok a => Ok (a, h) | Raise e => Raise e end.

Definition alloc (im : Image) : PIL loc := fun h => Ok (List.length h, h ++ [im]).
Definition load (l : loc) : PIL Image :=
  fun h => match h !! l with
           | Some im => Ok (im, h)
           | None => Raise StaleReference
           end.
Definition store (l : loc) (im : Image) : PIL unit :=
  fun h => match h !! l with
           | Some _ => Ok (tt, <[l := im]> h)
           | None => Raise StaleReference
           end.

(** [Image.copy] *)
Definition Image_copy (l : loc) : PIL loc := im ← load l; alloc im.

(** [Image.new(mode, size, color)] *)
Definition Image_new (m : string) (sz : Z * Z) (color : string) : PIL loc :=
  alloc (mkImage m (fst sz) (snd sz) None (Filled color)).

(** [Image.transpose]: the four methods that turn the image on its side
    exchange width and height. *)
Definition swaps_axes (t : Transpose) : bool :=
  match t with
  | TRANSPOSE | ROTATE_270 | TRANSVERSE | ROTATE_90 => true
  | _ => false
  end.

Definition transposed (t : Transpose) (im : Image) : Image :=
  mkImage (mode im)
          (if swaps_axes t then height im else width im)
          (if swaps_axes t then width im else height im)
          (orientation im)
          (Transposed t (pixels im)).

(** [ImageOps.exif_transpose]: the orientation tag selects a method; the
    transposed copy has the tag removed; with no tag, tag 1 or an unknown
    value a plain copy is returned. *)
Definition exif_method (o : option Z) : option Transpose :=
  match o with
  | Some 2 => Some FLIP_LEFT_RIGHT
  | Some 3 => Some ROTATE_180
  | Some 4 => Some FLIP_TOP_BOTTOM
  | Some 5 => Some TRANSPOSE
  | Some 6 => Some ROTATE_270
  | Some 7 => Some TRANSVERSE
  | Some 8 => Some ROTATE_90
  | _ => None
  end.

Definition strip_orientation (im : Image) : Image :=
  mkImage (mode im) (width im) (height im) None (pixels im).

Definition exif_transpose (l : loc) : PIL loc :=
  im ← load l;
  match exif_method (orientation im) with
  | Some t => alloc (strip_orientation (transposed t im))
  | None => alloc im
  end.

(** [Image.resize(size, resample)]: a copy when the size is unchanged; a
    [ValueError] ("height and width must be > 0") for an empty target. *)
Definition Image_resize (l : loc) (sz : Z * Z) (resample : Resampling) : PIL loc :=
  im ← load l;
  if decide (size im = sz) then alloc im
  else if (fst sz <? 1) || (snd sz <? 1) then raise ValueError
  else
    let filter := if decide (mode im = "1" \/ mode im = "P") then NEAREST else resample in
    alloc (mkImage (mode im) (fst sz) (snd sz) (orientation im)
                   (Resampled sz filter (pixels im))).

(** [Image.convert(mode)]: a copy when the image already has the mode. *)
Definition Image_convert (l : loc) (m : string) : PIL loc :=
  im ← load l;
  if decide (mode im = m) then alloc im
  else alloc (mkImage m (width im) (height im) (orientation im)
                      (Converted (mode im) m (pixels im))).

(** Drawing changes the pixels of an image and nothing else. *)
Definition repaint (f : raster -> raster) (im : Image) : Image :=
  mkImage (mode im) (width im) (height im) (orientation im) (f (pixels im)).

(** [Image.paste(src, box)]: draws on the receiver. *)
Definition Image_paste (dst src : loc) (box : Z * Z) : PIL unit :=
  d ← load dst;
  s ← load src;
  store dst (repaint (Pasted (pixels s) box) d).

(** ** Image optimization *)

Definition optimize_image_with (img : loc) (max_size : Z) (quality : Z) : PIL (loc * Z) :=
  img ← exif_transpose img;
  im ← load img;
  let '(w, h) := size im in
  let long_edge := Z.max w h in
  img ← (if long_edge >? max_size then
           scale ← lift (PyFloat.truediv max_size long_edge);
           w' ← lift (PyFloat.int (PyFloat.int_mul w scale));
           h' ← lift (PyFloat.int (PyFloat.int_mul h scale));
           Image_resize img (w', h') LANCZOS
         else mret img);
  out ← Image_convert img "RGB";
  mret (out, quality).

Definition optimize_image (img : loc) : PIL (loc * Z) :=
  optimize_image_with img 3000 95.

(** The values [optimize_image] works with: the image once its EXIF
    orientation is applied, one scaled and truncated edge, and the RGB
    conversion. *)
Definition oriented (im : Image) : Image :=
  match exif_method (orientation im) with
  | Some t => strip_orientation (transposed t im)
  | None => im
  end.

Definition scaled_edge (max_size long_edge n : Z) : result Z :=
  match PyFloat.truediv max_size long_edge with
  | Ok scale => PyFloat.int (PyFloat.int_mul n scale)
  | Raise e => Raise e
  end.

Definition resized (sz : Z * Z) (im : Image) : Image :=
  mkImage (mode im) (fst sz) (snd sz) (orientation im)
          (Resampled sz (if decide (mode im = "1" \/ mode im = "P") then NEAREST else LANCZOS)
                     (pixels im)).

Definition to_rgb (im : Image) : Image :=
  if decide (mode im = "RGB") then im
  else mkImage "RGB" (width im) (height im) (orientation im)
               (Converted (mode im) "RGB" (pixels im)).

(** ** Text measurement and drawing *)

(** Lengths as [ImageDraw.textlength] reports them: multiples of 1/64 pixel
    (FreeType advances), held here as the number of 64ths.  The mixed
    expression [(img.width - lw) // 2] is a subtraction and a floor
    division on such values. *)
Module Fixed.
Definition t := Z.
Definition of_int (n : Z) : t := 64 * n.
Definition sub (a b : t) : t := a - b.
(** [a // n]: the floor of the quotient, a whole number of pixels. *)
Definition floordiv (a : t) (n : Z) : Z := a / (64 * n).
End Fixed.

Fixpoint contains (c : ascii) (s : string) : bool :=
  match s with
  | EmptyString => false
  | String c' s' => if Ascii.eqb c c' then true else contains c s'
  end.

Definition LF : ascii := Ascii.ascii_of_nat 10.

(** [ImageDraw._multiline_check] *)
Definition multiline_check (text : string) : bool := contains LF text.

(** [ImageDraw.Draw(im)]: a handle on the image; text is measured and drawn
    bilevel on modes 1, P, I and F and antialiased on the others. *)
Record Draw := mkDraw { target : loc; fontmode : string }.

Definition fontmode_of (m : string) : string :=
  if decide (m = "1" \/ m = "P" \/ m = "I" \/ m = "F") then "1" else "L".

Definition ImageDraw_Draw (l : loc) : PIL Draw :=
  im ← load l;
  mret (mkDraw l (fontmode_of (mode im))).

Definition FOOTER_TEXT : string := "Confidential – Internal Use Only".
Definition COVER_WIDTH : Z := 1020.
Definition COVER_HEIGHT : Z := 850.

Section Backend.

(** The font and rendering backend behind Pillow: which font files can
    be opened, and the measurements of a text in a font. *)
Variable truetype_available : string -> Z -> bool.
Variable font_getbbox : Font -> string -> string -> Z * Z * Z * Z.
Variable font_getlength : Font -> string -> string -> Fixed.t.

(* Font loader *)
Definition load_font (size : Z) : Font :=
  if truetype_available "arial.ttf" size then TrueType "arial.ttf" size
  else DefaultFont.

(** [draw.textbbox(xy, text, font=font)]: (left, top, right, bottom). *)
Definition textbbox (d : Draw) (xy : Z * Z) (text : string) (font : Font)
  : Z * Z * Z * Z :=
  let '(l, t, r, b) := font_getbbox font (fontmode d) text in
  (l + fst xy, t + snd xy, r + fst xy, b + snd xy).

(** [draw.textlength(text, font=font)]: refuses text with a line feed
    ("can't measure length of multiline text"). *)
Definition textlength (d : Draw) (text : string) (font : Font) : PIL Fixed.t :=
  if multiline_check text then raise ValueError
  else mret (font_getlength font (fontmode d) text).

(** [draw.text(xy, text, fill=..., font=..., anchor=...)]: draws on the
    image behind the handle. *)
Definition Draw_text (d : Draw) (xy : Z * Z) (text : string) (fill : string)
           (font : Font) (anchor : option string) : PIL unit :=
  im ← load (target d);
  store (target d) (repaint (Lettered xy text fill font anchor) im).

(* Image render *)
Definition render_image (img : loc) (label : string) : PIL loc :=
  img ← Image_copy img;
  draw ← ImageDraw_Draw img;
  let label_font := load_font 32 in
  let footer_font := load_font 20 in

  let padding := 20 in
  let footer_gap := 10 in

  let label_bbox := textbbox draw (0, 0) label label_font in
  let label_h := label_bbox.2 - label_bbox.1.1.2 in

  let footer_bbox := textbbox draw (0, 0) FOOTER_TEXT footer_font in
  let footer_h := footer_bbox.2 - footer_bbox.1.1.2 in

  let bar_h := label_h + footer_h + padding * 2 + footer_gap in

  im ← load img;
  canvas ← Image_new "RGB" (width im, height im + bar_h) "white";
  Image_paste canvas img (0, 0);;

  d ← ImageDraw_Draw canvas;
  lw ← textlength d label label_font;
  Draw_text d (Fixed.floordiv (Fixed.sub (Fixed.of_int (width im)) lw) 2,
               height im + padding)
            label "black" label_font None;;
  fw ← textlength d FOOTER_TEXT footer_font;
  Draw_text d (Fixed.floordiv (Fixed.sub (Fixed.of_int (width im)) fw) 2,
               height im + padding + label_h + footer_gap)
            FOOTER_TEXT "gray" footer_font None;;

  mret canvas.

(** The page [render_image] builds, as a value: what the canvas holds
    when the function returns.  Measurements of the caption bar are taken
    on a handle for [im]; the two lengths on a handle for the RGB
    canvas. *)
Definition text_height (m : string) (text : string) (font : Font) : Z :=
  let '(_, t, _, b) := font_getbbox font (fontmode_of m) text in b - t.

Definition bar_height (m : string) (label : string) : Z :=
  text_height m label (load_font 32) + text_height m FOOTER_TEXT (load_font 20)
  + 20 * 2 + 10.

Definition centered (w : Z) (text : string) (font : Font) : Z :=
  Fixed.floordiv
    (Fixed.sub (Fixed.of_int w) (font_getlength font (fontmode_of "RGB") text)) 2.

Definition captioned_page (im : Image) (label : string) : Image :=
  let label_h := text_height (mode im) label (load_font 32) in
  mkImage "RGB" (width im) (height im + bar_height (mode im) label) None
    (Lettered (centered (width im) FOOTER_TEXT (load_font 20),
               height im + 20 + label_h + 10)
              FOOTER_TEXT "gray" (load_font 20) None
       (Lettered (centered (width im) label (load_font 32), height im + 20)
                 label "black" (load_font 32) None
          (Pasted (pixels im) (0, 0) (Filled "white")))).

End Backend.

(** ** Word wrapping: [textwrap.wrap(text, width)]

    The standard-library wrapper with its default settings: tabs expanded
    to multiples of 8, every whitespace character replaced by a space, the
    text split into chunks (runs of whitespace, words, words broken after a
    hyphen, dashes), chunks packed greedily into lines, long words broken,
    whitespace dropped at the ends of lines.  Characters are code points
    below 256. *)
Module textwrap.

Definition code (c : ascii) : N := N_of_ascii c.
Definition between (lo hi : N) (c : ascii) : bool :=
  ((lo <=? code c) && (code c <=? hi))%N.
Definition one_of (l : list N) (c : ascii) : bool :=
  existsb (N.eqb (code c)) l.

(** [textwrap._whitespace]: tab, LF, VT, FF, CR and the space. *)
Definition is_whitespace (c : ascii) : bool := between 9 13 c || one_of [32%N] c.

(** [str.isspace], which decides what [chunk.strip()] removes. *)
Definition isspace (c : ascii) : bool :=
  between 9 13 c || between 28 32 c || one_of [133%N; 160%N] c.

Definition is_digit (c : ascii) : bool := between 48 57 c.

(** The class [\w] of a [str] pattern. *)
Definition is_word (c : ascii) : bool :=
  is_digit c || between 65 90 c || between 97 122 c
  || one_of [95%N; 170%N; 178%N; 179%N; 181%N; 185%N; 186%N; 188%N; 189%N; 190%N] c
  || between 192 214 c || between 216 246 c || between 248 255 c.

(** [[^\d\W]] *)
Definition is_letter (c : ascii) : bool := is_word c && negb (is_digit c).

(** A word character or one of the marks ! & . , ? and the two quotes. *)
Definition is_word_punct (c : ascii) : bool :=
  is_word c || one_of [33%N; 34%N; 39%N; 38%N; 46%N; 44%N; 63%N] c.

Definition is_hyphen (c : ascii) : bool := one_of [45%N] c.

Definition SP : ascii := ascii_of_nat 32.
Definition TAB : ascii := ascii_of_nat 9.
Definition HYPHEN : ascii := ascii_of_nat 45.

(** [str.expandtabs(8)] *)
Fixpoint expandtabs (col : nat) (s : list ascii) : list ascii :=
  match s with
  | [] => []
  | c :: r =>
      if one_of [9%N] c then
        let incr := (8 - col mod 8)%nat in
        repeat SP incr ++ expandtabs (col + incr) r
      else if one_of [10%N; 13%N] c then c :: expandtabs 0 r
      else c :: expandtabs (S col) r
  end.

(** [TextWrapper._munge_whitespace] *)
Definition munge_whitespace (s : list ascii) : list ascii :=
  map (fun c => if is_whitespace c then SP else c) (expandtabs 0 s).

(** *** [TextWrapper._split]: the chunks matched by [wordsep_re] *)

Inductive kind := Fresh | Space | Dash | Word.

(** [(?=-{2,}\w)]: two hyphens or more, then a word character. *)
Fixpoint after_hyphens (seen : nat) (s : list ascii) : bool :=
  match s with
  | c :: r => if is_hyphen c then after_hyphens (S seen) r
              else (2 <=? seen)%nat && is_word c
  | [] => false
  end.
Definition emdash_ahead (s : list ascii) : bool := after_hyphens 0 s.

(** The lookbehind for a word character or mark; [before] holds the text
    already read, last character first. *)
Definition word_punct_behind (before : list ascii) : bool :=
  match before with b :: _ => is_word_punct b | [] => false end.

(** A word may end after a hyphen [c] that follows two letters, or a
    letter, a hyphen and a letter, and that precedes a letter, an optional
    hyphen and a letter. *)
Definition hyphen_break (before rest : list ascii) : bool :=
  (match before with
   | b0 :: b1 :: more =>
       is_letter b0
       && (is_letter b1
           || (is_hyphen b1 && match more with b2 :: _ => is_letter b2 | [] => false end))
   | _ => false
   end)
  && (match rest with
      | l1 :: l2 :: more =>
          is_letter l1
          && (is_letter l2
              || (is_hyphen l2 && match more with l3 :: _ => is_letter l3 | [] => false end))
      | _ => false
      end).

(** The alternative that matches at a position holding [c]. *)
Definition start (before : list ascii) (c : ascii) (rest : list ascii) : kind :=
  if is_whitespace c then Space
  else if word_punct_behind before && emdash_ahead (c :: rest) then Dash
  else Word.

(** [scan k before cur text]: the chunks of [text], when a chunk of kind
    [k] holding [cur] (last character first) is being read. *)
Fixpoint scan (k : kind) (before cur text : list ascii) : list (list ascii) :=
  match text with
  | [] => match k with Fresh => [] | _ => [rev cur] end
  | c :: rest =>
      match k with
      | Fresh => scan (start before c rest) (c :: before) [c] rest
      | Space =>
          if is_whitespace c then scan Space (c :: before) (c :: cur) rest
          else rev cur :: scan (start before c rest) (c :: before) [c] rest
      | Dash =>
          if is_hyphen c then scan Dash (c :: before) (c :: cur) rest
          else rev cur :: scan (start before c rest) (c :: before) [c] rest
      | Word =>
          if is_hyphen c && hyphen_break before rest
          then rev (c :: cur) :: scan Fresh (c :: before) [] rest
          else if is_whitespace c
               then rev cur :: scan Space (c :: before) [c] rest
          else if word_punct_behind before && emdash_ahead (c :: rest)
               then rev cur :: scan Dash (c :: before) [c] rest
          else scan Word (c :: before) (c :: cur) rest
      end
  end.

Definition split (text : list ascii) : list (list ascii) := scan Fresh [] [] text.

(** *** [TextWrapper._wrap_chunks] *)

(** [chunk.strip() == ''] *)
Definition blank (chunk : list ascii) : bool := forallb isspace chunk.

(** The inner loop: chunks are moved to the line while they fit. *)
Fixpoint take_fitting (width : nat) (cur_line : list (list ascii)) (cur_len : nat)
         (chunks : list (list ascii))
  : list (list ascii) * nat * list (list ascii) :=
  match chunks with
  | c :: rest =>
      if (cur_len + List.length c <=? width)%nat
      then take_fitting width (cur_line ++ [c]) (cur_len + List.length c) rest
      else (cur_line, cur_len, chunks)
  | [] => (cur_line, cur_len, [])
  end.

(** [chunk.rfind('-', 0, stop)]: the last hyphen among the first [stop]
    characters. *)
Fixpoint rfind_hyphen (chunk : list ascii) (stop : nat) (i : nat) : option nat :=
  match stop, chunk with
  | S stop', c :: r =>
      match rfind_hyphen r stop' (S i) with
      | Some j => Some j
      | None => if is_hyphen c then Some i else None
      end
  | _, _ => None
  end.

(** [TextWrapper._handle_long_word], with [break_long_words] and
    [break_on_hyphens] set. *)
Definition handle_long_word (chunks cur_line : list (list ascii))
           (cur_len width : nat) : list (list ascii) * list (list ascii) :=
  let space_left := if (width <? 1)%nat then 1%nat else (width - cur_len)%nat in
  match chunks with
  | chunk :: rest =>
      let stop :=
        if (space_left <? List.length chunk)%nat then
          match rfind_hyphen chunk space_left 0 with
          | Some hyphen =>
              if (0 <? hyphen)%nat
                 && existsb (fun c => negb (is_hyphen c)) (take hyphen chunk)
              then S hyphen else space_left
          | None => space_left
          end
        else space_left in
      (cur_line ++ [take stop chunk], drop stop chunk :: rest)
  | [] => (cur_line, chunks)
  end.

(** One turn of the outer loop: the line it appends, if any, and the
    chunks left.  [started] tells whether [lines] is non-empty. *)
Definition next_line (width : nat) (started : bool) (chunks : list (list ascii))
  : option (list ascii) * list (list ascii) :=
  let chunks :=
    match chunks with
    | first :: rest => if blank first && started then rest else chunks
    | [] => chunks
    end in
  let '(cur_line, cur_len, chunks) := take_fitting width [] 0 chunks in
  let '(cur_line, chunks) :=
    match chunks with
    | c :: _ => if (width <? List.length c)%nat
                then handle_long_word chunks cur_line cur_len width
                else (cur_line, chunks)
    | [] => (cur_line, chunks)
    end in
  let cur_line :=
    match last cur_line with
    | Some l => if blank l then removelast cur_line else cur_line
    | None => cur_line
    end in
  match cur_line with
  | [] => (None, chunks)
  | _ => (Some (concat cur_line), chunks)
  end.

(** The outer loop [while chunks:], run for at most [fuel] turns. *)
Fixpoint wrap_chunks (fuel : nat) (width : nat) (started : bool)
         (chunks : list (list ascii)) : list (list ascii) :=
  match fuel, chunks with
  | S fuel', _ :: _ =>
      match next_line width started chunks with
      | (Some line, chunks') => line :: wrap_chunks fuel' width true chunks'
      | (None, chunks') => wrap_chunks fuel' width started chunks'
      end
  | _, _ => []
  end.

(** Every turn removes a chunk or at least one character, so twice the
    length of the text bounds the number of turns. *)
Definition wrap (text : string) (width : nat) : list string :=
  let s := munge_whitespace (list_ascii_of_string text) in
  map string_of_list_ascii
      (wrap_chunks (S (2 * List.length s)) width false (split s)).

(** *** Vocabulary for unbroken words *)

(** A character that is neither white space nor a hyphen. *)
Definition solid_char (c : ascii) : Prop := isspace c = false /\ is_hyphen c = false.
Definition solid (s : list ascii) : Prop := Forall solid_char s.

(** Chunks and characters still to be placed. *)
Fixpoint weight (chunks : list (list ascii)) : nat :=
  match chunks with
  | [] => 0
  | c :: rest => S (List.length c) + weight rest
  end.

(** [chop n width w]: the first [n] pieces of [width] characters. *)
Fixpoint chop (n width : nat) (w : list ascii) : list (list ascii) :=
  match n with
  | O => []
  | S n' => take width w :: chop n' width (drop width w)
  end.

End textwrap.

(** The characters of a text that [str.isspace] does not count as white
    space, in their order. *)
Definition visible (s : list ascii) : list ascii :=
  List.filter (fun c => negb (textwrap.isspace c)) s.

(** ** Report information and the cover page *)

(** [datetime.date] *)
Record date := mkDate { year : Z; month : Z; day : Z }.

Definition month_abbr (m : Z) : string :=
  nth (Z.to_nat (m - 1))
      ["Jan"; "Feb"; "Mar"; "Apr"; "May"; "Jun";
       "Jul"; "Aug"; "Sep"; "Oct"; "Nov"; "Dec"] "".

(** [report_date.strftime('%d %b %Y')], for years of four digits. *)
Definition strftime_d_b_Y (d : date) : string :=
  (if day d <? 10 then "0" +:+ pretty (day d) else pretty (day d))
  +:+ " " +:+ month_abbr (month d) +:+ " " +:+ pretty (year d).

(** The values of the form widgets under "Report Information". *)
Record ReportInfo := mkInfo {
  description : string;
  kmatx_part_number : string;
  halbX_part_number : string;
  sales_order : string;
  report_date : date
}.

Section Cover.

Variable truetype_available : string -> Z -> bool.

Abbreviation load_font' := (load_font truetype_available).

(** The loop over the wrapped description: one line per turn, the
    cursor [y] 34 lower after each. *)
Fixpoint draw_lines (d : Draw) (font : Font) (lines : list string) (y : Z) : PIL Z :=
  match lines with
  | [] => mret y
  | line :: rest =>
      Draw_text d (80, y) line "black" font None;;
      draw_lines d font rest (y + 34)
  end.

(* COVER PAGE *)
Definition cover_page (info : ReportInfo) : PIL loc :=
  cover ← Image_new "RGB" (COVER_WIDTH, COVER_HEIGHT) "white";
  d ← ImageDraw_Draw cover;
  let title_font := load_font' 56 in
  let field_font := load_font' 30 in
  let desc_font := load_font' 26 in
  let footer_font := load_font' 18 in

  let y := 90 in
  Draw_text d (COVER_WIDTH / 2, y) "NED FAI REPORT" "black" title_font (Some "mm");;
  let y := y + 90 in
  Draw_text d (60, y) "Description:" "black" field_font None;;
  let y := y + 45 in
  y ← draw_lines d desc_font (textwrap.wrap (description info) 60) y;
  let y := y + 30 in
  Draw_text d (60, y) ("KMATX Part Number : " +:+ kmatx_part_number info)
            "black" field_font None;;
  let y := y + 50 in
  Draw_text d (60, y) ("HALBX Part Number : " +:+ halbX_part_number info)
            "black" field_font None;;
  let y := y + 50 in
  Draw_text d (60, y) ("Sales Order : " +:+ sales_order info)
            "black" field_font None;;
  let y := y + 50 in
  Draw_text d (60, y) ("Date : " +:+ strftime_d_b_Y (report_date info))
            "black" field_font None;;
  Draw_text d (COVER_WIDTH / 2, COVER_HEIGHT - 35) FOOTER_TEXT "gray"
            footer_font (Some "mm");;
  mret cover.

(** The cover as a value: the wrapped lines drawn from [y] downwards,
    and the whole page. *)
Fixpoint with_lines (font : Font) (lines : list string) (y : Z) (r : raster) : raster :=
  match lines with
  | [] => r
  | line :: rest =>
      with_lines font rest (y + 34) (Lettered (80, y) line "black" font None r)
  end.

Definition cover_canvas (info : ReportInfo) : Image :=
  let lines := textwrap.wrap (description info) 60 in
  let y := 90 + 90 + 45 + 34 * Z.of_nat (List.length lines) + 30 in
  mkImage "RGB" COVER_WIDTH COVER_HEIGHT None
    (Lettered (COVER_WIDTH / 2, COVER_HEIGHT - 35) FOOTER_TEXT "gray"
              (load_font' 18) (Some "mm")
    (Lettered (60, y + 50 + 50 + 50)
              ("Date : " +:+ strftime_d_b_Y (report_date info))
              "black" (load_font' 30) None
    (Lettered (60, y + 50 + 50) ("Sales Order : " +:+ sales_order info)
              "black" (load_font' 30) None
    (Lettered (60, y + 50) ("HALBX Part Number : " +:+ halbX_part_number info)
              "black" (load_font' 30) None
    (Lettered (60, y) ("KMATX Part Number : " +:+ kmatx_part_number info)
              "black" (load_font' 30) None
    (with_lines (load_font' 26) lines (90 + 90 + 45)
    (Lettered (60, 90 + 90) "Description:" "black" (load_font' 30) None
    (Lettered (COVER_WIDTH / 2, 90) "NED FAI REPORT" "black"
              (load_font' 56) (Some "mm")
    (Filled "white"))))))))).

End Cover.

(** The texts drawn on a raster, first drawn first, each with its
    position. *)
Fixpoint letterings (r : raster) : list (Z * Z * string) :=
  match r with
  | Lettered xy text _ _ _ onto => letterings onto ++ [(xy, text)]
  | Pasted _ _ onto => letterings onto
  | _ => []
  end.

(** ** Session state *)

Definition CATEGORIES : list string :=
  ["Outer Carton Packaging";
   "Box Labels";
   "Internal Packaging and Accessories";
   "Chassis View";
   "Composite Labels";
   "Internal Configuration";
   "CPU";
   "DIMM";
   "Drives";
   "Fan";
   "Adapter or IO Card";
   "PSU";
   "Internal Wiring"].

(* Max number of photos per category *)
Definition MAX_PHOTOS : nat := 5.

(** An entry of [st.session_state.draft]: the dictionary with the keys
    include, image and label.  The image is a reference to the object held
    by the photo slot. *)
Record DraftEntry := mkEntry { include : bool; image : loc; label : string }.

(** [st.session_state]: the draft, the flag, and one list of photo slots
    per category name. *)
Record Session := mkSession {
  draft : list DraftEntry;
  preview_ready : bool;
  photos : gmap string (list (option loc))
}.

(* Session state init *)
Definition init_photos (photos : gmap string (list (option loc)))
  : gmap string (list (option loc)) :=
  fold_left (fun st cat =>
               match st !! cat with
               | Some _ => st
               | None => <[cat := replicate MAX_PHOTOS None]> st
               end)
            CATEGORIES photos.

Definition new_session : Session := mkSession [] false (init_photos ∅).

(** What a button handler leaves behind: it runs to its end, it stops the
    script after [st.error], or an exception escapes. *)
Inductive outcome (A : Type) :=
| Done (a : A) (s : Session) (h : heap)
| Stopped (message : string) (s : Session) (h : heap)
| Failed (e : exn).
Arguments Done {A} a s h.
Arguments Stopped {A} message s h.
Arguments Failed {A} e.

(** ** Camera inputs per category *)

(** A photo taken for slot [i] of [cat]: the upload is optimized and the
    result replaces what the slot held. *)
Definition camera_input (cat : string) (i : nat) (raw : loc) (s : Session)
  : PIL Session :=
  r ← optimize_image raw;
  match photos s !! cat with
  | None => raise KeyError
  | Some slots =>
      if decide (i < List.length slots)%nat
      then mret (mkSession (draft s) (preview_ready s)
                           (<[cat := <[i := Some r.1]> slots]> (photos s)))
      else raise IndexError
  end.

(** The photos of a category shown under its camera inputs: the
    non-empty slots, each captioned with the category and its rank among
    them. *)
Definition show_uploaded (cat : string) (s : Session)
  : result (option (list loc * list string)) :=
  match photos s !! cat with
  | None => Raise KeyError
  | Some slots =>
      let uploaded_imgs := omap id slots in
      match uploaded_imgs with
      | [] => Ok None
      | _ => Ok (Some (uploaded_imgs,
                       imap (fun i _ => cat +:+ " #" +:+ pretty (i + 1)%nat) uploaded_imgs))
      end
  end.

(** ** Preview Final Draft *)

(** The inner loop: the non-empty slots of one category, in slot order. *)
Definition add_photos (cat : string) (slots : list (option loc))
           (draft : list DraftEntry) : list DraftEntry :=
  fold_left (fun draft img =>
               match img with
               | Some img => draft ++ [mkEntry true img cat]
               | None => draft
               end)
            slots draft.

(** The outer loop over the categories. *)
Fixpoint collect_draft (photos : gmap string (list (option loc)))
         (cats : list string) (draft : list DraftEntry) : result (list DraftEntry) :=
  match cats with
  | [] => Ok draft
  | cat :: rest =>
      match photos !! cat with
      | Some slots => collect_draft photos rest (add_photos cat slots draft)
      | None => Raise KeyError
      end
  end.

Definition preview_final_draft (s : Session) (h : heap) : outcome unit :=
  match collect_draft (photos s) CATEGORIES [] with
  | Raise e => Failed e
  | Ok [] => Stopped "Please take/upload at least one photo." s h
  | Ok draft => Done tt (mkSession draft true (photos s)) h
  end.

(** ** Draft editor *)

(** The widgets of entry [idx] write their values into the entry; the
    preview shown next to them is a [render_image] of the entry, which
    leaves the entry and its image alone. *)
Definition edit_entry (idx : nat) (inc : bool) (lbl : string) (s : Session) : Session :=
  mkSession (alter (fun item => mkEntry inc (image item) lbl) idx (draft s))
            (preview_ready s) (photos s).

Section DraftEditor.

Variable truetype_available : string -> Z -> bool.
Variable font_getbbox : Font -> string -> string -> Z * Z * Z * Z.
Variable font_getlength : Font -> string -> string -> Fixed.t.

(** What the two widgets of the entry [idx] return in this run of the
    script, given the value they are created with. *)
Variable checkbox : nat -> bool -> bool.
Variable text_input : nat -> string -> string.

(** The loop over the draft: the widgets write into the entry, then the
    entry is rendered for the preview column.  Returns the entries and the
    previews shown. *)
Fixpoint edit_items (idx : nat) (items : list DraftEntry)
  : PIL (list DraftEntry * list loc) :=
  match items with
  | [] => mret ([], [])
  | item :: rest =>
      let item := mkEntry (checkbox idx (include item)) (image item) (label item) in
      let item := mkEntry (include item) (image item) (text_input idx (label item)) in
      shown ← render_image truetype_available font_getbbox font_getlength
                           (image item) (label item);
      r ← edit_items (S idx) rest;
      mret (item :: r.1, shown :: r.2)
  end.

Definition draft_editor (s : Session) (h : heap) : outcome (list loc) :=
  if preview_ready s then
    match edit_items 0 (draft s) h with
    | Ok (items, shown, h') =>
        Done shown (mkSession items (preview_ready s) (photos s)) h'
    | Raise e => Failed e
    end
  else Done [] s h.

(** The entry [idx] once its widgets have written into it. *)
Definition edited (idx : nat) (item : DraftEntry) : DraftEntry :=
  mkEntry (checkbox idx (include item)) (image item) (text_input idx (label item)).

End DraftEditor.

(** ** Convert to PDF *)

(** The file written by [Image.save(format=PDF, save_all=True,
    append_images=...)]: the pages in order. *)
Record PDF := mkPDF { pages : list Image; resolution : Z }.

(** The download offered after a successful export. *)
Record Download := mkDownload { data : PDF; file_name : string; mime : string }.

Fixpoint load_all (ls : list loc) : PIL (list Image) :=
  match ls with
  | [] => mret []
  | l :: rest => im ← load l; ims ← load_all rest; mret (im :: ims)
  end.

Definition save_pdf (first : loc) (append_images : list loc) (res : Z) : PIL PDF :=
  ims ← load_all (first :: append_images);
  mret (mkPDF ims res).

Section ConvertToPdf.

Variable truetype_available : string -> Z -> bool.
Variable font_getbbox : Font -> string -> string -> Z * Z * Z * Z.
Variable font_getlength : Font -> string -> string -> Fixed.t.

(* IMAGE PAGES *)
Fixpoint image_pages (selected : list DraftEntry) (pdf_pages : list loc)
  : PIL (list loc) :=
  match selected with
  | [] => mret pdf_pages
  | item :: rest =>
      page ← render_image truetype_available font_getbbox font_getlength
                          (image item) (label item);
      image_pages rest (pdf_pages ++ [page])
  end.

Definition convert_to_pdf (info : ReportInfo) (s : Session) (h : heap)
  : outcome Download :=
  let selected := List.filter include (draft s) in
  match selected with
  | [] => Stopped "No images selected for PDF." s h
  | _ =>
      let export : PIL PDF :=
        cover ← cover_page truetype_available info;
        pdf_pages ← image_pages selected [cover];
        match pdf_pages with
        | first :: others => save_pdf first others 300
        | [] => raise IndexError
        end in
      match export h with
      | Ok (pdf, h') => Done (mkDownload pdf "NED_FAI_Report.pdf" "application/pdf") s h'
      | Raise e => Failed e
      end
  end.

End ConvertToPdf.

(** ** The draft and the photo slots as the specification words them *)

(** The slot [(cat, i)]: empty when the key or the index is missing. *)
Definition slot (photos : gmap string (list (option loc))) (cat : string) (i : nat)
  : option loc :=
  match photos !! cat with
  | Some slots => match slots !! i with Some o => o | None => None end
  | None => None
  end.

(** One entry per non-empty slot, categories in their fixed order, slot
    indices 0..4 within a category, every entry included and labelled with
    its category. *)
Definition spec_draft (photos : gmap string (list (option loc))) : list DraftEntry :=
  flat_map (fun cat =>
              flat_map (fun i => match slot photos cat i with
                                 | Some img => [mkEntry true img cat]
                                 | None => []
                                 end)
                       (seq 0 MAX_PHOTOS))
           CATEGORIES.

(** The entries one category contributes. *)
Definition entries_of (cat : string) (slots : list (option loc)) : list DraftEntry :=
  flat_map (fun o => match o with
                     | Some img => [mkEntry true img cat]
                     | None => []
                     end) slots.

(** Every category has its list of [MAX_PHOTOS] slots. *)
Definition initialised (photos : gmap string (list (option loc))) : Prop :=
  Forall (fun cat => exists slots, photos !! cat = Some slots
                                   /\ List.length slots = MAX_PHOTOS) CATEGORIES.

Definition some_photo (photos : gmap string (list (option loc))) : Prop :=
  Exists (fun cat => exists slots, photos !! cat = Some slots
                                   /\ Exists (fun o => o <> None) slots) CATEGORIES.

Definition no_photo (photos : gmap string (list (option loc))) : Prop :=
  Forall (fun cat => exists slots, photos !! cat = Some slots
                                   /\ Forall (fun o => o = None) slots) CATEGORIES.

(** Edits made in the draft editor, in order. *)
Definition apply_edits (edits : list (nat * bool * string)) (s : Session) : Session :=
  fold_left (fun s e => edit_entry e.1.1 e.1.2 e.2 s) edits s.

(** ** Well-formed measurements *)

(** A bounding box (left, top, right, bottom) whose bottom is not above
    its top. *)
Definition bbox_ordered (bb : Z * Z * Z * Z) : Prop := bb.1.1.2 <= bb.2.

(** ** Sample data for the worked examples *)

(** A backend without Arial, whose fallback font has glyphs 6 pixels wide
    between the rows 2 and 11. *)
Definition no_truetype (file : string) (size : Z) : bool := false.
Definition sample_bbox (f : Font) (fm text : string) : Z * Z * Z * Z :=
  (0, 2, 6 * Z.of_nat (String.length text), 11).
Definition sample_length (f : Font) (fm text : string) : Fixed.t :=
  Fixed.of_int (6 * Z.of_nat (String.length text)).

Definition photo (upload : N) (w h : Z) : Image := mkImage "RGB" w h None (Decoded upload).

(** A landscape photo 4177 pixels wide, and a small one stored on its side
    (EXIF orientation 6). *)
Definition wide_photo : Image := photo 0 4177 3000.
Definition turned_photo : Image := mkImage "RGB" 200 100 (Some 6) (Decoded 1).

(** Two prepared photos, in the CPU slot 0 and the Fan slot 2. *)
Definition sample_heap : heap := [photo 0 640 480; photo 1 20 30].
Definition sample_photos : gmap string (list (option loc)) :=
  <["Fan" := [None; None; Some 1%nat; None; None]]>
    (<["CPU" := [Some 0%nat; None; None; None; None]]> (init_photos ∅)).
Definition sample_session : Session := mkSession [] false sample_photos.
Definition sample_draft : list DraftEntry :=
  [mkEntry true 0%nat "CPU-Front"; mkEntry false 1%nat "Fan"; mkEntry true 1%nat "Fan"].
Definition sample_info : ReportInfo :=
  mkInfo "Server unit" "P12345-B21" "P54321-001" "SO-7788" (mkDate 2024 3 5).

(** Two descriptions of 300 characters: six words (five of 50 letters, one
    of 45), and one unbroken word. *)
Definition letters (n : nat) : string := string_of_list_ascii (repeat "a"%char n).
Definition prose : string :=
  String.concat " " [letters 50; letters 50; letters 50; letters 50; letters 50; letters 45].
Definition unbroken : string := letters 300.

(** The store after [optimize_image] has run on the wide photo. *)
Definition optimized_wide : heap :=
  [wide_photo; wide_photo; resized (2999, 2154) wide_photo;
   resized (2999, 2154) wide_photo].
(** Widgets of a run in which the user retitles the first entry and
    leaves everything else as it is. *)
Definition sample_checkbox (idx : nat) (value : bool) : bool := value.
Definition sample_text_input (idx : nat) (value : string) : string :=
  match idx with O => "CPU-Front" | _ => value end.

(** * Properties *)

(** ** Worked values

    The float and wrapping models at a few inputs, with the values CPython
    computes there. *)

Example truediv_3000_4177 :
  PyFloat.truediv 3000 4177 = Ok (S754_finite false 6469139996222881 (-53)).
Proof. vm_compute. reflexivity. Qed.

Example int_mul_4177 :
  PyFloat.int_mul 4177 (S754_finite false 6469139996222881 (-53))
  = S754_finite false 6597069766655999 (-41).
Proof. vm_compute. reflexivity. Qed.

Example scaled_edge_4177 :
  scaled_edge 3000 4177 4177 = Ok 2999 /\ scaled_edge 3000 4177 3000 = Ok 2154.
Proof. split; vm_compute; reflexivity. Qed.

Example wrap_words :
  textwrap.wrap "hello world, this is a test" 7 = ["hello"; "world,"; "this is"; "a test"].
Proof. vm_compute. reflexivity. Qed.

Example wrap_hyphens :
  textwrap.wrap "well-known co-operative e-mail" 9
  = ["well-"; "known co-"; "operative"; "e-mail"].
Proof. vm_compute. reflexivity. Qed.

Example wrap_dashes :
  textwrap.wrap "ab-cd-ef a-b-cd x--y" 4 = ["ab-"; "cd-"; "ef"; "a-b-"; "cd x"; "--y"].
Proof. vm_compute. reflexivity. Qed.

Example strftime_sample : strftime_d_b_Y (mkDate 2024 3 5) = "05 Mar 2024".
Proof. vm_compute. reflexivity. Qed.

(** ** Stepping through the store monad *)

Lemma bind_Ok {A B} (m : PIL A) (k : A -> PIL B) (h h' : heap) (a : A) :
  m h = Ok (a, h') -> (m ≫= k) h = k a h'.
Proof. intros E. unfold mbind, PIL_bind. now rewrite E. Qed.

Lemma load_Some (h : heap) (l : loc) (im : Image) :
  h !! l = Some im -> load l h = Ok (im, h).
Proof. intros E. unfold load. now rewrite E. Qed.

Lemma store_Some (h : heap) (l : loc) (old im : Image) :
  h !! l = Some old -> store l im h = Ok (tt, <[l := im]> h).
Proof. intros E. unfold store. now rewrite E. Qed.

Lemma lookup_fresh (h : heap) (im : Image) :
  (h ++ [im]) !! List.length h = Some im.
Proof. now rewrite list_lookup_middle. Qed.

Lemma lookup_old (h : heap) (l : loc) (im x : Image) :
  h !! l = Some im -> (h ++ [x]) !! l = Some im.
Proof. intros E. now apply lookup_app_l_Some. Qed.

Lemma insert_fresh (h : heap) (x y : Image) :
  <[List.length h := y]> (h ++ [x]) = h ++ [y].
Proof.
  rewrite insert_app_r_alt by reflexivity.
  now rewrite Nat.sub_diag.
Qed.

Lemma Image_copy_spec (h : heap) (l : loc) (im : Image) :
  h !! l = Some im -> Image_copy l h = Ok (List.length h, h ++ [im]).
Proof.
  intros E. unfold Image_copy. now rewrite (bind_Ok _ _ _ _ _ (load_Some _ _ _ E)).
Qed.

Lemma ImageDraw_Draw_spec (h : heap) (l : loc) (im : Image) :
  h !! l = Some im ->
  ImageDraw_Draw l h = Ok (mkDraw l (fontmode_of (mode im)), h).
Proof.
  intros E. unfold ImageDraw_Draw.
  now rewrite (bind_Ok _ _ _ _ _ (load_Some _ _ _ E)).
Qed.

Lemma Image_paste_spec (h : heap) (dst src : loc) (d s : Image) (box : Z * Z) :
  h !! dst = Some d -> h !! src = Some s ->
  Image_paste dst src box h
  = Ok (tt, <[dst := repaint (Pasted (pixels s) box) d]> h).
Proof.
  intros Ed Es. unfold Image_paste.
  rewrite (bind_Ok _ _ _ _ _ (load_Some _ _ _ Ed)).
  rewrite (bind_Ok _ _ _ _ _ (load_Some _ _ _ Es)).
  now apply store_Some with (old := d).
Qed.

Section RenderFacts.

Variable truetype_available : string -> Z -> bool.
Variable font_getbbox : Font -> string -> string -> Z * Z * Z * Z.
Variable font_getlength : Font -> string -> string -> Fixed.t.

Abbreviation render_image' := (render_image truetype_available font_getbbox font_getlength).
Abbreviation captioned_page' := (captioned_page truetype_available font_getbbox font_getlength).
Abbreviation bar_height' := (bar_height truetype_available font_getbbox).

Lemma textlength_spec (h : heap) (d : Draw) (text : string) (font : Font) :
  multiline_check text = false ->
  textlength font_getlength d text font h
  = Ok (font_getlength font (fontmode d) text, h).
Proof. intros E. unfold textlength. now rewrite E. Qed.

Lemma Draw_text_spec (h : heap) (d : Draw) (im : Image) xy text fill font anchor :
  h !! target d = Some im ->
  Draw_text d xy text fill font anchor h
  = Ok (tt, <[target d := repaint (Lettered xy text fill font anchor) im]> h).
Proof.
  intros E. unfold Draw_text.
  rewrite (bind_Ok _ _ _ _ _ (load_Some _ _ _ E)).
  now apply store_Some with (old := im).
Qed.

Lemma textbbox_height (d : Draw) (text : string) (font : Font) (m : string) :
  fontmode d = fontmode_of m ->
  (textbbox font_getbbox d (0, 0) text font).2
  - (textbbox font_getbbox d (0, 0) text font).1.1.2
  = text_height font_getbbox m text font.
Proof.
  intros E. unfold textbbox, text_height. rewrite E.
  destruct (font_getbbox font (fontmode_of m) text) as [[[x0 y0] x1] y1].
  simpl. lia.
Qed.

Lemma footer_single_line : multiline_check FOOTER_TEXT = false.
Proof. reflexivity. Qed.

(** [render_image] leaves two new objects behind: the copy of its
    argument and the finished canvas, which it returns. *)
Lemma render_image_spec (h : heap) (l : loc) (im : Image) (label : string) :
  h !! l = Some im ->
  multiline_check label = false ->
  render_image' l label h
  = Ok (S (List.length h), h ++ [im; captioned_page' im label]).
Proof.
  intros Hl Hs. unfold render_image.
  rewrite (bind_Ok _ _ _ _ _ (Image_copy_spec _ _ _ Hl)).
  pose proof (lookup_fresh h im) as Hc.
  rewrite (bind_Ok _ _ _ _ _ (ImageDraw_Draw_spec _ _ _ Hc)).
  rewrite (bind_Ok _ _ _ _ _ (load_Some _ _ _ Hc)).
  rewrite !(textbbox_height _ _ _ (mode im)) by reflexivity.
  unfold Image_new at 1.
  erewrite bind_Ok by reflexivity.
  set (h1 := h ++ [im]).
  set (blank := mkImage "RGB" _ _ None (Filled "white")).
  pose proof (lookup_fresh h1 blank) as Hb.
  assert (Hc' : (h1 ++ [blank]) !! List.length h = Some im)
    by now apply lookup_old.
  rewrite (bind_Ok _ _ _ _ _ (Image_paste_spec _ _ _ _ _ _ Hb Hc')).
  rewrite insert_fresh.
  set (pasted := repaint _ blank).
  pose proof (lookup_fresh h1 pasted) as Hp.
  rewrite (bind_Ok _ _ _ _ _ (ImageDraw_Draw_spec _ _ _ Hp)).
  rewrite (bind_Ok _ _ _ _ _ (textlength_spec _ _ _ _ Hs)).
  erewrite bind_Ok by (apply Draw_text_spec; exact Hp).
  simpl target. rewrite insert_fresh.
  rewrite (bind_Ok _ _ _ _ _ (textlength_spec _ _ _ _ footer_single_line)).
  erewrite bind_Ok by (apply Draw_text_spec; apply lookup_fresh).
  simpl target. rewrite insert_fresh.
  unfold mret, PIL_ret. subst h1. rewrite length_app. simpl.
  rewrite Nat.add_1_r, <- app_assoc. reflexivity.
Qed.

End RenderFacts.

(** ** The cover page *)

Section CoverFacts.

Variable truetype_available : string -> Z -> bool.

Abbreviation cover_page' := (cover_page truetype_available).
Abbreviation cover_canvas' := (cover_canvas truetype_available).

Lemma Draw_text_fresh (pre : heap) (im : Image) (d : Draw) xy text fill font anchor :
  target d = List.length pre ->
  Draw_text d xy text fill font anchor (pre ++ [im])
  = Ok (tt, pre ++ [repaint (Lettered xy text fill font anchor) im]).
Proof.
  intros E. unfold Draw_text. rewrite E.
  rewrite (bind_Ok _ _ _ _ _ (load_Some _ _ _ (lookup_fresh pre im))).
  rewrite (store_Some _ _ im) by apply lookup_fresh.
  now rewrite insert_fresh.
Qed.

Lemma draw_lines_spec (pre : heap) (d : Draw) (font : Font) (lines : list string) :
  target d = List.length pre ->
  forall (y : Z) (im : Image),
    draw_lines d font lines y (pre ++ [im])
    = Ok (y + 34 * Z.of_nat (List.length lines),
          pre ++ [repaint (with_lines font lines y) im]).
Proof.
  intros E. induction lines as [|line rest IH]; intros y im.
  - simpl. unfold mret, PIL_ret. rewrite Z.add_0_r. now destruct im.
  - cbn [draw_lines].
    rewrite (bind_Ok _ _ _ _ _ (Draw_text_fresh pre im d _ _ _ _ _ E)).
    rewrite IH. f_equal. f_equal.
    cbn [List.length]. lia.
Qed.

(** The cover block allocates one object, the finished cover. *)
Lemma cover_page_spec (info : ReportInfo) (h : heap) :
  cover_page' info h = Ok (List.length h, h ++ [cover_canvas' info]).
Proof.
  unfold cover_page.
  unfold Image_new at 1. erewrite bind_Ok by reflexivity.
  set (blank := mkImage "RGB" _ _ None (Filled "white")).
  rewrite (bind_Ok _ _ _ _ _ (ImageDraw_Draw_spec _ _ _ (lookup_fresh h blank))).
  set (d := mkDraw _ _).
  assert (E : target d = List.length h) by reflexivity.
  rewrite (bind_Ok _ _ _ _ _ (Draw_text_fresh h _ d _ _ _ _ _ E)).
  rewrite (bind_Ok _ _ _ _ _ (Draw_text_fresh h _ d _ _ _ _ _ E)).
  rewrite (bind_Ok _ _ _ _ _ (draw_lines_spec h d _ _ E _ _)).
  do 5 rewrite (bind_Ok _ _ _ _ _ (Draw_text_fresh h _ d _ _ _ _ _ E)).
  reflexivity.
Qed.

Lemma letterings_with_lines (font : Font) (lines : list string) :
  forall (y : Z) (r : raster),
    letterings (with_lines font lines y r)
    = letterings r
      ++ imap (fun i line => ((80, y + 34 * Z.of_nat i), line)) lines.
Proof.
  induction lines as [|line rest IH]; intros y r.
  - simpl. now rewrite app_nil_r.
  - cbn [with_lines]. rewrite IH. cbn [letterings imap].
    rewrite <- app_assoc. f_equal. cbn [app]. f_equal.
    + f_equal. f_equal. lia.
    + apply imap_ext. intros i x _. unfold compose. f_equal. f_equal. lia.
Qed.

End CoverFacts.

(** ** Wrapping an unbroken word *)

Module textwrap_facts.
Import textwrap.

(** *** The outer loop ends before its fuel does *)

Lemma take_fitting_weight (width : nat) (chunks : list (list ascii)) :
  forall cur_line cur_len,
    let '(_, cur_len', rest) := take_fitting width cur_line cur_len chunks in
    (weight rest < weight chunks)%nat
    \/ (rest = chunks /\ cur_len' = cur_len
        /\ match chunks with
           | c :: _ => (width < cur_len + List.length c)%nat
           | [] => True
           end).
Proof.
  induction chunks as [|c chunks IH]; intros cur_line cur_len; cbn [take_fitting].
  - right. auto.
  - destruct (cur_len + List.length c <=? width)%nat eqn:E.
    + specialize (IH (cur_line ++ [c]) (cur_len + List.length c)%nat).
      destruct (take_fitting width (cur_line ++ [c]) (cur_len + List.length c) chunks)
        as [[line' len'] rest].
      left. cbn [weight].
      destruct IH as [IH|(-> & _ & _)]; lia.
    + right. apply Nat.leb_gt in E. auto.
Qed.

Lemma weight_drop (n : nat) (c : list ascii) (rest : list (list ascii)) :
  (weight (drop n c :: rest) <= weight (c :: rest))%nat
  /\ ((0 < n)%nat -> c <> [] -> (weight (drop n c :: rest) < weight (c :: rest))%nat).
Proof.
  cbn [weight]. rewrite length_drop. split; [lia|].
  intros Hn Hc. destruct c; [congruence|]. cbn [List.length]. lia.
Qed.

Lemma handle_long_word_weight (chunks cur_line : list (list ascii)) (cur_len width : nat) :
  (weight (snd (handle_long_word chunks cur_line cur_len width)) <= weight chunks)%nat
  /\ (cur_len = 0%nat -> (0 < width)%nat ->
      match chunks with
      | c :: _ => (width < List.length c)%nat
      | [] => False
      end ->
      (weight (snd (handle_long_word chunks cur_line cur_len width)) < weight chunks)%nat).
Proof.
  unfold handle_long_word. destruct chunks as [|c rest]; [cbn; split; [lia|tauto]|].
  cbn [snd]. split; [apply weight_drop|].
  intros -> Hw Hc. apply weight_drop; [|destruct c; cbn in Hc; [lia|congruence]].
  replace (width <? 1)%nat with false by (symmetry; apply Nat.ltb_ge; lia).
  rewrite Nat.sub_0_r.
  destruct (width <? List.length c)%nat; [|lia].
  destruct (rfind_hyphen c width 0) as [hy|]; [|lia].
  destruct ((0 <? hy)%nat && existsb (fun c0 => negb (is_hyphen c0)) (take hy c)); lia.
Qed.

(** Each turn of the loop makes the work left strictly smaller. *)
Lemma next_line_weight (width : nat) (started : bool) (chunks : list (list ascii)) :
  (0 < width)%nat -> chunks <> [] ->
  (weight (snd (next_line width started chunks)) < weight chunks)%nat.
Proof.
  intros Hw Hne. unfold next_line.
  set (chunks1 := match chunks with
                  | first :: rest => if blank first && started then rest else chunks
                  | [] => chunks
                  end).
  assert (H1 : (weight chunks1 < weight chunks)%nat \/ chunks1 = chunks).
  { subst chunks1. destruct chunks as [|first rest]; [auto|].
    destruct (blank first && started); [left|auto].
    cbn [weight]. lia. }
  clearbody chunks1.
  pose proof (take_fitting_weight width chunks1 [] 0%nat) as H2.
  destruct (take_fitting width [] 0 chunks1) as [[cur_line cur_len] chunks2].
  set (step3 := match chunks2 with
                | c :: _ => if (width <? List.length c)%nat
                            then handle_long_word chunks2 cur_line cur_len width
                            else (cur_line, chunks2)
                | [] => (cur_line, chunks2)
                end).
  assert (H3 : (weight (snd step3) < weight chunks)%nat).
  { subst step3. destruct H2 as [H2|(E2 & El & H2)]; [|subst chunks2 cur_len].
    - assert (weight chunks2 < weight chunks)%nat by (destruct H1 as [|<-]; lia).
      destruct chunks2 as [|c rest]; [exact H|].
      destruct (width <? List.length c)%nat; [|exact H].
      pose proof (handle_long_word_weight (c :: rest) cur_line cur_len width) as [Hle _].
      lia.
    - destruct chunks1 as [|c rest].
      + destruct H1 as [H1|H1]; [cbn in *; lia|congruence].
      + cbn [Nat.add] in H2.
        replace (width <? List.length c)%nat with true
          by (symmetry; apply Nat.ltb_lt; lia).
        pose proof (handle_long_word_weight (c :: rest) cur_line 0%nat width) as [_ Hlt].
        specialize (Hlt eq_refl Hw H2). destruct H1 as [|<-]; lia. }
  destruct step3 as [cur_line3 chunks3]. cbn [snd] in H3.
  destruct (match last cur_line3 with
            | Some l => if blank l then removelast cur_line3 else cur_line3
            | None => cur_line3
            end); exact H3.
Qed.

(** Fuel beyond the weight of the chunks changes nothing. *)
Lemma wrap_chunks_fuel (width : nat) :
  (0 < width)%nat ->
  forall (fuel fuel' : nat) (started : bool) (chunks : list (list ascii)),
    (weight chunks < fuel)%nat -> (weight chunks < fuel')%nat ->
    wrap_chunks fuel width started chunks = wrap_chunks fuel' width started chunks.
Proof.
  intros Hw. induction fuel as [|fuel IH]; intros fuel' started chunks H1 H2; [lia|].
  destruct fuel' as [|fuel']; [lia|].
  cbn [wrap_chunks]. destruct chunks as [|c rest]; [reflexivity|].
  pose proof (next_line_weight width started (c :: rest) Hw) as Hlt.
  destruct (next_line width started (c :: rest)) as [[line|] chunks'];
    cbn [snd] in Hlt; (assert (weight chunks' < weight (c :: rest))%nat
                        by (apply Hlt; discriminate)).
  - f_equal. apply IH; lia.
  - apply IH; lia.
Qed.

Lemma scan_chunks (text : list ascii) :
  forall (k : kind) (before cur : list ascii),
    (k = Fresh -> cur = []) -> (k <> Fresh -> cur <> []) ->
    concat (scan k before cur text) = rev cur ++ text
    /\ Forall (fun c => c <> []) (scan k before cur text).
Proof.
  assert (Hrev : forall (l : list ascii), l <> [] -> rev l <> []).
  { intros l Hl E. apply Hl. rewrite <- (rev_involutive l), E. reflexivity. }
  induction text as [|c rest IH]; intros k before cur Hf Hn.
  - destruct k; cbn [scan concat].
    + rewrite (Hf eq_refl). split; [reflexivity|constructor].
    + rewrite !app_nil_r. split; [reflexivity|]. repeat constructor. apply Hrev, Hn; discriminate.
    + rewrite !app_nil_r. split; [reflexivity|]. repeat constructor. apply Hrev, Hn; discriminate.
    + rewrite !app_nil_r. split; [reflexivity|]. repeat constructor. apply Hrev, Hn; discriminate.
  - assert (Hnew : forall k', k' <> Fresh ->
              concat (scan k' (c :: before) [c] rest) = c :: rest
              /\ Forall (fun c => c <> []) (scan k' (c :: before) [c] rest)).
    { intros k' Hk'. destruct (IH k' (c :: before) [c]) as [E F];
        [congruence|discriminate|]. split; [exact E|exact F]. }
    assert (Hmore : forall k', k' <> Fresh ->
              concat (scan k' (c :: before) (c :: cur) rest) = rev cur ++ c :: rest
              /\ Forall (fun c => c <> []) (scan k' (c :: before) (c :: cur) rest)).
    { intros k' Hk'. destruct (IH k' (c :: before) (c :: cur)) as [E F];
        [congruence|discriminate|]. split; [|exact F].
      rewrite E. cbn [rev]. now rewrite <- app_assoc. }
    assert (Hstart : start before c rest <> Fresh).
    { unfold start. destruct (is_whitespace c); [discriminate|].
      destruct (word_punct_behind before && emdash_ahead (c :: rest)); discriminate. }
    assert (Hclose : forall k', k' <> Fresh -> cur <> [] ->
              concat (rev cur :: scan k' (c :: before) [c] rest) = rev cur ++ c :: rest
              /\ Forall (fun c => c <> []) (rev cur :: scan k' (c :: before) [c] rest)).
    { intros k' Hk' Hc. destruct (Hnew k' Hk') as [E F]. cbn [concat]. rewrite E.
      split; [reflexivity|]. constructor; [now apply Hrev|exact F]. }
    destruct k; cbn [scan].
    + rewrite (Hf eq_refl). cbn [rev app]. now apply Hnew.
    + destruct (is_whitespace c); [apply Hmore; discriminate|].
      apply Hclose; [exact Hstart|apply Hn; discriminate].
    + destruct (is_hyphen c); [apply Hmore; discriminate|].
      apply Hclose; [exact Hstart|apply Hn; discriminate].
    + destruct (is_hyphen c && hyphen_break before rest).
      * destruct (IH Fresh (c :: before) []) as [E F]; [reflexivity|congruence|].
        cbn [concat]. rewrite E. cbn [rev app]. rewrite <- app_assoc.
        split; [reflexivity|]. constructor; [|exact F].
        intros E'. apply app_eq_nil in E'. destruct E' as [_ E']. discriminate.
      * destruct (is_whitespace c);
          [apply Hclose; [discriminate|apply Hn; discriminate]|].
        destruct (word_punct_behind before && emdash_ahead (c :: rest));
          [apply Hclose; [discriminate|apply Hn; discriminate]|].
        apply Hmore; discriminate.
Qed.

Lemma weight_bound (chunks : list (list ascii)) :
  Forall (fun c => c <> []) chunks ->
  (weight chunks <= 2 * List.length (concat chunks))%nat.
Proof.
  induction 1 as [|c chunks Hc _ IH]; [cbn; lia|].
  cbn [weight concat]. rewrite length_app.
  destruct c; [congruence|]. cbn [List.length]. lia.
Qed.

(** The fuel [wrap] provides suffices: any larger amount gives the same
    lines. *)
Lemma wrap_fuel_enough (text : string) (width fuel : nat) :
  (0 < width)%nat ->
  let s := munge_whitespace (list_ascii_of_string text) in
  (2 * List.length s < fuel)%nat ->
  map string_of_list_ascii (wrap_chunks fuel width false (split s)) = wrap text width.
Proof.
  intros Hw s Hfuel. unfold wrap. fold s. f_equal.
  destruct (scan_chunks s Fresh [] []) as [Hc Hne]; [reflexivity|congruence|].
  cbn [rev app] in Hc. fold (split s) in Hc, Hne.
  pose proof (weight_bound (split s) Hne) as Hb. rewrite Hc in Hb.
  apply wrap_chunks_fuel; [exact Hw|lia|lia].
Qed.

Lemma whitespace_isspace (c : ascii) : is_whitespace c = true -> isspace c = true.
Proof. destruct c as [[] [] [] [] [] [] [] []]; vm_compute; congruence. Qed.

Lemma solid_not_whitespace (c : ascii) : solid_char c -> is_whitespace c = false.
Proof.
  intros [Hs _]. destruct (is_whitespace c) eqn:E; [|reflexivity].
  apply whitespace_isspace in E. congruence.
Qed.

Lemma solid_not_tab (c : ascii) : solid_char c -> one_of [9%N] c = false.
Proof.
  intros [Hs _]. revert Hs.
  destruct c as [[] [] [] [] [] [] [] []]; vm_compute; congruence.
Qed.

Lemma expandtabs_solid (s : list ascii) :
  solid s -> forall col, expandtabs col s = s.
Proof.
  induction 1 as [|c r Hc Hr IH]; intros col; [reflexivity|].
  cbn [expandtabs]. rewrite (solid_not_tab c Hc).
  destruct (one_of [10%N; 13%N] c); now rewrite IH.
Qed.

Lemma munge_solid (s : list ascii) : solid s -> munge_whitespace s = s.
Proof.
  intros H. unfold munge_whitespace. rewrite (expandtabs_solid s H).
  induction H as [|c r Hc Hr IH]; [reflexivity|].
  cbn [map]. rewrite (solid_not_whitespace c Hc). now rewrite IH.
Qed.

Lemma emdash_ahead_solid (c : ascii) (rest : list ascii) :
  solid_char c -> emdash_ahead (c :: rest) = false.
Proof. intros [_ Hh]. unfold emdash_ahead. cbn [after_hyphens]. now rewrite Hh. Qed.

Lemma scan_word_solid (s : list ascii) :
  solid s -> forall before cur, scan Word before cur s = [rev cur ++ s].
Proof.
  induction 1 as [|c r Hc Hr IH]; intros before cur.
  - cbn. now rewrite app_nil_r.
  - cbn [scan]. destruct Hc as [Hs Hh]. rewrite Hh. cbn [andb].
    rewrite (solid_not_whitespace c (conj Hs Hh)).
    rewrite (emdash_ahead_solid c r (conj Hs Hh)), andb_false_r.
    rewrite IH. cbn [rev]. now rewrite <- app_assoc.
Qed.

(** An unbroken word is one chunk. *)
Lemma split_solid (s : list ascii) : solid s -> s <> [] -> split s = [s].
Proof.
  intros H Hne. destruct H as [|c r Hc Hr]; [congruence|].
  unfold split. cbn [scan]. unfold start.
  rewrite (solid_not_whitespace c Hc), (emdash_ahead_solid c r Hc), andb_false_r.
  now rewrite (scan_word_solid r Hr).
Qed.

Lemma blank_solid (s : list ascii) : solid s -> s <> [] -> blank s = false.
Proof.
  intros H Hne. destruct H as [|c r [Hs _] Hr]; [congruence|].
  unfold blank. cbn. now rewrite Hs.
Qed.

Lemma rfind_hyphen_solid (s : list ascii) :
  solid s -> forall stop i, rfind_hyphen s stop i = None.
Proof.
  induction 1 as [|c r [_ Hh] Hr IH]; intros stop i; destruct stop; try reflexivity.
  cbn [rfind_hyphen]. now rewrite IH, Hh.
Qed.

Lemma solid_take (n : nat) (s : list ascii) : solid s -> solid (take n s).
Proof. apply Forall_take. Qed.

Lemma solid_drop (n : nat) (s : list ascii) : solid s -> solid (drop n s).
Proof. apply Forall_drop. Qed.

(** A word longer than the line gives up its first [width] characters. *)
Lemma next_line_long (width : nat) (started : bool) (w : list ascii) :
  solid w -> (0 < width)%nat -> (width < List.length w)%nat ->
  next_line width started [w] = (Some (take width w), [drop width w]).
Proof.
  intros Hw Hpos Hlen.
  assert (Hne : w <> []) by (destruct w; cbn in Hlen; [lia|congruence]).
  unfold next_line. rewrite (blank_solid w Hw Hne). cbn [andb take_fitting].
  replace (0 + List.length w <=? width)%nat with false
    by (symmetry; apply Nat.leb_gt; lia).
  replace (width <? List.length w)%nat with true
    by (symmetry; apply Nat.ltb_lt; lia).
  unfold handle_long_word.
  replace (width <? 1)%nat with false by (symmetry; apply Nat.ltb_ge; lia).
  rewrite Nat.sub_0_r.
  replace (width <? List.length w)%nat with true
    by (symmetry; apply Nat.ltb_lt; lia).
  rewrite (rfind_hyphen_solid w Hw). cbn [app last].
  assert (Hne' : take width w <> []).
  { destruct w; [congruence|]. destruct width; [lia|]. cbn. congruence. }
  rewrite (blank_solid _ (solid_take width w Hw) Hne').
  cbn [concat]. rewrite app_nil_r.
  destruct (take width w) eqn:E; [congruence|reflexivity].
Qed.

(** A word that fits is the last line. *)
Lemma next_line_short (width : nat) (started : bool) (w : list ascii) :
  solid w -> w <> [] -> (List.length w <= width)%nat ->
  next_line width started [w] = (Some w, []).
Proof.
  intros Hw Hne Hlen.
  unfold next_line. rewrite (blank_solid w Hw Hne). cbn [andb take_fitting].
  replace (0 + List.length w <=? width)%nat with true
    by (symmetry; apply Nat.leb_le; lia).
  cbn [app last]. rewrite (blank_solid w Hw Hne).
  cbn [concat]. rewrite app_nil_r.
  destruct w; [congruence|reflexivity].
Qed.

Lemma wrap_chunks_solid (width : nat) :
  (0 < width)%nat ->
  forall (n : nat) (w : list ascii) (fuel : nat) (started : bool),
    solid w -> List.length w = (S n * width)%nat -> (S n <= fuel)%nat ->
    wrap_chunks fuel width started [w] = chop (S n) width w.
Proof.
  intros Hpos. induction n as [|n IH]; intros w fuel started Hw Hlen Hfuel.
  - destruct fuel as [|fuel]; [lia|].
    assert (Hne : w <> []) by (destruct w; cbn in Hlen; [lia|congruence]).
    cbn [wrap_chunks]. rewrite (next_line_short width started w Hw Hne) by lia.
    cbn [chop]. rewrite take_ge by lia. now destruct fuel.
  - destruct fuel as [|fuel]; [lia|].
    cbn [wrap_chunks]. rewrite (next_line_long width started w Hw Hpos) by nia.
    change (chop (S (S n)) width w)
      with (take width w :: chop (S n) width (drop width w)).
    f_equal. apply IH.
    + now apply solid_drop.
    + rewrite length_drop. nia.
    + lia.
Qed.

Lemma chop_lengths (n width : nat) :
  forall w, List.length w = (n * width)%nat ->
            Forall (fun l => List.length l = width) (chop n width w).
Proof.
  induction n as [|n IH]; intros w Hlen; cbn [chop]; constructor.
  - rewrite length_take. nia.
  - apply IH. rewrite length_drop. nia.
Qed.

Lemma chop_concat (n width : nat) :
  forall w, List.length w = (n * width)%nat -> concat (chop n width w) = w.
Proof.
  induction n as [|n IH]; intros w Hlen; cbn [chop concat].
  - destruct w; [reflexivity|discriminate].
  - rewrite IH by (rewrite length_drop; nia). apply take_drop.
Qed.

Lemma chop_length (n width : nat) (w : list ascii) :
  List.length (chop n width w) = n.
Proof. revert w. induction n as [|n IH]; intros w; cbn; [|rewrite IH]; reflexivity. Qed.

Lemma length_list_ascii (s : string) :
  List.length (list_ascii_of_string s) = String.length s.
Proof. induction s as [|c s IH]; cbn; [|rewrite IH]; reflexivity. Qed.

Lemma concat_strings (ls : list (list ascii)) :
  String.concat "" (map string_of_list_ascii ls) = string_of_list_ascii (concat ls).
Proof.
  assert (Happ : forall a b, string_of_list_ascii (a ++ b)
                             = (string_of_list_ascii a ++ string_of_list_ascii b)%string).
  { induction a as [|c a IH]; intros b; [reflexivity|]. cbn. now rewrite IH. }
  assert (Hnil : forall s : string, (s ++ "")%string = s).
  { induction s as [|c s IHs]; [reflexivity|].
    change (String c (s ++ "")%string = String c s). now rewrite IHs. }
  induction ls as [|l ls IH]; [reflexivity|].
  cbn [map concat]. rewrite Happ, <- IH.
  destruct ls as [|l' ls]; cbn [map String.concat]; [now rewrite Hnil|reflexivity].
Qed.

(** A description of [n] full lines without a space or a hyphen is cut
    into its [n] consecutive slices. *)
Lemma wrap_solid (text : string) (width n : nat) :
  (0 < width)%nat ->
  solid (list_ascii_of_string text) ->
  String.length text = (S n * width)%nat ->
  wrap text width
  = map string_of_list_ascii (chop (S n) width (list_ascii_of_string text)).
Proof.
  intros Hpos Hs Hlen. unfold wrap.
  rewrite (munge_solid _ Hs).
  assert (Hl : List.length (list_ascii_of_string text) = (S n * width)%nat)
    by now rewrite length_list_ascii.
  rewrite split_solid; [|assumption|].
  - rewrite (wrap_chunks_solid width Hpos n); [reflexivity|assumption|assumption|nia].
  - intros E. rewrite E in Hl. cbn in Hl. nia.
Qed.

End textwrap_facts.

(** ** Building the draft *)

Lemma add_photos_spec (cat : string) (slots : list (option loc)) :
  forall draft, add_photos cat slots draft = draft ++ entries_of cat slots.
Proof.
  unfold add_photos, entries_of.
  induction slots as [|o slots IH]; intros draft; cbn [fold_left flat_map].
  - now rewrite app_nil_r.
  - rewrite IH. destruct o; [now rewrite <- app_assoc|reflexivity].
Qed.

Lemma collect_draft_spec (photos : gmap string (list (option loc))) (cats : list string) :
  Forall (fun cat => is_Some (photos !! cat)) cats ->
  forall draft,
    collect_draft photos cats draft
    = Ok (draft ++ flat_map (fun cat => entries_of cat (default [] (photos !! cat))) cats).
Proof.
  induction 1 as [|cat cats [slots Hc] Hcats IH]; intros draft; cbn [collect_draft flat_map].
  - now rewrite app_nil_r.
  - rewrite Hc. cbn [default]. rewrite IH, add_photos_spec. now rewrite <- app_assoc.
Qed.

Lemma flat_map_by_index {A B} (f : A -> list B) (l : list A) :
  flat_map f l
  = flat_map (fun i => match l !! i with Some x => f x | None => [] end)
             (seq 0 (List.length l)).
Proof.
  induction l as [|x l IH] using rev_ind; [reflexivity|].
  rewrite flat_map_app, length_app, Nat.add_1_r, seq_S, flat_map_app.
  cbn [flat_map]. rewrite list_lookup_middle by reflexivity.
  f_equal. rewrite IH, !flat_map_concat_map. f_equal. apply map_ext_in.
  intros i Hi%in_seq. now rewrite lookup_app_l by lia.
Qed.

Lemma entries_of_slots (photos : gmap string (list (option loc))) (cat : string)
      (slots : list (option loc)) :
  photos !! cat = Some slots -> List.length slots = MAX_PHOTOS ->
  entries_of cat slots
  = flat_map (fun i => match slot photos cat i with
                       | Some img => [mkEntry true img cat]
                       | None => []
                       end) (seq 0 MAX_PHOTOS).
Proof.
  intros Hc Hlen. unfold entries_of. rewrite flat_map_by_index, Hlen.
  apply flat_map_ext. intros i. unfold slot. rewrite Hc.
  destruct (slots !! i) as [[img|]|]; reflexivity.
Qed.

Lemma initialised_present (photos : gmap string (list (option loc))) :
  initialised photos -> Forall (fun cat => is_Some (photos !! cat)) CATEGORIES.
Proof.
  intros H. eapply Forall_impl; [exact H|].
  intros cat (slots & Hc & _). now exists slots.
Qed.

Lemma entries_by_slot (photos : gmap string (list (option loc))) (cats : list string) :
  Forall (fun cat => exists slots, photos !! cat = Some slots
                                   /\ List.length slots = MAX_PHOTOS) cats ->
  flat_map (fun cat => entries_of cat (default [] (photos !! cat))) cats
  = flat_map (fun cat =>
                flat_map (fun i => match slot photos cat i with
                                   | Some img => [mkEntry true img cat]
                                   | None => []
                                   end)
                         (seq 0 MAX_PHOTOS)) cats.
Proof.
  induction 1 as [|cat cats (slots & Hc & Hlen) _ IH]; [reflexivity|].
  cbn [flat_map]. rewrite IH. f_equal.
  rewrite <- (entries_of_slots photos cat slots Hc Hlen). now rewrite Hc.
Qed.

(** The loops of the handler build the draft the specification
    describes. *)
Lemma collect_draft_refines (photos : gmap string (list (option loc))) :
  initialised photos ->
  collect_draft photos CATEGORIES [] = Ok (spec_draft photos).
Proof.
  intros Hi. rewrite collect_draft_spec by now apply initialised_present.
  cbn [app]. f_equal. now apply entries_by_slot.
Qed.

Lemma entries_of_nonempty (cat : string) (slots : list (option loc)) :
  Exists (fun o => o <> None) slots -> entries_of cat slots <> [].
Proof.
  unfold entries_of. induction 1 as [o slots Ho|o slots _ IH]; cbn [flat_map].
  - destruct o; [discriminate|congruence].
  - destruct o; [discriminate|exact IH].
Qed.

Lemma entries_of_empty (cat : string) (slots : list (option loc)) :
  Forall (fun o => o = None) slots -> entries_of cat slots = [].
Proof.
  unfold entries_of. induction 1 as [|o slots -> _ IH]; [reflexivity|exact IH].
Qed.

Lemma collect_draft_nonempty (photos : gmap string (list (option loc))) (cats : list string) :
  Forall (fun cat => is_Some (photos !! cat)) cats ->
  Exists (fun cat => exists slots, photos !! cat = Some slots
                                   /\ Exists (fun o => o <> None) slots) cats ->
  forall draft, exists e es, collect_draft photos cats draft = Ok (e :: es).
Proof.
  intros Hp Hex draft. rewrite (collect_draft_spec photos cats Hp).
  assert (Hne : flat_map (fun cat => entries_of cat (default [] (photos !! cat))) cats <> []).
  { clear Hp. induction Hex as [cat cats (slots & Hc & Hs)|cat cats _ IH]; cbn [flat_map].
    - rewrite Hc. cbn [default]. intros E%app_eq_nil. destruct E as [E _].
      now apply (entries_of_nonempty cat slots Hs).
    - intros E%app_eq_nil. now destruct E. }
  destruct (draft ++ _) as [|e es] eqn:E; [|now exists e, es].
  apply app_eq_nil in E. now destruct E.
Qed.

Lemma collect_draft_empty (photos : gmap string (list (option loc))) (cats : list string) :
  Forall (fun cat => exists slots, photos !! cat = Some slots
                                   /\ Forall (fun o => o = None) slots) cats ->
  forall draft, collect_draft photos cats draft = Ok draft.
Proof.
  induction 1 as [|cat cats (slots & Hc & Hs) _ IH]; intros draft; cbn [collect_draft].
  - reflexivity.
  - rewrite Hc, add_photos_spec, (entries_of_empty cat slots Hs), app_nil_r. apply IH.
Qed.

Lemma apply_edits_photos (edits : list (nat * bool * string)) :
  forall s, photos (apply_edits edits s) = photos s.
Proof.
  unfold apply_edits. induction edits as [|e edits IH]; intros s; [reflexivity|].
  cbn [fold_left]. now rewrite IH.
Qed.

(** ** Export *)

Lemma load_all_spec (h : heap) (ls : list loc) (vs : list Image) :
  Forall2 (fun l v => h !! l = Some v) ls vs -> load_all ls h = Ok (vs, h).
Proof.
  induction 1 as [|l v ls vs Hl _ IH]; [reflexivity|].
  cbn [load_all].
  rewrite (bind_Ok _ _ _ _ _ (load_Some _ _ _ Hl)).
  now rewrite (bind_Ok _ _ _ _ _ IH).
Qed.

Section ExportFacts.

Variable truetype_available : string -> Z -> bool.
Variable font_getbbox : Font -> string -> string -> Z * Z * Z * Z.
Variable font_getlength : Font -> string -> string -> Fixed.t.

Abbreviation page_of :=
  (fun (e : DraftEntry) (im : Image) =>
     captioned_page truetype_available font_getbbox font_getlength im (label e)).

(** The loop over the selected entries: every turn adds the copy and the
    canvas of one entry to the store and the canvas to the page list;
    objects already in the store keep their contents. *)
Lemma image_pages_spec (selected : list DraftEntry) (ims : list Image) :
  forall (h : heap) (acc : list loc) (vals : list Image),
    Forall2 (fun e im => h !! image e = Some im) selected ims ->
    Forall (fun e => multiline_check (label e) = false) selected ->
    Forall2 (fun l v => h !! l = Some v) acc vals ->
    exists acc' h',
      image_pages truetype_available font_getbbox font_getlength selected acc h
      = Ok (acc', h')
      /\ Forall2 (fun l v => h' !! l = Some v) acc'
                 (vals ++ zip_with page_of selected ims)
      /\ (forall l im, h !! l = Some im -> h' !! l = Some im).
Proof.
  revert ims. induction selected as [|e selected IH]; intros ims h acc vals Hims Hlab Hacc.
  - apply Forall2_nil_inv_l in Hims. subst ims.
    exists acc, h. cbn. rewrite app_nil_r. auto.
  - apply Forall2_cons_inv_l in Hims. destruct Hims as (im & ims' & Him & Hims & ->).
    apply Forall_cons in Hlab. destruct Hlab as [Hl Hlab].
    cbn [image_pages].
    rewrite (bind_Ok _ _ _ _ _
               (render_image_spec truetype_available font_getbbox font_getlength
                                  h (image e) im (label e) Him Hl)).
    set (h1 := h ++ [im; page_of e im]).
    assert (Hmono : forall l x, h !! l = Some x -> h1 !! l = Some x).
    { intros l x Hx. now apply lookup_app_l_Some. }
    assert (Hpage : h1 !! S (List.length h) = Some (page_of e im)).
    { subst h1. rewrite lookup_app_r by lia.
      now replace (S (List.length h) - List.length h)%nat with 1%nat by lia. }
    destruct (IH ims' h1 (acc ++ [S (List.length h)]) (vals ++ [page_of e im]))
      as (acc' & h' & Hrun & Hvals & Hmono').
    + eapply Forall2_impl; [exact Hims|]. cbn. auto.
    + exact Hlab.
    + apply Forall2_app.
      * eapply Forall2_impl; [exact Hacc|]. cbn. auto.
      * now constructor.
    + exists acc', h'. split; [exact Hrun|]. split.
      * cbn [zip_with]. now rewrite <- app_assoc in Hvals.
      * auto.
Qed.

Lemma convert_to_pdf_spec (info : ReportInfo) (s : Session) (h : heap)
      (ims : list Image) :
  Forall2 (fun e im => h !! image e = Some im) (List.filter include (draft s)) ims ->
  Forall (fun e => multiline_check (label e) = false) (List.filter include (draft s)) ->
  List.filter include (draft s) <> [] ->
  exists h',
    convert_to_pdf truetype_available font_getbbox font_getlength info s h
    = Done (mkDownload
              (mkPDF (cover_canvas truetype_available info
                        :: zip_with page_of (List.filter include (draft s)) ims)
                     300)
              "NED_FAI_Report.pdf" "application/pdf") s h'
    /\ (forall l im, h !! l = Some im -> h' !! l = Some im).
Proof.
  intros Hims Hlab Hne. unfold convert_to_pdf.
  destruct (List.filter include (draft s)) as [|e0 sel0] eqn:Esel; [congruence|].
  rewrite (bind_Ok _ _ _ _ _ (cover_page_spec truetype_available info h)).
  set (cover := cover_canvas truetype_available info).
  destruct (image_pages_spec (e0 :: sel0) ims (h ++ [cover]) [List.length h] [cover])
    as (acc' & h' & Hrun & Hvals & Hmono).
  - eapply Forall2_impl; [exact Hims|]. cbn. intros e im He.
    now apply lookup_app_l_Some.
  - exact Hlab.
  - constructor; [apply lookup_fresh|constructor].
  - rewrite (bind_Ok _ _ _ _ _ Hrun).
    cbn [app] in Hvals.
    destruct acc' as [|first others]; [inversion Hvals|].
    unfold save_pdf.
    rewrite (bind_Ok _ _ _ _ _ (load_all_spec _ _ _ Hvals)).
    exists h'. split; [reflexivity|].
    intros l im Hl. apply Hmono. now apply lookup_app_l_Some.
Qed.

End ExportFacts.

(** ** Float arithmetic: the scaled edge never exceeds the ceiling *)

Module PyFloat_facts.

Lemma digits2_pos_bounds (p : positive) :
  2 ^ (Zpos (digits2_pos p) - 1) <= Zpos p < 2 ^ Zpos (digits2_pos p).
Proof.
  induction p as [p IH|p IH|]; cbn [digits2_pos].
  - rewrite Pos2Z.inj_succ.
    replace (Z.succ (Zpos (digits2_pos p)) - 1) with (Z.succ (Zpos (digits2_pos p) - 1)) by lia.
    rewrite !Z.pow_succ_r by lia. lia.
  - rewrite Pos2Z.inj_succ.
    replace (Z.succ (Zpos (digits2_pos p)) - 1) with (Z.succ (Zpos (digits2_pos p) - 1)) by lia.
    rewrite !Z.pow_succ_r by lia. lia.
  - cbn. lia.
Qed.

Lemma Zdigits2_unique (m k : Z) :
  2 ^ (k - 1) <= m < 2 ^ k -> 0 < k -> Zdigits2 m = k.
Proof.
  intros [Hlo Hhi] Hk.
  assert (0 < m) by (pose proof (Z.pow_pos_nonneg 2 (k - 1)); lia).
  destruct m as [|p|p]; try lia. cbn [Zdigits2].
  pose proof (digits2_pos_bounds p) as [Hl Hh].
  set (d := Zpos (digits2_pos p)) in *.
  destruct (Z.lt_trichotomy d k) as [Hlt|[Heq|Hgt]]; [|exact Heq|].
  - assert (2 ^ d <= 2 ^ (k - 1)) by (apply Z.pow_le_mono_r; lia). lia.
  - assert (2 ^ k <= 2 ^ (d - 1)) by (apply Z.pow_le_mono_r; lia). lia.
Qed.

Lemma shr_1_m (r : shr_record) :
  0 <= shr_m r -> shr_m (shr_1 r) = shr_m r / 2.
Proof.
  destruct r as [m rb sb]. cbn [shr_m shr_1]. intros Hm.
  rewrite <- Z.div2_div.
  destruct m as [|[p|p|]|p]; cbn [shr_m]; try reflexivity; lia.
Qed.

Lemma iter_shr_m (p : positive) :
  forall r, 0 <= shr_m r ->
            shr_m (SpecFloat.iter_pos shr_1 p r) = shr_m r / 2 ^ Zpos p.
Proof.
  assert (Hnn : forall r, 0 <= shr_m r -> 0 <= shr_m (shr_1 r)).
  { intros r Hr. rewrite shr_1_m by exact Hr. apply Z.div_pos; lia. }
  induction p as [p IH|p IH|]; intros r Hr; cbn [SpecFloat.iter_pos].
  - assert (H1 := Hnn r Hr).
    assert (H2 : 0 <= shr_m (SpecFloat.iter_pos shr_1 p (shr_1 r))).
    { rewrite IH by exact H1. apply Z.div_pos; [exact H1|]. apply Z.pow_pos_nonneg; lia. }
    rewrite IH by exact H2. rewrite IH by exact H1. rewrite shr_1_m by exact Hr.
    rewrite !Z.div_div by (try apply Z.pow_pos_nonneg; lia).
    f_equal. change 2 with (2 ^ 1) at 1. rewrite <- !Z.pow_add_r by lia. f_equal. lia.
  - assert (H2 : 0 <= shr_m (SpecFloat.iter_pos shr_1 p r)).
    { rewrite IH by exact Hr. apply Z.div_pos; [exact Hr|]. apply Z.pow_pos_nonneg; lia. }
    rewrite IH by exact H2. rewrite IH by exact Hr.
    rewrite !Z.div_div by (try apply Z.pow_pos_nonneg; lia).
    f_equal. rewrite <- Z.pow_add_r by lia. f_equal. lia.
  - rewrite shr_1_m by exact Hr. reflexivity.
Qed.

Lemma Zdigits2_bounds (m : Z) :
  0 < m -> 2 ^ (Zdigits2 m - 1) <= m < 2 ^ Zdigits2 m.
Proof.
  destruct m as [|p|p]; try lia. intros _. apply digits2_pos_bounds.
Qed.

Lemma shr_record_of_loc_m (m : Z) (l : location) : shr_m (shr_record_of_loc m l) = m.
Proof. destruct l as [|[]]; reflexivity. Qed.

Lemma shr_fexp_spec (mx ex : Z) (lx : location) :
  0 < mx -> 53 <= Zdigits2 mx -> -1074 <= ex ->
  exists r, shr_fexp 53 1024 mx ex lx = (r, ex + (Zdigits2 mx - 53))
            /\ shr_m r = mx / 2 ^ (Zdigits2 mx - 53).
Proof.
  intros Hm Hd He. unfold shr_fexp, fexp, emin.
  replace (Z.max (Zdigits2 mx + ex - 53) (3 - 1024 - 53)) with (Zdigits2 mx + ex - 53) by lia.
  replace (Zdigits2 mx + ex - 53 - ex) with (Zdigits2 mx - 53) by lia.
  unfold shr. destruct (Zdigits2 mx - 53) as [|p|p] eqn:E; try lia.
  - eexists. split; [now rewrite Z.add_0_r|].
    rewrite shr_record_of_loc_m. cbn. now rewrite Z.div_1_r.
  - eexists. split; [reflexivity|].
    rewrite iter_shr_m by (rewrite shr_record_of_loc_m; lia).
    now rewrite shr_record_of_loc_m.
Qed.

Lemma round_nearest_even_cases (m : Z) (l : location) :
  round_nearest_even m l = m \/ round_nearest_even m l = m + 1.
Proof. destruct l as [|[]]; cbn; auto. destruct (Z.even m); auto. Qed.

Lemma round_aux_upper (mx ex : Z) (lx : location) (k : Z) :
  2 ^ 52 <= mx < 2 ^ k -> -1074 <= ex -> k + ex <= 1023 ->
  exists m e,
    binary_round_aux 53 1024 false mx ex lx = S754_finite false m e
    /\ ex <= e
    /\ 2 ^ 52 <= Zpos m < 2 ^ 53
    /\ 2 ^ 52 * (Zpos m * 2 ^ (e - ex)) <= mx * (2 ^ 52 + 1).
Proof.
  intros [Hlo Hhi] Hex Hk.
  assert (Hpos : 0 < mx) by lia.
  pose proof (Zdigits2_bounds mx Hpos) as [Hdl Hdh].
  set (d := Zdigits2 mx) in *.
  assert (Hd53 : 53 <= d).
  { destruct (Z_lt_le_dec d 53) as [Hlt|]; [|assumption].
    assert (2 ^ d <= 2 ^ 52) by (apply Z.pow_le_mono_r; lia). lia. }
  assert (Hdk : d <= k).
  { destruct (Z_lt_le_dec k d) as [Hlt|]; [|assumption].
    assert (2 ^ k <= 2 ^ (d - 1)) by (apply Z.pow_le_mono_r; lia). lia. }
  destruct (shr_fexp_spec mx ex lx Hpos Hd53 Hex) as (r & Hr & Hrm).
  fold d in Hr, Hrm.
  set (n := d - 53) in *.
  assert (Hn : 0 <= n) by lia.
  assert (Hpn : 0 < 2 ^ n) by (apply Z.pow_pos_nonneg; lia).
  assert (Hsplit : 2 ^ (d - 1) = 2 ^ 52 * 2 ^ n).
  { rewrite <- Z.pow_add_r by lia. f_equal. lia. }
  assert (Hsplit' : 2 ^ d = 2 ^ 53 * 2 ^ n).
  { rewrite <- Z.pow_add_r by lia. f_equal. lia. }
  set (q := mx / 2 ^ n) in *.
  assert (Hq : q * 2 ^ n <= mx < (q + 1) * 2 ^ n).
  { unfold q. pose proof (Z.div_mod mx (2 ^ n)). pose proof (Z.mod_pos_bound mx (2 ^ n)). nia. }
  assert (Hqb : 2 ^ 52 <= q < 2 ^ 53) by nia.
  unfold binary_round_aux. rewrite Hr, Hrm.
  set (m1 := round_nearest_even q (loc_of_shr_record r)).
  assert (Hm1 : m1 = q \/ m1 = q + 1) by apply round_nearest_even_cases.
  assert (Hm1pos : 0 < m1) by lia.
  destruct (Z_lt_le_dec m1 (2 ^ 53)) as [Hlt|Hge].
  - assert (Hd1 : Zdigits2 m1 = 53) by (apply Zdigits2_unique; lia).
    destruct (shr_fexp_spec m1 (ex + n) loc_Exact Hm1pos) as (r2 & Hr2 & Hr2m); [lia|lia|].
    rewrite Hd1 in Hr2, Hr2m. rewrite Hr2, Hr2m.
    change (53 - 53) with 0. change (2 ^ 0) with 1. rewrite Z.div_1_r, Z.add_0_r.
    destruct m1 as [|p1|p1] eqn:Em1; try lia.
    replace (ex + n <=? 1024 - 53) with true by (symmetry; apply Z.leb_le; lia).
    exists p1, (ex + n). split; [reflexivity|]. split; [lia|]. split; [lia|].
    replace (ex + n - ex) with n by lia. nia.
  - assert (Em : m1 = 2 ^ 53) by lia.
    assert (Hd1 : Zdigits2 m1 = 54) by (rewrite Em; reflexivity).
    destruct (shr_fexp_spec m1 (ex + n) loc_Exact Hm1pos) as (r2 & Hr2 & Hr2m); [lia|lia|].
    rewrite Hd1 in Hr2, Hr2m. rewrite Hr2, Hr2m, Em.
    change (2 ^ 53 / 2 ^ (54 - 53)) with (Zpos (2 ^ 52)).
    replace (ex + n + (54 - 53) <=? 1024 - 53) with true by (symmetry; apply Z.leb_le; lia).
    exists (2 ^ 52)%positive, (ex + n + (54 - 53)). split; [reflexivity|]. split; [lia|].
    split; [cbn; lia|].
    replace (ex + n + (54 - 53) - ex) with (n + 1) by lia.
    rewrite Z.pow_add_r by lia. change (2 ^ 1) with 2.
    change (Zpos (2 ^ 52)) with (2 ^ 52). nia.
Qed.

Lemma round_aux_exact (m : positive) (e : Z) :
  Zdigits2 (Zpos m) = 53 -> -1074 <= e <= 971 ->
  binary_round_aux 53 1024 false (Zpos m) e loc_Exact = S754_finite false m e.
Proof.
  intros Hd He.
  assert (Hs : shr_fexp 53 1024 (Zpos m) e loc_Exact
               = ({| shr_m := Zpos m; shr_r := false; shr_s := false |}, e)).
  { unfold shr_fexp, fexp, emin. rewrite Hd.
    replace (Z.max (53 + e - 53) (3 - 1024 - 53) - e) with 0 by lia. reflexivity. }
  unfold binary_round_aux. rewrite Hs. cbn [shr_m loc_of_shr_record round_nearest_even].
  rewrite Hs. cbn [shr_m].
  now replace (e <=? 1024 - 53) with true by (symmetry; apply Z.leb_le; lia).
Qed.

Lemma iter_xO (k p : positive) : Zpos (Pos.iter xO p k) = Zpos p * 2 ^ Zpos k.
Proof.
  induction k as [|k IH] using Pos.peano_ind.
  - cbn. lia.
  - rewrite Pos.iter_succ, Pos2Z.inj_xO, IH, Pos2Z.inj_succ, Z.pow_succ_r by lia. ring.
Qed.

(** [float(n)] is exact and normalised below [2^53]. *)
Lemma of_int_pos (n : Z) :
  0 < n < 2 ^ 53 ->
  exists m e,
    PyFloat.of_int n = S754_finite false m e
    /\ 2 ^ 52 <= Zpos m < 2 ^ 53
    /\ -52 <= e <= 0
    /\ Zpos m = n * 2 ^ (- e).
Proof.
  intros [Hlo Hhi]. destruct n as [|p|p]; try lia.
  unfold PyFloat.of_int, binary_normalize, binary_round, PyFloat.prec, PyFloat.emax.
  pose proof (digits2_pos_bounds p) as [Hdl Hdh].
  set (d := Zpos (digits2_pos p)) in *.
  assert (Hd : 1 <= d <= 53).
  { split; [unfold d; lia|].
    destruct (Z_lt_le_dec 53 d) as [Hlt|]; [|assumption].
    assert (2 ^ 53 <= 2 ^ (d - 1)) by (apply Z.pow_le_mono_r; lia). lia. }
  unfold fexp, emin.
  replace (Z.max (d + 0 - 53) (3 - 1024 - 53)) with (d - 53) by lia.
  unfold shl_align.
  destruct (d - 53 - 0) as [|k|k] eqn:Ek; try lia.
  - assert (d = 53) by lia.
    rewrite round_aux_exact; [|cbn [Zdigits2]; fold d; lia|lia].
    exists p, 0. split; [reflexivity|]. split; [subst d; rewrite H in *; lia|].
    split; [lia|]. cbn. lia.
  - assert (Hk : Zpos k = 53 - d) by lia.
    assert (Hv : Zpos (Pos.iter xO p k) = Zpos p * 2 ^ (53 - d)) by (rewrite iter_xO; now rewrite Hk).
    assert (Hp2 : 2 ^ d * 2 ^ (53 - d) = 2 ^ 53) by (rewrite <- Z.pow_add_r by lia; f_equal; lia).
    assert (Hp3 : 2 ^ (d - 1) * 2 ^ (53 - d) = 2 ^ 52) by (rewrite <- Z.pow_add_r by lia; f_equal; lia).
    assert (H0 : 0 < 2 ^ (53 - d)) by (apply Z.pow_pos_nonneg; lia).
    assert (Hb : 2 ^ 52 <= Zpos (Pos.iter xO p k) < 2 ^ 53) by (rewrite Hv; nia).
    rewrite round_aux_exact; [| apply Zdigits2_unique; [exact Hb|lia] | lia].
    exists (Pos.iter xO p k), (d - 53). split; [reflexivity|]. split; [exact Hb|].
    split; [lia|]. rewrite Hv. f_equal. f_equal. lia.
Qed.

Lemma div_upper (m1 m2 : positive) (e1 e2 : Z) :
  2 ^ 52 <= Zpos m1 < 2 ^ 53 -> 2 ^ 52 <= Zpos m2 < 2 ^ 53 ->
  -52 <= e1 <= 0 -> -52 <= e2 <= 0 ->
  exists m e,
    PyFloat.div (S754_finite false m1 e1) (S754_finite false m2 e2)
    = S754_finite false m e
    /\ e1 - e2 - 53 <= e
    /\ 2 ^ 52 <= Zpos m < 2 ^ 53
    /\ 2 ^ 52 * (Zpos m * 2 ^ (e - (e1 - e2 - 53))) * Zpos m2
       <= Zpos m1 * 2 ^ 53 * (2 ^ 52 + 1).
Proof.
  intros H1 H2 He1 He2.
  unfold PyFloat.div, SFdiv, SFdiv_core_binary, PyFloat.prec, PyFloat.emax.
  rewrite (Zdigits2_unique (Zpos m1) 53) by lia.
  rewrite (Zdigits2_unique (Zpos m2) 53) by lia.
  unfold fexp, emin.
  replace (Z.min (Z.max (53 + e1 - (53 + e2) - 53) (3 - 1024 - 53)) (e1 - e2))
    with (e1 - e2 - 53) by lia.
  replace (e1 - e2 - (e1 - e2 - 53)) with 53 by lia.
  rewrite Z.shiftl_mul_pow2 by lia.
  destruct (Z.div_eucl (Zpos m1 * 2 ^ 53) (Zpos m2)) as [q r] eqn:E.
  assert (Hq : q = Zpos m1 * 2 ^ 53 / Zpos m2) by (unfold Z.div; now rewrite E).
  assert (Hqm : q * Zpos m2 <= Zpos m1 * 2 ^ 53 < (q + 1) * Zpos m2).
  { pose proof (Z.div_mod (Zpos m1 * 2 ^ 53) (Zpos m2)).
    pose proof (Z.mod_pos_bound (Zpos m1 * 2 ^ 53) (Zpos m2)). nia. }
  assert (Hqb : 2 ^ 52 <= q < 2 ^ 54) by nia.
  cbn [xorb].
  destruct (round_aux_upper q (e1 - e2 - 53) (new_location (Zpos m2) r) 54 Hqb)
    as (m & e & Hr & He & Hm & Hb); [lia|lia|].
  exists m, e. split; [exact Hr|]. split; [exact He|]. split; [exact Hm|].
  assert (0 < 2 ^ (e - (e1 - e2 - 53))) by (apply Z.pow_pos_nonneg; lia).
  nia.
Qed.

Lemma mul_upper (m1 m2 : positive) (e1 e2 : Z) :
  2 ^ 52 <= Zpos m1 < 2 ^ 53 -> 2 ^ 52 <= Zpos m2 < 2 ^ 53 ->
  -200 <= e1 <= 0 -> -200 <= e2 <= 0 ->
  exists m e,
    PyFloat.mul (S754_finite false m1 e1) (S754_finite false m2 e2)
    = S754_finite false m e
    /\ e1 + e2 <= e
    /\ 2 ^ 52 <= Zpos m < 2 ^ 53
    /\ 2 ^ 52 * (Zpos m * 2 ^ (e - (e1 + e2))) <= Zpos m1 * Zpos m2 * (2 ^ 52 + 1).
Proof.
  intros H1 H2 He1 He2.
  unfold PyFloat.mul, SFmul, PyFloat.prec, PyFloat.emax. cbn [xorb].
  assert (Hb : 2 ^ 52 <= Zpos (m1 * m2) < 2 ^ 106).
  { rewrite Pos2Z.inj_mul. change (2 ^ 106) with (2 ^ 53 * 2 ^ 53). nia. }
  destruct (round_aux_upper (Zpos (m1 * m2)) (e1 + e2) loc_Exact 106 Hb)
    as (m & e & Hr & He & Hm & Hbd); [lia|lia|].
  exists m, e. rewrite Pos2Z.inj_mul in Hbd. auto.
Qed.

Lemma chain_arith (K K2 mp ms Pt Pu Pa Pb Pc w L M : Z) :
  0 < K -> 0 < K2 -> 0 < mp -> 0 < ms -> 0 < Pt -> 0 < Pu -> 0 < Pa -> 0 < Pb -> 0 < Pc ->
  0 < w -> w <= L -> 0 < M ->
  K * (mp * Pu) <= w * Pb * ms * (K + 1) ->
  K * (ms * Pt) * (L * Pa) <= M * Pc * K2 * (K + 1) ->
  K * K * (mp * (Pt * Pu * Pa)) <= (K + 1) * (K + 1) * M * (Pb * Pc * K2).
Proof.
  intros HK HK2 Hmp Hms HPt HPu HPa HPb HPc Hw HwL HM Hbp Hbs.
  assert (HL : 0 < L) by lia.
  apply (Z.mul_le_mono_pos_l _ _ L HL).
  assert (S1 : (K * (mp * Pu)) * (K * Pt * (L * Pa))
               <= (w * Pb * ms * (K + 1)) * (K * Pt * (L * Pa))).
  { apply Z.mul_le_mono_nonneg_r; [|exact Hbp].
    apply Z.mul_nonneg_nonneg; [apply Z.mul_nonneg_nonneg; lia|].
    apply Z.mul_nonneg_nonneg; lia. }
  assert (S2 : w * (Pb * (K + 1) * (K * (ms * Pt) * (L * Pa)))
               <= w * (Pb * (K + 1) * (M * Pc * K2 * (K + 1)))).
  { apply Z.mul_le_mono_nonneg_l; [lia|].
    apply Z.mul_le_mono_nonneg_l; [|exact Hbs].
    apply Z.mul_nonneg_nonneg; lia. }
  assert (S3 : w * (Pb * (K + 1) * (M * Pc * K2 * (K + 1)))
               <= L * (Pb * (K + 1) * (M * Pc * K2 * (K + 1)))).
  { apply Z.mul_le_mono_nonneg_r; [|exact HwL].
    repeat apply Z.mul_nonneg_nonneg; lia. }
  replace (L * (K * K * (mp * (Pt * Pu * Pa))))
    with (K * (mp * Pu) * (K * Pt * (L * Pa))) by ring.
  eapply Z.le_trans; [exact S1|].
  replace (w * Pb * ms * (K + 1) * (K * Pt * (L * Pa)))
    with (w * (Pb * (K + 1) * (K * (ms * Pt) * (L * Pa)))) by ring.
  eapply Z.le_trans; [exact S2|].
  eapply Z.le_trans; [exact S3|]. apply Z.eq_le_incl. ring.
Qed.

(** The truncated product [int(w * (M / L))] never exceeds [M] when
    [w <= L]. *)
Lemma scaled_edge_le (M L w : Z) :
  0 < M -> M < L -> L < 2 ^ 31 -> 0 <= w <= L ->
  exists w',
    PyFloat.int (PyFloat.int_mul w (PyFloat.div (PyFloat.of_int M) (PyFloat.of_int L)))
    = Ok w'
    /\ 0 <= w' <= M.
Proof.
  intros HM HML HL Hw.
  assert (H31 : 2 ^ 31 < 2 ^ 53) by (apply Z.pow_lt_mono_r; lia).
  destruct (of_int_pos M) as (mM & eM & EM & HmM & HeM & HvM); [lia|].
  destruct (of_int_pos L) as (mL & eL & EL & HmL & HeL & HvL); [lia|].
  rewrite EM, EL.
  destruct (div_upper mM mL eM eL HmM HmL HeM HeL) as (ms & es & Es & Hes & Hms & Hbs).
  rewrite Es. unfold PyFloat.int_mul.
  destruct (Z.eq_dec w 0) as [->|Hw0].
  { exists 0. split; [reflexivity|lia]. }
  destruct (of_int_pos w) as (mw & ew & Ew & Hmw & Hew & Hvw); [lia|].
  rewrite Ew.
  assert (Hes' : es <= 0).
  { destruct (Z_lt_le_dec 0 es) as [Hlt|]; [|assumption]. exfalso.
    assert (Hsum : 2 ^ (es - (eM - eL - 53)) * 2 ^ (- eL) = 2 ^ es * 2 ^ (- eM) * 2 ^ 53).
    { rewrite <- !Z.pow_add_r by lia. f_equal. lia. }
    assert (P1 : 0 < 2 ^ (- eM)) by (apply Z.pow_pos_nonneg; lia).
    assert (P2 : 1 <= 2 ^ es) by (pose proof (Z.pow_pos_nonneg 2 es); lia).
    rewrite HvL, HvM in Hbs.
    assert (Hbs' : 2 ^ 52 * Zpos ms * L * (2 ^ es * 2 ^ (- eM) * 2 ^ 53)
                   <= M * (2 ^ 52 + 1) * (2 ^ (- eM) * 2 ^ 53)).
    { rewrite <- Hsum. lia. }
    assert (Hc : 2 ^ 52 * Zpos ms * L * 2 ^ es <= M * (2 ^ 52 + 1)).
    { apply (Z.mul_le_mono_pos_r _ _ (2 ^ (- eM) * 2 ^ 53)); [nia|]. lia. }
    assert (2 ^ 52 * Zpos ms * L <= 2 ^ 52 * Zpos ms * L * 2 ^ es) by nia.
    assert (M * (2 ^ 52 + 1) < L * (2 ^ 52 + 1)) by nia.
    assert (L * (2 ^ 52 + 1) <= L * (2 ^ 52 * Zpos ms)) by nia.
    lia. }
  destruct (mul_upper mw ms ew es Hmw Hms) as (mp & ep & Ep & Hep & Hmp & Hbp); [lia|lia|].
  rewrite Ep.
  set (t := es - (eM - eL - 53)) in *.
  set (u := ep - (ew + es)) in *.
  set (a := - eL) in *. set (b := - ew) in *. set (c := - eM) in *.
  assert (Ht : 0 <= t) by (unfold t; lia).
  assert (Hu : 0 <= u) by (unfold u; lia).
  set (X := t + u + a). set (Y := b + c + 53).
  assert (Hep' : - ep = Y - X) by (unfold X, Y, t, u, a, b, c; lia).
  assert (PX : 2 ^ X = 2 ^ t * 2 ^ u * 2 ^ a)
    by (unfold X; rewrite !Z.pow_add_r by (unfold a; lia); reflexivity).
  assert (PY : 2 ^ Y = 2 ^ b * 2 ^ c * 2 ^ 53)
    by (unfold Y; rewrite !Z.pow_add_r by (unfold b, c; lia); reflexivity).
  assert (Pt : 0 < 2 ^ t) by (apply Z.pow_pos_nonneg; lia).
  assert (Pu : 0 < 2 ^ u) by (apply Z.pow_pos_nonneg; lia).
  assert (Pa : 0 < 2 ^ a) by (apply Z.pow_pos_nonneg; unfold a; lia).
  assert (Pb : 0 < 2 ^ b) by (apply Z.pow_pos_nonneg; unfold b; lia).
  assert (Pc : 0 < 2 ^ c) by (apply Z.pow_pos_nonneg; unfold c; lia).
  (* the two rounding bounds, chained *)
  assert (Hcancel : 2 ^ 52 * 2 ^ 52 * (Zpos mp * 2 ^ X)
                    <= (2 ^ 52 + 1) * (2 ^ 52 + 1) * M * 2 ^ Y).
  { rewrite PX, PY. rewrite HvL, HvM in Hbs. rewrite Hvw in Hbp.
    apply (chain_arith (2 ^ 52) (2 ^ 53) (Zpos mp) (Zpos ms) (2 ^ t) (2 ^ u) (2 ^ a)
                       (2 ^ b) (2 ^ c) w L M); try assumption; try lia. }
  assert (PYpos : 0 < 2 ^ Y) by (rewrite PY; nia).
  assert (PXpos : 0 < 2 ^ X) by (rewrite PX; nia).
  assert (Hnum : (2 ^ 52 + 1) * (2 ^ 52 + 1) * M < (M + 1) * (2 ^ 52 * 2 ^ 52)).
  { assert (M < 2 ^ 31) by lia. change (2 ^ 31) with 2147483648 in *.
    change (2 ^ 52) with 4503599627370496. lia. }
  assert (Hlt : Zpos mp * 2 ^ X < (M + 1) * 2 ^ Y).
  { assert (H1 : (2 ^ 52 + 1) * (2 ^ 52 + 1) * M * 2 ^ Y < (M + 1) * (2 ^ 52 * 2 ^ 52) * 2 ^ Y)
      by (apply Z.mul_lt_mono_pos_r; assumption).
    apply (Z.mul_lt_mono_pos_l (2 ^ 52 * 2 ^ 52)); [lia|].
    eapply Z.le_lt_trans; [exact Hcancel|].
    eapply Z.lt_le_trans; [exact H1|]. apply Z.eq_le_incl. ring. }
  assert (HXY : X < Y).
  { destruct (Z_lt_le_dec X Y) as [|Hge]; [assumption|]. exfalso.
    assert (HYX : 2 ^ Y <= 2 ^ X) by (apply Z.pow_le_mono_r; lia).
    assert (HM52 : M + 1 <= 2 ^ 52)
      by (change (2 ^ 52) with 4503599627370496; change (2 ^ 31) with 2147483648 in *; lia).
    assert ((M + 1) * 2 ^ Y <= Zpos mp * 2 ^ X).
    { apply Z.mul_le_mono_nonneg; lia. }
    lia. }
  assert (HX0 : 0 <= X) by (unfold X, a; lia).
  assert (Hdiff : 2 ^ Y = 2 ^ (Y - X) * 2 ^ X)
    by (rewrite <- Z.pow_add_r by lia; f_equal; lia).
  assert (Hmp' : Zpos mp < (M + 1) * 2 ^ (Y - X)).
  { rewrite Hdiff, Z.mul_assoc in Hlt.
    now apply Z.mul_lt_mono_pos_r in Hlt. }
  unfold PyFloat.int.
  destruct ep as [|pe|pe]; try lia.
  rewrite Z.shiftr_div_pow2 by lia.
  change (Zpos pe) with (- Zneg pe). rewrite Hep'.
  eexists. split; [reflexivity|].
  assert (0 < 2 ^ (Y - X)) by (apply Z.pow_pos_nonneg; lia).
  split; [apply Z.div_pos; lia|].
  assert (Zpos mp / 2 ^ (Y - X) < M + 1) by (apply Z.div_lt_upper_bound; lia).
  lia.
Qed.

End PyFloat_facts.

(** ** Image optimization *)

Lemma exif_transpose_spec (h : heap) (l : loc) (im : Image) :
  h !! l = Some im -> exif_transpose l h = Ok (List.length h, h ++ [oriented im]).
Proof.
  intros E. unfold exif_transpose, oriented.
  rewrite (bind_Ok _ _ _ _ _ (load_Some _ _ _ E)).
  now destruct (exif_method (orientation im)).
Qed.

Lemma Image_convert_spec (h : heap) (l : loc) (im : Image) :
  h !! l = Some im -> Image_convert l "RGB" h = Ok (List.length h, h ++ [to_rgb im]).
Proof.
  intros E. unfold Image_convert, to_rgb.
  rewrite (bind_Ok _ _ _ _ _ (load_Some _ _ _ E)).
  now destruct (decide (mode im = "RGB")).
Qed.

Lemma lift_Ok {A} (r : result A) (a : A) (h : heap) : r = Ok a -> lift r h = Ok (a, h).
Proof. now intros ->. Qed.

Lemma lift_Raise {A B} (r : result A) (e : exn) (k : A -> PIL B) (h : heap) :
  r = Raise e -> (lift r ≫= k) h = Raise e.
Proof. now intros ->. Qed.

Lemma scaled_edge_Ok (max_size long_edge n v : Z) :
  scaled_edge max_size long_edge n = Ok v ->
  exists scale, PyFloat.truediv max_size long_edge = Ok scale
                /\ PyFloat.int (PyFloat.int_mul n scale) = Ok v.
Proof.
  unfold scaled_edge. destruct (PyFloat.truediv max_size long_edge) as [scale|e];
    [|discriminate]. intros E. now exists scale.
Qed.

(** Small images keep their (oriented) size. *)
Lemma optimize_image_small (h : heap) (l : loc) (im : Image) :
  h !! l = Some im ->
  Z.max (width (oriented im)) (height (oriented im)) <= 3000 ->
  optimize_image l h
  = Ok ((S (List.length h), 95), h ++ [oriented im; to_rgb (oriented im)]).
Proof.
  intros E Hsmall. unfold optimize_image, optimize_image_with.
  rewrite (bind_Ok _ _ _ _ _ (exif_transpose_spec _ _ _ E)).
  rewrite (bind_Ok _ _ _ _ _ (load_Some _ _ _ (lookup_fresh h _))).
  cbn [size].
  replace (Z.max (width (oriented im)) (height (oriented im)) >? 3000) with false
    by (symmetry; rewrite Z.gtb_ltb; apply Z.ltb_ge; exact Hsmall).
  erewrite bind_Ok by reflexivity.
  rewrite (bind_Ok _ _ _ _ _ (Image_convert_spec _ _ _ (lookup_fresh h _))).
  unfold mret, PIL_ret. rewrite length_app, Nat.add_1_r, <- app_assoc. reflexivity.
Qed.

(** Large images are resampled to the two scaled edges, unless one of them
    is truncated to zero. *)
Lemma optimize_image_large (h : heap) (l : loc) (im : Image) (w' h' : Z) :
  h !! l = Some im ->
  let o := oriented im in
  let long_edge := Z.max (width o) (height o) in
  3000 < long_edge ->
  scaled_edge 3000 long_edge (width o) = Ok w' ->
  scaled_edge 3000 long_edge (height o) = Ok h' ->
  size o <> (w', h') ->
  optimize_image l h
  = if (w' <? 1) || (h' <? 1) then Raise ValueError
    else Ok ((S (S (List.length h)), 95),
             h ++ [o; resized (w', h') o; to_rgb (resized (w', h') o)]).
Proof.
  intros E o long_edge Hlarge Hw Hh Hne.
  unfold optimize_image, optimize_image_with.
  rewrite (bind_Ok _ _ _ _ _ (exif_transpose_spec _ _ _ E)). fold o.
  rewrite (bind_Ok _ _ _ _ _ (load_Some _ _ _ (lookup_fresh h _))).
  cbn [size]. fold long_edge.
  replace (long_edge >? 3000) with true
    by (symmetry; rewrite Z.gtb_ltb; apply Z.ltb_lt; exact Hlarge).
  destruct (scaled_edge_Ok _ _ _ _ Hw) as (scale & Hs & Hw').
  destruct (scaled_edge_Ok _ _ _ _ Hh) as (scale' & Hs' & Hh').
  assert (scale' = scale) by congruence. subst scale'.
  unfold mbind at 1. unfold PIL_bind at 1.
  match goal with
  | |- context [match ?m (h ++ [o]) with _ => _ end] => set (resize := m)
  end.
  assert (Hresize : resize (h ++ [o])
                    = if (w' <? 1) || (h' <? 1) then Raise ValueError
                      else Ok (S (List.length h), h ++ [o; resized (w', h') o])).
  { subst resize.
    rewrite (bind_Ok _ _ _ _ _ (lift_Ok _ _ _ Hs)).
    rewrite (bind_Ok _ _ _ _ _ (lift_Ok _ _ _ Hw')).
    rewrite (bind_Ok _ _ _ _ _ (lift_Ok _ _ _ Hh')).
    unfold Image_resize.
    rewrite (bind_Ok _ _ _ _ _ (load_Some _ _ _ (lookup_fresh h _))).
    destruct (decide (size o = (w', h'))) as [Heq|_]; [contradiction|].
    cbn [fst snd]. destruct ((w' <? 1) || (h' <? 1)); [reflexivity|].
    unfold alloc, resized. rewrite length_app, Nat.add_1_r, <- app_assoc. reflexivity. }
  rewrite Hresize.
  destruct ((w' <? 1) || (h' <? 1)); [reflexivity|].
  assert (Hl : (h ++ [o; resized (w', h') o]) !! S (List.length h)
               = Some (resized (w', h') o)).
  { rewrite lookup_app_r by lia.
    now replace (S (List.length h) - List.length h)%nat with 1%nat by lia. }
  rewrite (bind_Ok _ _ _ _ _ (Image_convert_spec _ _ _ Hl)).
  unfold mret, PIL_ret. rewrite length_app. cbn [List.length].
  rewrite Nat.add_comm, <- app_assoc. reflexivity.
Qed.

Lemma oriented_size (im : Image) :
  size (oriented im) = size im \/ size (oriented im) = (height im, width im).
Proof.
  unfold oriented. destruct (exif_method (orientation im)) as [t|]; [|now left].
  unfold size. cbn. destruct (swaps_axes t); auto.
Qed.

Lemma oriented_settled (im : Image) : exif_method (orientation (oriented im)) = None.
Proof.
  unfold oriented. destruct (exif_method (orientation im)) eqn:E; [reflexivity|exact E].
Qed.

Lemma to_rgb_mode (im : Image) : mode (to_rgb im) = "RGB".
Proof. unfold to_rgb. now destruct (decide (mode im = "RGB")). Qed.

Lemma to_rgb_size (im : Image) : size (to_rgb im) = size im.
Proof. unfold to_rgb. now destruct (decide (mode im = "RGB")). Qed.

Lemma to_rgb_orientation (im : Image) : orientation (to_rgb im) = orientation im.
Proof. unfold to_rgb. now destruct (decide (mode im = "RGB")). Qed.

Lemma to_rgb_idem (im : Image) : to_rgb (to_rgb im) = to_rgb im.
Proof.
  unfold to_rgb at 1. rewrite to_rgb_mode. now destruct (decide ("RGB" = "RGB")).
Qed.

(** Both scaled edges of a large image are computed, and neither exceeds
    the ceiling. *)
Lemma scaled_edges_bounded (w h : Z) :
  0 <= w < 2 ^ 31 -> 0 <= h < 2 ^ 31 -> 3000 < Z.max w h ->
  exists w' h',
    scaled_edge 3000 (Z.max w h) w = Ok w'
    /\ scaled_edge 3000 (Z.max w h) h = Ok h'
    /\ 0 <= w' <= 3000 /\ 0 <= h' <= 3000.
Proof.
  intros Hw Hh Hlarge.
  destruct (PyFloat_facts.scaled_edge_le 3000 (Z.max w h) w) as (w' & Ew & Hw'); try lia.
  destruct (PyFloat_facts.scaled_edge_le 3000 (Z.max w h) h) as (h' & Eh & Hh'); try lia.
  exists w', h'. unfold scaled_edge, PyFloat.truediv.
  replace (Z.max w h =? 0) with false by (symmetry; apply Z.eqb_neq; lia).
  auto.
Qed.

(** * The claims *)

(** ** Captioned pages *)

Section RenderClaims.

Variable truetype_available : string -> Z -> bool.
Variable font_getbbox : Font -> string -> string -> Z * Z * Z * Z.
Variable font_getlength : Font -> string -> string -> Fixed.t.

Abbreviation render := (render_image truetype_available font_getbbox font_getlength).
Abbreviation bar := (bar_height truetype_available font_getbbox "RGB").
Abbreviation th := (text_height font_getbbox "RGB").
Abbreviation font_of := (load_font truetype_available).

(** C4, amended: on a prepared (RGB) image and a label of a single line
    (one that holds no line feed), with bounding boxes whose bottom is not
    above their top, [render_image] returns a canvas as wide as the image
    and higher by the bar height; the bar height is the label text height
    plus the footer text height plus twice the padding plus the gap, it
    does not depend on the image, and it is strictly positive. *)
Theorem C4_render_image_canvas_size (h : heap) (l : loc) (im : Image) (label : string) :
  h !! l = Some im ->
  mode im = "RGB" ->
  multiline_check label = false ->
  (forall font fm text, bbox_ordered (font_getbbox font fm text)) ->
  exists canvas h' page,
    render l label h = Ok (canvas, h')
    /\ h' !! canvas = Some page
    /\ width page = width im
    /\ height page = height im + bar label
    /\ bar label = th label (font_of 32) + th FOOTER_TEXT (font_of 20) + 2 * 20 + 10
    /\ 0 < bar label.
Proof.
  intros Hl Hm Hs Hbb.
  exists (S (List.length h)), (h ++ [im; captioned_page truetype_available font_getbbox font_getlength im label]), (captioned_page truetype_available font_getbbox font_getlength im label).
  split; [now apply render_image_spec|].
  split.
  { rewrite lookup_app_r by lia.
    now replace (S (List.length h) - List.length h)%nat with 1%nat by lia. }
  split; [reflexivity|].
  split; [cbn; now rewrite Hm|].
  split; [unfold bar_height; lia|].
  assert (Hth : forall text font, 0 <= th text font).
  { intros text font. unfold text_height.
    pose proof (Hbb font (fontmode_of "RGB") text) as Hb. unfold bbox_ordered in Hb.
    destruct (font_getbbox font (fontmode_of "RGB") text) as [[[x0 y0] x1] y1].
    cbn in Hb. lia. }
  unfold bar_height.
  pose proof (Hth label (font_of 32)). pose proof (Hth FOOTER_TEXT (font_of 20)). lia.
Qed.

(** C9: [render_image] does not change its argument: after it returns,
    the input image, like every object that was in the store, has the
    mode, dimensions and pixels it had before; the canvas is a new
    object. *)
Theorem C9_render_image_keeps_input (h : heap) (l : loc) (im : Image) (label : string) :
  h !! l = Some im ->
  multiline_check label = false ->
  exists canvas h',
    render l label h = Ok (canvas, h')
    /\ h' !! l = Some im
    /\ canvas <> l
    /\ h !! canvas = None
    /\ (forall l' x, h !! l' = Some x -> h' !! l' = Some x).
Proof.
  intros Hl Hs.
  exists (S (List.length h)), (h ++ [im; captioned_page truetype_available font_getbbox font_getlength im label]).
  split; [now apply render_image_spec|].
  pose proof (lookup_lt_Some _ _ _ Hl) as Hlt.
  split; [now apply lookup_app_l_Some|].
  split; [lia|].
  split; [apply lookup_ge_None; lia|].
  intros l' x Hx. now apply lookup_app_l_Some.
Qed.


End RenderClaims.

(** C4, as stated, fails: the label may be any string, and for a label
    that holds a line feed Pillow refuses to measure the text
    ([d.textlength]), so [render_image] raises [ValueError] instead of
    returning a canvas. *)
Lemma C4_counterexample :
  sample_heap !! 0%nat = Some (photo 0 640 480)
  /\ mode (photo 0 640 480) = "RGB"
  /\ (forall font fm text, bbox_ordered (sample_bbox font fm text))
  /\ render_image no_truetype sample_bbox sample_length 0%nat
                  ("CPU" +:+ String LF "Front") sample_heap
     = Raise ValueError
  /\ ~ (forall (truetype_available : string -> Z -> bool)
               (font_getbbox : Font -> string -> string -> Z * Z * Z * Z)
               (font_getlength : Font -> string -> string -> Fixed.t)
               (h : heap) (l : loc) (im : Image) (label : string),
           h !! l = Some im ->
           mode im = "RGB" ->
           (forall font fm text, bbox_ordered (font_getbbox font fm text)) ->
           exists canvas h' page,
             render_image truetype_available font_getbbox font_getlength l label h
             = Ok (canvas, h')
             /\ h' !! canvas = Some page
             /\ width page = width im
             /\ height page
                = height im + bar_height truetype_available font_getbbox "RGB" label
             /\ 0 < bar_height truetype_available font_getbbox "RGB" label).
Proof.
  assert (Hbb : forall font fm text, bbox_ordered (sample_bbox font fm text)).
  { intros font fm text. unfold bbox_ordered, sample_bbox. simpl. lia. }
  assert (Hrun : render_image no_truetype sample_bbox sample_length 0%nat
                              ("CPU" +:+ String LF "Front") sample_heap
                 = Raise ValueError)
    by (vm_compute; reflexivity).
  split; [reflexivity|]. split; [reflexivity|]. split; [exact Hbb|].
  split; [exact Hrun|].
  intros H.
  destruct (H no_truetype sample_bbox sample_length sample_heap 0%nat (photo 0 640 480)
              ("CPU" +:+ String LF "Front") eq_refl eq_refl Hbb)
    as (canvas & h' & page & Hok & _).
  rewrite Hrun in Hok. discriminate Hok.
Qed.

(** Witness of C4: the CPU photo of the sample store, captioned. *)
Lemma C4_witness :
  exists canvas h' page,
    render_image no_truetype sample_bbox sample_length 0%nat "CPU" sample_heap
    = Ok (canvas, h')
    /\ h' !! canvas = Some page
    /\ width page = 640
    /\ height page = 480 + 68.
Proof.
  destruct (C4_render_image_canvas_size no_truetype sample_bbox sample_length
              sample_heap 0%nat (photo 0 640 480) "CPU")
    as (canvas & h' & page & Hrun & Hpage & Hw & Hh & _).
  - reflexivity.
  - reflexivity.
  - reflexivity.
  - intros font fm text. unfold bbox_ordered, sample_bbox. simpl. lia.
  - exists canvas, h', page. repeat split; assumption.
Defined.

(** Witness of C9. *)
Lemma C9_witness :
  exists canvas h',
    render_image no_truetype sample_bbox sample_length 0%nat "CPU" sample_heap
    = Ok (canvas, h')
    /\ h' !! 0%nat = Some (photo 0 640 480)
    /\ canvas <> 0%nat.
Proof.
  destruct (C9_render_image_keeps_input no_truetype sample_bbox sample_length
              sample_heap 0%nat (photo 0 640 480) "CPU")
    as (canvas & h' & Hrun & Hsame & Hnew & _).
  - reflexivity.
  - reflexivity.
  - exists canvas, h'. repeat split; assumption.
Defined.


(** ** The cover page *)

(** C8: whatever the report information holds, the cover block returns a
    canvas 1020 pixels wide and 850 pixels high. *)
Theorem C8_cover_has_constant_size (truetype_available : string -> Z -> bool)
        (info : ReportInfo) (h : heap) :
  exists cover h' page,
    cover_page truetype_available info h = Ok (cover, h')
    /\ h' !! cover = Some page
    /\ width page = 1020
    /\ height page = 850.
Proof.
  exists (List.length h), (h ++ [cover_canvas truetype_available info]),
    (cover_canvas truetype_available info).
  split; [apply cover_page_spec|].
  split; [apply lookup_fresh|].
  split; reflexivity.
Qed.

(** C5, as stated, fails: a description of 300 characters made of six
    words (five of 50 letters and one of 45) is wrapped into six lines, not
    five. *)
Lemma C5_counterexample :
  String.length prose = 300%nat
  /\ List.length (textwrap.wrap prose 60) = 6%nat
  /\ ~ (forall d : string, String.length d = 300%nat ->
                           List.length (textwrap.wrap d 60) = 5%nat).
Proof.
  assert (H300 : String.length prose = 300%nat) by (vm_compute; reflexivity).
  assert (H6 : List.length (textwrap.wrap prose 60) = 6%nat) by (vm_compute; reflexivity).
  split; [exact H300|]. split; [exact H6|].
  intros H. specialize (H prose H300). rewrite H6 in H. discriminate.
Qed.

(** C5, amended: the wrapped lines of any description are drawn below one
    another, the i-th at the offset 225 + 34 i, between the two headings
    and the four fields; a description of exactly 300 characters without
    white space or hyphen is wrapped into exactly five lines, its five
    slices of 60 characters; an empty description is wrapped into no line
    at all. *)
Theorem C5_cover_description_lines (truetype_available : string -> Z -> bool)
        (info : ReportInfo) (h : heap) :
  let lines := textwrap.wrap (description info) 60 in
  let y := 225 + 34 * Z.of_nat (List.length lines) + 30 in
  (exists cover h' page,
      cover_page truetype_available info h = Ok (cover, h')
      /\ h' !! cover = Some page
      /\ letterings (pixels page)
         = [((510, 90), "NED FAI REPORT"); ((60, 180), "Description:")]
           ++ imap (fun i line => ((80, 225 + 34 * Z.of_nat i), line)) lines
           ++ [((60, y), "KMATX Part Number : " +:+ kmatx_part_number info);
               ((60, y + 50), "HALBX Part Number : " +:+ halbX_part_number info);
               ((60, y + 100), "Sales Order : " +:+ sales_order info);
               ((60, y + 150), "Date : " +:+ strftime_d_b_Y (report_date info));
               ((510, 815), FOOTER_TEXT)])
  /\ (String.length (description info) = 300%nat ->
      textwrap.solid (list_ascii_of_string (description info)) ->
      List.length lines = 5%nat
      /\ Forall (fun line => String.length line = 60%nat) lines
      /\ String.concat "" lines = description info)
  /\ (description info = "" -> lines = []).
Proof.
  intros lines y. split; [|split].
  - exists (List.length h), (h ++ [cover_canvas truetype_available info]),
      (cover_canvas truetype_available info).
    split; [apply cover_page_spec|]. split; [apply lookup_fresh|].
    unfold cover_canvas. cbn [pixels letterings].
    rewrite letterings_with_lines. cbn [letterings app]. fold lines.
    rewrite <- !app_assoc. cbn [app].
    change (COVER_WIDTH / 2) with 510. change (COVER_HEIGHT - 35) with 815.
    change (90 + 90) with 180. change (90 + 90 + 45) with 225.
    subst y.
    repeat match goal with
           | |- _ :: _ = _ :: _ => f_equal
           | |- _ ++ _ = _ ++ _ => f_equal
           | |- (_, _) = (_, _) => f_equal
           end; lia.
  - intros Hlen Hsolid.
    assert (Hw : lines = map string_of_list_ascii
                             (textwrap.chop 5 60 (list_ascii_of_string (description info)))).
    { subst lines. apply (textwrap_facts.wrap_solid _ 60 4); [lia|assumption|].
      rewrite Hlen. reflexivity. }
    assert (Hl : List.length (list_ascii_of_string (description info)) = (5 * 60)%nat).
    { rewrite textwrap_facts.length_list_ascii, Hlen. reflexivity. }
    rewrite Hw. split; [|split].
    + now rewrite length_map, textwrap_facts.chop_length.
    + apply Forall_map.
      eapply Forall_impl; [apply (textwrap_facts.chop_lengths 5 60 _ Hl)|].
      intros l El. cbn. rewrite <- El, <- textwrap_facts.length_list_ascii.
      now rewrite list_ascii_of_string_of_list_ascii.
    + rewrite textwrap_facts.concat_strings, (textwrap_facts.chop_concat 5 60 _ Hl).
      apply string_of_list_ascii_of_string.
  - intros E. subst lines. rewrite E. reflexivity.
Qed.

(** Witness of C5: the unbroken word of 300 letters. *)
Lemma C5_witness :
  textwrap.wrap unbroken 60 = [letters 60; letters 60; letters 60; letters 60; letters 60]
  /\ List.length (textwrap.wrap unbroken 60) = 5%nat.
Proof.
  destruct (C5_cover_description_lines no_truetype
              (mkInfo unbroken "" "" "" (mkDate 2024 3 5)) [])
    as (_ & H300 & _).
  destruct H300 as (H5 & _ & _).
  - vm_compute. reflexivity.
  - cbn [description]. unfold textwrap.solid.
    apply Forall_forall. intros c Hc.
    assert (c = "a"%char).
    { revert Hc. unfold unbroken, letters. rewrite list_ascii_of_string_of_list_ascii.
      intros Hc. apply list_elem_of_In in Hc. now apply repeat_spec in Hc. }
    subst c. split; reflexivity.
  - split; [vm_compute; reflexivity|exact H5].
Defined.

(** ** The draft *)

(** C2: when every category has its five slots and at least one slot holds
    a photo, Preview Final Draft stores the draft the specification
    describes (one entry per non-empty slot, categories in their fixed
    order, slots 0..4 within a category, every entry included and labelled
    with its category) and sets the flag; the draft is not empty; and
    pressing the button again, after any edits of the entries and with the
    slots unchanged, stores that same draft again, so the edits are
    gone. *)
Theorem C2_preview_builds_draft (s : Session) (h : heap) :
  initialised (photos s) ->
  some_photo (photos s) ->
  let built := mkSession (spec_draft (photos s)) true (photos s) in
  preview_final_draft s h = Done tt built h
  /\ spec_draft (photos s) <> []
  /\ Forall (fun e => include e = true /\ In (label e) CATEGORIES) (spec_draft (photos s))
  /\ (forall (edits : list (nat * bool * string)) (h' : heap),
         preview_final_draft (apply_edits edits built) h' = Done tt built h').
Proof.
  intros Hi Hsome built.
  assert (Hrun : forall s' h', photos s' = photos s ->
                               preview_final_draft s' h' = Done tt built h'
                               /\ spec_draft (photos s) <> []).
  { intros s' h' Hp. unfold preview_final_draft. rewrite Hp.
    destruct (collect_draft_nonempty (photos s) CATEGORIES
                (initialised_present _ Hi) Hsome []) as (e & es & Hne).
    pose proof (collect_draft_refines (photos s) Hi) as Href.
    rewrite Href in Hne |- *. injection Hne as Hne. rewrite Hne.
    split; [|discriminate]. subst built. now rewrite Hne. }
  split; [apply (Hrun s h eq_refl)|].
  split; [apply (Hrun s h eq_refl)|].
  split.
  - unfold spec_draft. apply Forall_forall. intros e He.
    apply list_elem_of_In, in_flat_map in He. destruct He as (cat & Hcat & He).
    apply in_flat_map in He. destruct He as (i & _ & He).
    destruct (slot (photos s) cat i); [|destruct He].
    destruct He as [<-|[]]. split; [reflexivity|exact Hcat].
  - intros edits h'. apply Hrun. now rewrite apply_edits_photos.
Qed.

(** Witness of C2: photos in the CPU slot 0 and the Fan slot 2. *)
Lemma C2_witness :
  preview_final_draft sample_session sample_heap
  = Done tt (mkSession [mkEntry true 0%nat "CPU"; mkEntry true 1%nat "Fan"] true
                       sample_photos) sample_heap.
Proof.
  destruct (C2_preview_builds_draft sample_session sample_heap) as (Hrun & _).
  - unfold initialised, CATEGORIES.
    repeat (apply Forall_cons; split;
            [eexists; split; [vm_compute; reflexivity|reflexivity]|]).
    apply Forall_nil. exact I.
  - unfold some_photo, CATEGORIES.
    do 6 apply Exists_cons_tl. apply Exists_cons_hd.
    eexists. split; [vm_compute; reflexivity|].
    apply Exists_cons_hd. discriminate.
  - rewrite Hrun. vm_compute. reflexivity.
Defined.

(** C7: when every slot of every category is empty, Preview Final Draft
    stops with its error message and leaves the session (photo slots,
    stored draft, flag) and the store as they were. *)
Theorem C7_preview_rejects_empty (s : Session) (h : heap) :
  no_photo (photos s) ->
  preview_final_draft s h = Stopped "Please take/upload at least one photo." s h.
Proof.
  intros Hnone. unfold preview_final_draft.
  now rewrite (collect_draft_empty (photos s) CATEGORIES Hnone []).
Qed.

(** Witness of C7: a session with an earlier draft whose slots are all
    empty. *)
Lemma C7_witness :
  preview_final_draft (mkSession sample_draft true (init_photos ∅)) sample_heap
  = Stopped "Please take/upload at least one photo."
            (mkSession sample_draft true (init_photos ∅)) sample_heap.
Proof.
  apply C7_preview_rejects_empty.
  unfold no_photo, CATEGORIES. cbn [photos].
  repeat (apply Forall_cons; split;
          [eexists; split; [vm_compute; reflexivity|repeat constructor]|]).
  apply Forall_nil. exact I.
Defined.

(** ** Export *)

(** C1: when at least one draft entry is included (their images being in
    the store and their labels single lines), Convert to PDF produces a
    document of 1 + k pages: page 0 is the cover, and page 1 + i is the
    captioned rendering of the i-th included entry, in the draft's order
    with the excluded entries skipped.  The session is left as it was. *)
Theorem C1_export_pages (truetype_available : string -> Z -> bool)
        (font_getbbox : Font -> string -> string -> Z * Z * Z * Z)
        (font_getlength : Font -> string -> string -> Fixed.t)
        (info : ReportInfo) (s : Session) (h : heap) (ims : list Image) :
  let selected := List.filter include (draft s) in
  Forall2 (fun e im => h !! image e = Some im) selected ims ->
  Forall (fun e => multiline_check (label e) = false) selected ->
  (1 <= List.length selected)%nat ->
  exists pdf h',
    convert_to_pdf truetype_available font_getbbox font_getlength info s h
    = Done (mkDownload pdf "NED_FAI_Report.pdf" "application/pdf") s h'
    /\ List.length (pages pdf) = (1 + List.length selected)%nat
    /\ pages pdf !! 0%nat = Some (cover_canvas truetype_available info)
    /\ (forall i e im,
           selected !! i = Some e -> ims !! i = Some im ->
           pages pdf !! S i
           = Some (captioned_page truetype_available font_getbbox font_getlength
                                  im (label e))).
Proof.
  intros selected Hims Hlab Hk.
  assert (Hne : selected <> []) by (destruct selected; cbn in Hk; [lia|discriminate]).
  destruct (convert_to_pdf_spec truetype_available font_getbbox font_getlength
              info s h ims Hims Hlab Hne) as (h' & Hrun & _).
  fold selected in Hrun.
  eexists. exists h'. split; [exact Hrun|].
  cbn [pages]. split; [|split].
  - cbn [List.length]. f_equal. rewrite length_zip_with_l_eq; [reflexivity|].
    now apply Forall2_length in Hims.
  - reflexivity.
  - intros i e im He Him. rewrite lookup_cons.
    rewrite lookup_zip_with. now rewrite He, Him.
Qed.

(** Witness of C1: a draft of three entries, the second one excluded. *)
Lemma C1_witness :
  exists pdf h',
    convert_to_pdf no_truetype sample_bbox sample_length sample_info
                   (mkSession sample_draft true sample_photos) sample_heap
    = Done (mkDownload pdf "NED_FAI_Report.pdf" "application/pdf")
           (mkSession sample_draft true sample_photos) h'
    /\ List.length (pages pdf) = 3%nat.
Proof.
  destruct (C1_export_pages no_truetype sample_bbox sample_length sample_info
              (mkSession sample_draft true sample_photos) sample_heap
              [photo 0 640 480; photo 1 20 30])
    as (pdf & h' & Hrun & Hlen & _).
  - repeat constructor.
  - repeat constructor.
  - cbn. lia.
  - exists pdf, h'. split; [exact Hrun|exact Hlen].
Defined.

(** ** Image optimization *)

(** What every successful run of [optimize_image] returns. *)
Lemma optimize_image_result (h : heap) (l : loc) (im : Image) (out : loc) (q : Z)
      (h1 : heap) :
  h !! l = Some im ->
  0 <= width im < 2 ^ 31 -> 0 <= height im < 2 ^ 31 ->
  optimize_image l h = Ok ((out, q), h1) ->
  exists p,
    h1 !! out = Some p /\ q = 95
    /\ mode p = "RGB"
    /\ exif_method (orientation p) = None
    /\ Z.max (width p) (height p) <= 3000.
Proof.
  intros Hl Hw Hh Hrun.
  set (o := oriented im).
  assert (Ho : 0 <= width o < 2 ^ 31 /\ 0 <= height o < 2 ^ 31).
  { destruct (oriented_size im) as [E|E]; fold o in E; unfold size in E;
      injection E as -> ->; lia. }
  destruct (Z_le_gt_dec (Z.max (width o) (height o)) 3000) as [Hsmall|Hlarge].
  - rewrite (optimize_image_small h l im Hl Hsmall) in Hrun.
    injection Hrun as <- <- <-.
    exists (to_rgb o). split.
    { rewrite lookup_app_r by lia.
      now replace (S (List.length h) - List.length h)%nat with 1%nat by lia. }
    split; [reflexivity|]. split; [apply to_rgb_mode|].
    split; [rewrite to_rgb_orientation; apply oriented_settled|].
    pose proof (to_rgb_size o) as Es. unfold size in Es. injection Es as -> ->. exact Hsmall.
  - destruct (scaled_edges_bounded (width o) (height o)) as (w' & h' & Ew & Eh & Bw & Bh);
      try lia.
    assert (Hne : size o <> (w', h')).
    { unfold size. intros E. injection E as <- <-. lia. }
    rewrite (optimize_image_large h l im w' h' Hl) in Hrun; try assumption; [|fold o; lia].
    fold o in Hrun.
    destruct ((w' <? 1) || (h' <? 1)); [discriminate|].
    injection Hrun as <- <- <-.
    exists (to_rgb (resized (w', h') o)). split.
    { rewrite lookup_app_r by lia.
      now replace (S (S (List.length h)) - List.length h)%nat with 2%nat by lia. }
    split; [reflexivity|]. split; [apply to_rgb_mode|].
    split; [rewrite to_rgb_orientation; apply oriented_settled|].
    pose proof (to_rgb_size (resized (w', h') o)) as Es.
    unfold size in Es. injection Es as -> ->. cbn. lia.
Qed.

(** C3, as stated, fails twice: a photo stored on its side comes out with
    width and height exchanged although nothing had to be scaled, and a
    photo 4177 pixels wide comes out 2999 pixels wide, not 3000. *)
Lemma C3_counterexample :
  (exists out q h' p,
      optimize_image 0%nat [turned_photo] = Ok ((out, q), h')
      /\ h' !! out = Some p
      /\ Z.max (width turned_photo) (height turned_photo) <= 3000
      /\ size turned_photo = (200, 100) /\ size p = (100, 200))
  /\ (exists out q h' p,
         optimize_image 0%nat [wide_photo] = Ok ((out, q), h')
         /\ h' !! out = Some p
         /\ 3000 < Z.max (width wide_photo) (height wide_photo)
         /\ size p = (2999, 2154))
  /\ ~ (forall (h : heap) (l : loc) (im : Image),
           h !! l = Some im ->
           exists out q h' p,
             optimize_image l h = Ok ((out, q), h')
             /\ h' !! out = Some p
             /\ Z.max (width p) (height p) <= 3000
             /\ (Z.max (width im) (height im) <= 3000 -> size p = size im)
             /\ (3000 < Z.max (width im) (height im) ->
                 Z.max (width p) (height p) = 3000)).
Proof.
  assert (Hwide : optimize_image 0%nat [wide_photo]
                  = Ok ((3%nat, 95),
                        [wide_photo; wide_photo; resized (2999, 2154) wide_photo;
                         resized (2999, 2154) wide_photo]))
    by (vm_compute; reflexivity).
  split; [|split].
  - do 4 eexists. split; [vm_compute; reflexivity|].
    split; [reflexivity|]. split; [vm_compute; discriminate|]. split; reflexivity.
  - do 4 eexists. split; [exact Hwide|].
    split; [reflexivity|]. split; reflexivity.
  - intros H.
    destruct (H [wide_photo] 0%nat wide_photo eq_refl)
      as (out & q & h' & p & Hrun & Hp & _ & _ & Hexact).
    rewrite Hwide in Hrun. injection Hrun as <- <- <-.
    injection Hp as <-. specialize (Hexact eq_refl). discriminate Hexact.
Qed.

(** C3, amended: for an image whose sides are below 2^31, let (w, h) be its
    size once the EXIF orientation is applied (the stored size, exchanged
    for the orientations that turn the image on its side).  If the longer
    of w and h is at most 3000, [optimize_image] returns an RGB image of
    size (w, h).  If it exceeds 3000, both sides are multiplied by the same
    float ratio 3000 / longer and truncated; neither result exceeds 3000,
    and [optimize_image] returns an RGB image of that size, unless one of
    the two is truncated to 0, in which case Pillow refuses the size. *)
Theorem C3_optimize_image_size (h : heap) (l : loc) (im : Image) :
  h !! l = Some im ->
  0 <= width im < 2 ^ 31 -> 0 <= height im < 2 ^ 31 ->
  let o := oriented im in
  let long_edge := Z.max (width o) (height o) in
  (size o = size im \/ size o = (height im, width im))
  /\ (exif_method (orientation im) = None -> size o = size im)
  /\ (long_edge <= 3000 ->
      exists out h' p,
        optimize_image l h = Ok ((out, 95), h')
        /\ h' !! out = Some p /\ mode p = "RGB" /\ size p = size o)
  /\ (3000 < long_edge ->
      exists w' h',
        scaled_edge 3000 long_edge (width o) = Ok w'
        /\ scaled_edge 3000 long_edge (height o) = Ok h'
        /\ 0 <= w' <= 3000 /\ 0 <= h' <= 3000
        /\ (1 <= w' -> 1 <= h' ->
            exists out heap' p,
              optimize_image l h = Ok ((out, 95), heap')
              /\ heap' !! out = Some p /\ mode p = "RGB" /\ size p = (w', h')
              /\ Z.max (width p) (height p) <= 3000)
        /\ (w' < 1 \/ h' < 1 -> optimize_image l h = Raise ValueError)).
Proof.
  intros Hl Hw Hh o long_edge.
  assert (Ho : 0 <= width o < 2 ^ 31 /\ 0 <= height o < 2 ^ 31).
  { destruct (oriented_size im) as [E|E]; fold o in E; unfold size in E;
      injection E as -> ->; lia. }
  split; [apply oriented_size|].
  split; [intros E; unfold o, oriented; now rewrite E|].
  split.
  - intros Hsmall.
    exists (S (List.length h)), (h ++ [o; to_rgb o]), (to_rgb o).
    split; [now apply optimize_image_small|]. split.
    { rewrite lookup_app_r by lia.
      now replace (S (List.length h) - List.length h)%nat with 1%nat by lia. }
    split; [apply to_rgb_mode|apply to_rgb_size].
  - intros Hlarge.
    destruct (scaled_edges_bounded (width o) (height o)) as (w' & h' & Ew & Eh & Bw & Bh);
      try lia.
    fold long_edge in Ew, Eh.
    exists w', h'. split; [exact Ew|]. split; [exact Eh|]. split; [exact Bw|].
    split; [exact Bh|].
    assert (Hne : size o <> (w', h')).
    { unfold size. intros E. injection E as <- <-. unfold long_edge in Hlarge. lia. }
    pose proof (optimize_image_large h l im w' h' Hl Hlarge Ew Eh Hne) as Hrun.
    split.
    + intros H1 H2.
      replace ((w' <? 1) || (h' <? 1)) with false in Hrun.
      2:{ symmetry. apply orb_false_iff. split; apply Z.ltb_ge; lia. }
      exists (S (S (List.length h))), (h ++ [o; resized (w', h') o; to_rgb (resized (w', h') o)]),
        (to_rgb (resized (w', h') o)).
      split; [exact Hrun|]. split.
      { rewrite lookup_app_r by lia.
        now replace (S (S (List.length h)) - List.length h)%nat with 2%nat by lia. }
      split; [apply to_rgb_mode|]. split; [now rewrite to_rgb_size|].
      pose proof (to_rgb_size (resized (w', h') o)) as Es.
      unfold size in Es. injection Es as -> ->. cbn. lia.
    + intros Hzero.
      replace ((w' <? 1) || (h' <? 1)) with true in Hrun; [exact Hrun|].
      symmetry. apply orb_true_iff. destruct Hzero; [left|right]; apply Z.ltb_lt; lia.
Qed.

(** Witness of C3: the photo 4177 pixels wide. *)
Lemma C3_witness :
  exists out h' p,
    optimize_image 0%nat [wide_photo] = Ok ((out, 95), h')
    /\ h' !! out = Some p /\ size p = (2999, 2154)
    /\ Z.max (width p) (height p) <= 3000.
Proof.
  destruct (C3_optimize_image_size [wide_photo] 0%nat wide_photo) as (_ & _ & _ & Hlarge).
  - reflexivity.
  - cbn. lia.
  - cbn. lia.
  - destruct Hlarge as (w' & h' & Ew & Eh & _ & _ & Hrun & _); [cbn; lia|].
    assert (Ew' : w' = 2999) by (vm_compute in Ew; congruence).
    assert (Eh' : h' = 2154) by (vm_compute in Eh; congruence).
    subst w' h'.
    destruct Hrun as (out & heap' & p & Hrun & Hp & _ & Hsize & Hmax); [lia|lia|].
    exists out, heap', p. repeat split; assumption.
Defined.

(** C6: [optimize_image] is idempotent: applied to the image it has just
    returned, it returns an image with the same mode, dimensions,
    orientation and pixels, and the same quality; nothing is resized or
    turned the second time. *)
Theorem C6_optimize_image_idempotent (h : heap) (l : loc) (im : Image)
        (out : loc) (q : Z) (h1 : heap) :
  h !! l = Some im ->
  0 <= width im < 2 ^ 31 -> 0 <= height im < 2 ^ 31 ->
  optimize_image l h = Ok ((out, q), h1) ->
  exists p out2 h2,
    h1 !! out = Some p
    /\ optimize_image out h1 = Ok ((out2, q), h2)
    /\ h2 !! out2 = Some p.
Proof.
  intros Hl Hw Hh Hrun.
  destruct (optimize_image_result h l im out q h1 Hl Hw Hh Hrun)
    as (p & Hp & -> & Hmode & Hexif & Hmax).
  assert (Hor : oriented p = p) by (unfold oriented; now rewrite Hexif).
  assert (Hrgb : to_rgb p = p).
  { unfold to_rgb. destruct (decide (mode p = "RGB")); [reflexivity|contradiction]. }
  exists p, (S (List.length h1)), (h1 ++ [p; p]).
  split; [exact Hp|]. split.
  - rewrite (optimize_image_small h1 out p Hp) by (rewrite Hor; exact Hmax).
    now rewrite Hor, Hrgb.
  - rewrite lookup_app_r by lia.
    now replace (S (List.length h1) - List.length h1)%nat with 1%nat by lia.
Qed.

(** Witness of C6: the photo 4177 pixels wide, optimized twice. *)
Lemma C6_witness :
  exists p out2 h2,
    [wide_photo; wide_photo;
     resized (2999, 2154) wide_photo; resized (2999, 2154) wide_photo] !! 3%nat = Some p
    /\ optimize_image 3%nat
         [wide_photo; wide_photo;
          resized (2999, 2154) wide_photo; resized (2999, 2154) wide_photo]
       = Ok ((out2, 95), h2)
    /\ h2 !! out2 = Some p.
Proof.
  apply (C6_optimize_image_idempotent [wide_photo] 0%nat wide_photo).
  - reflexivity.
  - cbn. lia.
  - cbn. lia.
  - vm_compute. reflexivity.
Defined.

(** * Further properties

    Properties of the script beyond the claims: the exact size
    [optimize_image] gives, which uploads it refuses, what the handlers
    keep and change in the session and in the store, and what the wrapped
    description looks like. *)

(** ** Float arithmetic: the scaled edge is the truncated quotient *)

Module PyFloat_bounds.
Import PyFloat_facts.

Lemma round_aux_lower (mx ex : Z) (lx : location) (k : Z) :
  2 ^ 52 <= mx < 2 ^ k -> -1074 <= ex -> k + ex <= 1023 ->
  exists m e,
    binary_round_aux 53 1024 false mx ex lx = S754_finite false m e
    /\ ex <= e
    /\ mx * (2 ^ 52 - 1) < 2 ^ 52 * (Zpos m * 2 ^ (e - ex)).
Proof.
  intros [Hlo Hhi] Hex Hk.
  assert (Hpos : 0 < mx) by lia.
  pose proof (Zdigits2_bounds mx Hpos) as [Hdl Hdh].
  set (d := Zdigits2 mx) in *.
  assert (Hd53 : 53 <= d).
  { destruct (Z_lt_le_dec d 53) as [Hlt|]; [|assumption].
    assert (2 ^ d <= 2 ^ 52) by (apply Z.pow_le_mono_r; lia). lia. }
  assert (Hdk : d <= k).
  { destruct (Z_lt_le_dec k d) as [Hlt|]; [|assumption].
    assert (2 ^ k <= 2 ^ (d - 1)) by (apply Z.pow_le_mono_r; lia). lia. }
  destruct (shr_fexp_spec mx ex lx Hpos Hd53 Hex) as (r & Hr & Hrm).
  fold d in Hr, Hrm.
  set (n := d - 53) in *.
  assert (Hn : 0 <= n) by lia.
  assert (Hpn : 0 < 2 ^ n) by (apply Z.pow_pos_nonneg; lia).
  assert (Hsplit : 2 ^ (d - 1) = 2 ^ 52 * 2 ^ n).
  { rewrite <- Z.pow_add_r by lia. f_equal. lia. }
  assert (Hsplit' : 2 ^ d = 2 ^ 53 * 2 ^ n).
  { rewrite <- Z.pow_add_r by lia. f_equal. lia. }
  set (q := mx / 2 ^ n) in *.
  assert (Hq : q * 2 ^ n <= mx < (q + 1) * 2 ^ n).
  { unfold q. pose proof (Z.div_mod mx (2 ^ n)). pose proof (Z.mod_pos_bound mx (2 ^ n)). nia. }
  assert (Hqb : 2 ^ 52 <= q < 2 ^ 53) by nia.
  unfold binary_round_aux. rewrite Hr, Hrm.
  set (m1 := round_nearest_even q (loc_of_shr_record r)).
  assert (Hm1 : m1 = q \/ m1 = q + 1) by apply round_nearest_even_cases.
  assert (Hm1pos : 0 < m1) by lia.
  destruct (Z_lt_le_dec m1 (2 ^ 53)) as [Hlt|Hge].
  - assert (Hd1 : Zdigits2 m1 = 53) by (apply Zdigits2_unique; lia).
    destruct (shr_fexp_spec m1 (ex + n) loc_Exact Hm1pos) as (r2 & Hr2 & Hr2m); [lia|lia|].
    rewrite Hd1 in Hr2, Hr2m. rewrite Hr2, Hr2m.
    change (53 - 53) with 0. change (2 ^ 0) with 1. rewrite Z.div_1_r, Z.add_0_r.
    destruct m1 as [|p1|p1] eqn:Em1; try lia.
    replace (ex + n <=? 1024 - 53) with true by (symmetry; apply Z.leb_le; lia).
    exists p1, (ex + n). split; [reflexivity|]. split; [lia|].
    replace (ex + n - ex) with n by lia. nia.
  - assert (Em : m1 = 2 ^ 53) by lia.
    assert (Hd1 : Zdigits2 m1 = 54) by (rewrite Em; reflexivity).
    destruct (shr_fexp_spec m1 (ex + n) loc_Exact Hm1pos) as (r2 & Hr2 & Hr2m); [lia|lia|].
    rewrite Hd1 in Hr2, Hr2m. rewrite Hr2, Hr2m, Em.
    change (2 ^ 53 / 2 ^ (54 - 53)) with (Zpos (2 ^ 52)).
    replace (ex + n + (54 - 53) <=? 1024 - 53) with true by (symmetry; apply Z.leb_le; lia).
    exists (2 ^ 52)%positive, (ex + n + (54 - 53)). split; [reflexivity|]. split; [lia|].
    replace (ex + n + (54 - 53) - ex) with (n + 1) by lia.
    rewrite Z.pow_add_r by lia. change (2 ^ 1) with 2.
    change (Zpos (2 ^ 52)) with (2 ^ 52). nia.
Qed.

Lemma div_enclosure (m1 m2 : positive) (e1 e2 : Z) :
  2 ^ 52 <= Zpos m1 < 2 ^ 53 -> 2 ^ 52 <= Zpos m2 < 2 ^ 53 ->
  -52 <= e1 <= 0 -> -52 <= e2 <= 0 ->
  exists m e,
    PyFloat.div (S754_finite false m1 e1) (S754_finite false m2 e2)
    = S754_finite false m e
    /\ e1 - e2 - 53 <= e
    /\ 2 ^ 52 <= Zpos m < 2 ^ 53
    /\ 2 ^ 52 * (Zpos m * 2 ^ (e - (e1 - e2 - 53))) * Zpos m2
       <= Zpos m1 * 2 ^ 53 * (2 ^ 52 + 1)
    /\ Zpos m1 * 2 ^ 53 * ((2 ^ 52 - 1) * (2 ^ 52 - 1))
       < 2 ^ 52 * 2 ^ 52 * (Zpos m * 2 ^ (e - (e1 - e2 - 53))) * Zpos m2.
Proof.
  intros H1 H2 He1 He2.
  destruct (div_upper m1 m2 e1 e2 H1 H2 He1 He2) as (m & e & Hr & He & Hm & Hup).
  exists m, e. split; [exact Hr|]. split; [exact He|]. split; [exact Hm|].
  split; [exact Hup|].
  revert Hr.
  unfold PyFloat.div, SFdiv, SFdiv_core_binary, PyFloat.prec, PyFloat.emax.
  rewrite (Zdigits2_unique (Zpos m1) 53) by lia.
  rewrite (Zdigits2_unique (Zpos m2) 53) by lia.
  unfold fexp, emin.
  replace (Z.min (Z.max (53 + e1 - (53 + e2) - 53) (3 - 1024 - 53)) (e1 - e2))
    with (e1 - e2 - 53) by lia.
  replace (e1 - e2 - (e1 - e2 - 53)) with 53 by lia.
  rewrite Z.shiftl_mul_pow2 by lia.
  destruct (Z.div_eucl (Zpos m1 * 2 ^ 53) (Zpos m2)) as [q r] eqn:E.
  assert (Hq : q = Zpos m1 * 2 ^ 53 / Zpos m2) by (unfold Z.div; now rewrite E).
  assert (Hqm : q * Zpos m2 <= Zpos m1 * 2 ^ 53 < (q + 1) * Zpos m2).
  { pose proof (Z.div_mod (Zpos m1 * 2 ^ 53) (Zpos m2)).
    pose proof (Z.mod_pos_bound (Zpos m1 * 2 ^ 53) (Zpos m2)). nia. }
  assert (Hqb : 2 ^ 52 <= q < 2 ^ 54) by nia.
  cbn [xorb].
  destruct (round_aux_lower q (e1 - e2 - 53) (new_location (Zpos m2) r) 54 Hqb)
    as (m' & e' & Hr' & _ & Hlow); [lia|lia|].
  rewrite Hr'. intros Heq. injection Heq as -> ->.
  set (V := Zpos m * 2 ^ (e - (e1 - e2 - 53))) in *.
  assert (HV : 0 < V).
  { unfold V. apply Z.mul_pos_pos; [lia|]. apply Z.pow_pos_nonneg; lia. }
  (* 2^52 q m2 > m1 2^53 (2^52 - 1) *)
  assert (S1 : Zpos m1 * 2 ^ 53 * (2 ^ 52 - 1) < 2 ^ 52 * (q * Zpos m2)) by nia.
  assert (S2 : q * (2 ^ 52 - 1) * (2 ^ 52 * Zpos m2) < 2 ^ 52 * V * (2 ^ 52 * Zpos m2)).
  { apply Z.mul_lt_mono_pos_r; [lia|exact Hlow]. }
  assert (S3 : Zpos m1 * 2 ^ 53 * (2 ^ 52 - 1) * (2 ^ 52 - 1)
               < 2 ^ 52 * (q * Zpos m2) * (2 ^ 52 - 1)).
  { apply Z.mul_lt_mono_pos_r; [lia|exact S1]. }
  replace (Zpos m1 * 2 ^ 53 * ((2 ^ 52 - 1) * (2 ^ 52 - 1)))
    with (Zpos m1 * 2 ^ 53 * (2 ^ 52 - 1) * (2 ^ 52 - 1)) by ring.
  eapply Z.lt_trans; [exact S3|].
  replace (2 ^ 52 * (q * Zpos m2) * (2 ^ 52 - 1))
    with (q * (2 ^ 52 - 1) * (2 ^ 52 * Zpos m2)) by ring.
  eapply Z.lt_le_trans; [exact S2|]. apply Z.eq_le_incl. ring.
Qed.

Lemma mul_enclosure (m1 m2 : positive) (e1 e2 : Z) :
  2 ^ 52 <= Zpos m1 < 2 ^ 53 -> 2 ^ 52 <= Zpos m2 < 2 ^ 53 ->
  -200 <= e1 <= 0 -> -200 <= e2 <= 0 ->
  exists m e,
    PyFloat.mul (S754_finite false m1 e1) (S754_finite false m2 e2)
    = S754_finite false m e
    /\ e1 + e2 <= e
    /\ 2 ^ 52 <= Zpos m < 2 ^ 53
    /\ 2 ^ 52 * (Zpos m * 2 ^ (e - (e1 + e2))) <= Zpos m1 * Zpos m2 * (2 ^ 52 + 1)
    /\ Zpos m1 * Zpos m2 * (2 ^ 52 - 1) < 2 ^ 52 * (Zpos m * 2 ^ (e - (e1 + e2))).
Proof.
  intros H1 H2 He1 He2.
  destruct (mul_upper m1 m2 e1 e2 H1 H2 He1 He2) as (m & e & Hr & He & Hm & Hup).
  exists m, e. split; [exact Hr|]. split; [exact He|]. split; [exact Hm|].
  split; [exact Hup|].
  revert Hr. unfold PyFloat.mul, SFmul, PyFloat.prec, PyFloat.emax. cbn [xorb].
  assert (Hb : 2 ^ 52 <= Zpos (m1 * m2) < 2 ^ 106).
  { rewrite Pos2Z.inj_mul. change (2 ^ 106) with (2 ^ 53 * 2 ^ 53). nia. }
  destruct (round_aux_lower (Zpos (m1 * m2)) (e1 + e2) loc_Exact 106 Hb)
    as (m' & e' & Hr' & _ & Hlow); [lia|lia|].
  rewrite Hr'. intros Heq. injection Heq as -> ->.
  now rewrite Pos2Z.inj_mul in Hlow.
Qed.

Lemma chain_upper (K K2 mp ms Pt Pu Pa Pb Pc w L M : Z) :
  0 < K -> 0 < K2 -> 0 < mp -> 0 < ms -> 0 < Pt -> 0 < Pu -> 0 < Pa -> 0 < Pb -> 0 < Pc ->
  0 < w -> 0 < L -> 0 < M ->
  K * (mp * Pu) <= w * Pb * ms * (K + 1) ->
  K * (ms * Pt) * (L * Pa) <= M * Pc * K2 * (K + 1) ->
  K * K * (mp * (Pt * Pu * Pa)) * L <= (K + 1) * (K + 1) * (w * M) * (Pb * Pc * K2).
Proof.
  intros HK HK2 Hmp Hms HPt HPu HPa HPb HPc Hw HL HM Hbp Hbs.
  assert (S1 : (K * (mp * Pu)) * (K * Pt * (L * Pa))
               <= (w * Pb * ms * (K + 1)) * (K * Pt * (L * Pa))).
  { apply Z.mul_le_mono_nonneg_r; [|exact Hbp].
    apply Z.mul_nonneg_nonneg; [apply Z.mul_nonneg_nonneg; lia|].
    apply Z.mul_nonneg_nonneg; lia. }
  assert (S2 : w * (Pb * (K + 1) * (K * (ms * Pt) * (L * Pa)))
               <= w * (Pb * (K + 1) * (M * Pc * K2 * (K + 1)))).
  { apply Z.mul_le_mono_nonneg_l; [lia|].
    apply Z.mul_le_mono_nonneg_l; [|exact Hbs].
    apply Z.mul_nonneg_nonneg; lia. }
  replace (K * K * (mp * (Pt * Pu * Pa)) * L)
    with (K * (mp * Pu) * (K * Pt * (L * Pa))) by ring.
  eapply Z.le_trans; [exact S1|].
  replace (w * Pb * ms * (K + 1) * (K * Pt * (L * Pa)))
    with (w * (Pb * (K + 1) * (K * (ms * Pt) * (L * Pa)))) by ring.
  eapply Z.le_trans; [exact S2|]. apply Z.eq_le_incl. ring.
Qed.

Lemma chain_lower (K K2 mp ms Pt Pu Pa Pb Pc w L M : Z) :
  1 < K -> 0 < K2 -> 0 < mp -> 0 < ms -> 0 < Pt -> 0 < Pu -> 0 < Pa -> 0 < Pb -> 0 < Pc ->
  0 < w -> 0 < L -> 0 < M ->
  w * Pb * ms * (K - 1) < K * (mp * Pu) ->
  M * Pc * K2 * ((K - 1) * (K - 1)) < K * K * (ms * Pt) * (L * Pa) ->
  (K - 1) * (K - 1) * (K - 1) * (w * M) * (Pb * Pc * K2)
  < K * K * K * (mp * (Pt * Pu * Pa)) * L.
Proof.
  intros HK HK2 Hmp Hms HPt HPu HPa HPb HPc Hw HL HM Hbp Hbs.
  assert (P1 : 0 < w * Pb * (K - 1)).
  { apply Z.mul_pos_pos; [apply Z.mul_pos_pos; lia|lia]. }
  assert (P2 : 0 < K * K * Pt * (L * Pa)).
  { repeat apply Z.mul_pos_pos; lia. }
  assert (S1 : w * Pb * (K - 1) * (M * Pc * K2 * ((K - 1) * (K - 1)))
               < w * Pb * (K - 1) * (K * K * (ms * Pt) * (L * Pa))).
  { apply Z.mul_lt_mono_pos_l; [exact P1|exact Hbs]. }
  assert (S2 : w * Pb * ms * (K - 1) * (K * K * Pt * (L * Pa))
               < K * (mp * Pu) * (K * K * Pt * (L * Pa))).
  { apply Z.mul_lt_mono_pos_r; [exact P2|exact Hbp]. }
  replace ((K - 1) * (K - 1) * (K - 1) * (w * M) * (Pb * Pc * K2))
    with (w * Pb * (K - 1) * (M * Pc * K2 * ((K - 1) * (K - 1)))) by ring.
  eapply Z.lt_trans; [exact S1|].
  replace (w * Pb * (K - 1) * (K * K * (ms * Pt) * (L * Pa)))
    with (w * Pb * ms * (K - 1) * (K * K * Pt * (L * Pa))) by ring.
  eapply Z.lt_le_trans; [exact S2|]. apply Z.eq_le_incl. ring.
Qed.

(** [int(w * (M / L))] lies within a few parts in [2^52] of the exact
    product [w * M / L]. *)
Lemma scaled_edge_enclosure (M L w : Z) :
  0 < M -> M < L -> L < 2 ^ 31 -> 0 < w <= L ->
  exists r,
    PyFloat.int (PyFloat.int_mul w (PyFloat.div (PyFloat.of_int M) (PyFloat.of_int L)))
    = Ok r
    /\ 0 <= r
    /\ 2 ^ 52 * 2 ^ 52 * (r * L) <= (2 ^ 52 + 1) * (2 ^ 52 + 1) * (w * M)
    /\ (2 ^ 52 - 1) * (2 ^ 52 - 1) * (2 ^ 52 - 1) * (w * M)
       < 2 ^ 52 * 2 ^ 52 * 2 ^ 52 * ((r + 1) * L).
Proof.
  intros HM HML HL Hw.
  assert (H31 : 2 ^ 31 < 2 ^ 53) by (apply Z.pow_lt_mono_r; lia).
  destruct (of_int_pos M) as (mM & eM & EM & HmM & HeM & HvM); [lia|].
  destruct (of_int_pos L) as (mL & eL & EL & HmL & HeL & HvL); [lia|].
  rewrite EM, EL.
  destruct (div_enclosure mM mL eM eL HmM HmL HeM HeL)
    as (ms & es & Es & Hes & Hms & Hbs & Hbs').
  rewrite Es. unfold PyFloat.int_mul.
  destruct (of_int_pos w) as (mw & ew & Ew & Hmw & Hew & Hvw); [lia|].
  rewrite Ew.
  assert (Hes' : es <= 0).
  { destruct (Z_lt_le_dec 0 es) as [Hlt|]; [|assumption]. exfalso.
    assert (Hsum : 2 ^ (es - (eM - eL - 53)) * 2 ^ (- eL) = 2 ^ es * 2 ^ (- eM) * 2 ^ 53).
    { rewrite <- !Z.pow_add_r by lia. f_equal. lia. }
    assert (P1 : 0 < 2 ^ (- eM)) by (apply Z.pow_pos_nonneg; lia).
    assert (P2 : 1 <= 2 ^ es) by (pose proof (Z.pow_pos_nonneg 2 es); lia).
    rewrite HvL, HvM in Hbs.
    assert (Hbs2 : 2 ^ 52 * Zpos ms * L * (2 ^ es * 2 ^ (- eM) * 2 ^ 53)
                   <= M * (2 ^ 52 + 1) * (2 ^ (- eM) * 2 ^ 53)).
    { rewrite <- Hsum. lia. }
    assert (Hc : 2 ^ 52 * Zpos ms * L * 2 ^ es <= M * (2 ^ 52 + 1)).
    { apply (Z.mul_le_mono_pos_r _ _ (2 ^ (- eM) * 2 ^ 53)); [nia|]. lia. }
    assert (2 ^ 52 * Zpos ms * L <= 2 ^ 52 * Zpos ms * L * 2 ^ es) by nia.
    assert (M * (2 ^ 52 + 1) < L * (2 ^ 52 + 1)) by nia.
    assert (L * (2 ^ 52 + 1) <= L * (2 ^ 52 * Zpos ms)) by nia.
    lia. }
  destruct (mul_enclosure mw ms ew es Hmw Hms) as (mp & ep & Ep & Hep & Hmp & Hbp & Hbp');
    [lia|lia|].
  rewrite Ep.
  set (t := es - (eM - eL - 53)) in *.
  set (u := ep - (ew + es)) in *.
  set (a := - eL) in *. set (b := - ew) in *. set (c := - eM) in *.
  assert (Ht : 0 <= t) by (unfold t; lia).
  assert (Hu : 0 <= u) by (unfold u; lia).
  set (X := t + u + a). set (Y := b + c + 53).
  assert (Hep' : - ep = Y - X) by (unfold X, Y, t, u, a, b, c; lia).
  assert (PX : 2 ^ X = 2 ^ t * 2 ^ u * 2 ^ a)
    by (unfold X; rewrite !Z.pow_add_r by (unfold a; lia); reflexivity).
  assert (PY : 2 ^ Y = 2 ^ b * 2 ^ c * 2 ^ 53)
    by (unfold Y; rewrite !Z.pow_add_r by (unfold b, c; lia); reflexivity).
  assert (Pt : 0 < 2 ^ t) by (apply Z.pow_pos_nonneg; lia).
  assert (Pu : 0 < 2 ^ u) by (apply Z.pow_pos_nonneg; lia).
  assert (Pa : 0 < 2 ^ a) by (apply Z.pow_pos_nonneg; unfold a; lia).
  assert (Pb : 0 < 2 ^ b) by (apply Z.pow_pos_nonneg; unfold b; lia).
  assert (Pc : 0 < 2 ^ c) by (apply Z.pow_pos_nonneg; unfold c; lia).
  assert (PYpos : 0 < 2 ^ Y) by (apply Z.pow_pos_nonneg; unfold Y, b, c; lia).
  assert (PXpos : 0 < 2 ^ X) by (apply Z.pow_pos_nonneg; unfold X, a; lia).
  rewrite HvL, HvM in Hbs, Hbs'. rewrite Hvw in Hbp, Hbp'.
  assert (Hup : 2 ^ 52 * 2 ^ 52 * (Zpos mp * 2 ^ X) * L
                <= (2 ^ 52 + 1) * (2 ^ 52 + 1) * (w * M) * 2 ^ Y).
  { rewrite PX, PY.
    apply (chain_upper (2 ^ 52) (2 ^ 53) (Zpos mp) (Zpos ms) (2 ^ t) (2 ^ u) (2 ^ a)
                       (2 ^ b) (2 ^ c) w L M); try assumption; lia. }
  assert (Hlow : (2 ^ 52 - 1) * (2 ^ 52 - 1) * (2 ^ 52 - 1) * (w * M) * 2 ^ Y
                 < 2 ^ 52 * 2 ^ 52 * 2 ^ 52 * (Zpos mp * 2 ^ X) * L).
  { rewrite PX, PY.
    apply (chain_lower (2 ^ 52) (2 ^ 53) (Zpos mp) (Zpos ms) (2 ^ t) (2 ^ u) (2 ^ a)
                       (2 ^ b) (2 ^ c) w L M); try assumption; lia. }
  (* the exponent of the product is negative *)
  assert (HXY : X < Y).
  { destruct (Z_lt_le_dec X Y) as [|Hge]; [assumption|]. exfalso.
    assert (HYX : 2 ^ Y <= 2 ^ X) by (apply Z.pow_le_mono_r; lia).
    assert (HwM : w * M <= L * M) by (apply Z.mul_le_mono_nonneg_r; lia).
    assert (H1 : (2 ^ 52 + 1) * (2 ^ 52 + 1) * (w * M) * 2 ^ Y
                 <= (2 ^ 52 + 1) * (2 ^ 52 + 1) * (L * M) * 2 ^ Y).
    { apply Z.mul_le_mono_nonneg_r; [lia|]. apply Z.mul_le_mono_nonneg_l; lia. }
    assert (H2 : 2 ^ 52 * 2 ^ 52 * (2 ^ 52 * 2 ^ Y) * L
                 <= 2 ^ 52 * 2 ^ 52 * (Zpos mp * 2 ^ X) * L).
    { apply Z.mul_le_mono_nonneg_r; [lia|]. apply Z.mul_le_mono_nonneg_l; [lia|].
      apply Z.mul_le_mono_nonneg; lia. }
    assert (H3 : 2 ^ 52 * 2 ^ 52 * 2 ^ 52 * (L * 2 ^ Y)
                 <= (2 ^ 52 + 1) * (2 ^ 52 + 1) * M * (L * 2 ^ Y)).
    { eapply Z.le_trans; [|eapply Z.le_trans; [eapply Z.le_trans; [exact H2|exact Hup]|]].
      - apply Z.eq_le_incl. ring.
      - eapply Z.le_trans; [exact H1|]. apply Z.eq_le_incl. ring. }
    assert (HLY : 0 < L * 2 ^ Y) by (apply Z.mul_pos_pos; lia).
    apply Z.mul_le_mono_pos_r in H3; [|exact HLY].
    change (2 ^ 31) with 2147483648 in *.
    change (2 ^ 52) with 4503599627370496 in H3. lia. }
  assert (HX0 : 0 <= X) by (unfold X, a; lia).
  set (D := 2 ^ (Y - X)).
  assert (HD : 0 < D) by (apply Z.pow_pos_nonneg; lia).
  assert (Hdiff : 2 ^ Y = D * 2 ^ X)
    by (unfold D; rewrite <- Z.pow_add_r by lia; f_equal; lia).
  unfold PyFloat.int.
  destruct ep as [|pe|pe]; try lia.
  rewrite Z.shiftr_div_pow2 by lia.
  change (Zpos pe) with (- Zneg pe). rewrite Hep'. fold D.
  set (r := Zpos mp / D).
  assert (Hr : r * D <= Zpos mp < (r + 1) * D).
  { unfold r. pose proof (Z.mul_div_le (Zpos mp) D HD) as Hlo.
    pose proof (Z.mul_succ_div_gt (Zpos mp) D HD) as Hhi.
    unfold Z.succ in Hhi. rewrite (Z.mul_comm D) in Hlo. rewrite (Z.mul_comm D) in Hhi.
    split; assumption. }
  assert (Hr0 : 0 <= r) by (apply Z.div_pos; lia).
  exists r. split; [reflexivity|]. split; [exact Hr0|]. split.
  - apply (Z.mul_le_mono_pos_r _ _ (2 ^ Y)); [exact PYpos|].
    assert (H1 : 2 ^ 52 * 2 ^ 52 * (r * L) * 2 ^ Y
                 <= 2 ^ 52 * 2 ^ 52 * (Zpos mp * 2 ^ X) * L).
    { rewrite Hdiff.
      replace (2 ^ 52 * 2 ^ 52 * (r * L) * (D * 2 ^ X))
        with (2 ^ 52 * 2 ^ 52 * (r * D * 2 ^ X) * L) by ring.
      apply Z.mul_le_mono_nonneg_r; [lia|]. apply Z.mul_le_mono_nonneg_l; [lia|].
      apply Z.mul_le_mono_nonneg_r; lia. }
    eapply Z.le_trans; [exact H1|exact Hup].
  - apply (Z.mul_lt_mono_pos_r (2 ^ Y)); [exact PYpos|].
    assert (H1 : 2 ^ 52 * 2 ^ 52 * 2 ^ 52 * (Zpos mp * 2 ^ X) * L
                 < 2 ^ 52 * 2 ^ 52 * 2 ^ 52 * ((r + 1) * L) * 2 ^ Y).
    { rewrite Hdiff.
      replace (2 ^ 52 * 2 ^ 52 * 2 ^ 52 * ((r + 1) * L) * (D * 2 ^ X))
        with (2 ^ 52 * 2 ^ 52 * 2 ^ 52 * ((r + 1) * D * 2 ^ X) * L) by ring.
      apply Z.mul_lt_mono_pos_r; [lia|]. apply Z.mul_lt_mono_pos_l; [lia|].
      apply Z.mul_lt_mono_pos_r; lia. }
    eapply Z.lt_trans; [exact Hlow|exact H1].
Qed.

Lemma floor_from_enclosure (M L w r : Z) :
  0 < M -> M < L -> M <= 2 ^ 16 -> L < 2 ^ 31 -> 0 < w <= L -> 0 <= r ->
  2 ^ 52 * 2 ^ 52 * (r * L) <= (2 ^ 52 + 1) * (2 ^ 52 + 1) * (w * M) ->
  (2 ^ 52 - 1) * (2 ^ 52 - 1) * (2 ^ 52 - 1) * (w * M)
  < 2 ^ 52 * 2 ^ 52 * 2 ^ 52 * ((r + 1) * L) ->
  r = w * M / L \/ (r = w * M / L - 1 /\ (w * M) mod L = 0).
Proof.
  intros HM HML HM16 HL Hw Hr Hup Hlow.
  set (P := w * M) in *.
  set (q := P / L). set (m := P mod L).
  assert (HP : P = L * q + m) by (apply Z.div_mod; lia).
  assert (Hm : 0 <= m < L) by (apply Z.mod_pos_bound; lia).
  assert (HPpos : 0 < P) by (apply Z.mul_pos_pos; lia).
  assert (HPb : P <= 2 ^ 31 * 2 ^ 16).
  { apply Z.mul_le_mono_nonneg; lia. }
  assert (Hq0 : 0 <= q) by (apply Z.div_pos; lia).
  change (2 ^ 31) with 2147483648 in *. change (2 ^ 16) with 65536 in *.
  change (2 ^ 52) with 4503599627370496 in *.
  (* r <= q *)
  assert (Hrq : r <= q).
  { destruct (Z_le_gt_dec r q) as [|Hgt]; [assumption|exfalso].
    assert (H1 : (q + 1) * L <= r * L) by (apply Z.mul_le_mono_nonneg_r; lia).
    replace ((q + 1) * L) with (L * q + L) in H1 by ring.
    set (A := r * L) in *. set (B := L * q) in *. lia. }
  destruct (Z.eq_dec r q) as [|Hne]; [now left|right].
  assert (Hq1 : q - 1 <= r).
  { destruct (Z_le_gt_dec (q - 1) r) as [|Hgt]; [assumption|exfalso].
    assert (H1 : (r + 1) * L <= (q - 1) * L) by (apply Z.mul_le_mono_nonneg_r; lia).
    replace ((q - 1) * L) with (L * q - L) in H1 by ring.
    set (A := (r + 1) * L) in *. set (B := L * q) in *. lia. }
  split; [lia|].
  assert (Hr1 : r + 1 = q) by lia.
  rewrite Hr1 in Hlow. replace (q * L) with (L * q) in Hlow by ring.
  set (B := L * q) in *. lia.
Qed.

(** [int(w * (M / L))] is the quotient [w * M / L] truncated, or one less
    when [L] divides [w * M]: the two roundings can leave the product just
    below a whole number, never above the next one. *)
Lemma scaled_edge_floor (M L w : Z) :
  0 < M -> M < L -> M <= 2 ^ 16 -> L < 2 ^ 31 -> 0 <= w <= L ->
  exists r,
    PyFloat.int (PyFloat.int_mul w (PyFloat.div (PyFloat.of_int M) (PyFloat.of_int L)))
    = Ok r
    /\ (r = w * M / L \/ (r = w * M / L - 1 /\ (w * M) mod L = 0 /\ 0 < w)).
Proof.
  intros HM HML HM16 HL Hw.
  destruct (Z.eq_dec w 0) as [->|Hw0].
  - destruct (scaled_edge_le M L 0) as (r & Er & Hr); try lia.
    exists r. split; [exact Er|]. left.
    assert (H31 : 2 ^ 31 < 2 ^ 53) by (apply Z.pow_lt_mono_r; lia).
    destruct (of_int_pos M) as (mM & eM & EM & HmM & HeM & HvM); [lia|].
    destruct (of_int_pos L) as (mL & eL & EL & HmL & HeL & HvL); [lia|].
    rewrite EM, EL in Er.
    destruct (div_upper mM mL eM eL HmM HmL HeM HeL) as (ms & es & Es & _).
    rewrite Es in Er. cbn in Er. injection Er as <-. reflexivity.
  - destruct (scaled_edge_enclosure M L w) as (r & Er & Hr0 & Hup & Hlow); try lia.
    exists r. split; [exact Er|].
    destruct (floor_from_enclosure M L w r) as [E|[E Em]]; try assumption; try lia.
Qed.

End PyFloat_bounds.

(** ** Image optimization, exactly *)

(** Both scaled edges of a large image. *)
Lemma scaled_edges_floor (w h : Z) :
  0 <= w < 2 ^ 31 -> 0 <= h < 2 ^ 31 -> 3000 < Z.max w h ->
  exists w' h',
    scaled_edge 3000 (Z.max w h) w = Ok w'
    /\ scaled_edge 3000 (Z.max w h) h = Ok h'
    /\ (w' = w * 3000 / Z.max w h
        \/ (w' = w * 3000 / Z.max w h - 1 /\ (w * 3000) mod Z.max w h = 0 /\ 0 < w))
    /\ (h' = h * 3000 / Z.max w h
        \/ (h' = h * 3000 / Z.max w h - 1 /\ (h * 3000) mod Z.max w h = 0 /\ 0 < h)).
Proof.
  intros Hw Hh Hlarge.
  assert (H16 : 3000 <= 2 ^ 16) by (change (2 ^ 16) with 65536; lia).
  destruct (PyFloat_bounds.scaled_edge_floor 3000 (Z.max w h) w) as (w' & Ew & Hw'); try lia.
  destruct (PyFloat_bounds.scaled_edge_floor 3000 (Z.max w h) h) as (h' & Eh & Hh'); try lia.
  exists w', h'. unfold scaled_edge, PyFloat.truediv.
  replace (Z.max w h =? 0) with false by (symmetry; apply Z.eqb_neq; lia).
  auto.
Qed.

Lemma oriented_bounds (im : Image) (b : Z) :
  0 <= width im < b -> 0 <= height im < b ->
  0 <= width (oriented im) < b /\ 0 <= height (oriented im) < b.
Proof.
  intros Hw Hh.
  destruct (oriented_size im) as [E|E]; unfold size in E; injection E as -> ->; lia.
Qed.

Lemma lookup_second (h : heap) (x y : Image) : (h ++ [x; y]) !! S (List.length h) = Some y.
Proof.
  rewrite lookup_app_r by lia.
  now replace (S (List.length h) - List.length h)%nat with 1%nat by lia.
Qed.

Lemma lookup_third (h : heap) (x y z : Image) :
  (h ++ [x; y; z]) !! S (S (List.length h)) = Some z.
Proof.
  rewrite lookup_app_r by lia.
  now replace (S (S (List.length h)) - List.length h)%nat with 2%nat by lia.
Qed.

Lemma floor_le_ceiling (n L : Z) : 0 <= n <= L -> 0 < L -> n * 3000 / L <= 3000.
Proof. intros Hn HL. apply Z.div_le_upper_bound; lia. Qed.

Lemma floor_le_side (n L : Z) : 0 <= n -> 3000 < L -> n * 3000 / L <= n.
Proof.
  intros Hn HL. apply Z.div_le_upper_bound; [lia|].
  rewrite (Z.mul_comm L). apply Z.mul_le_mono_nonneg_l; lia.
Qed.

Lemma floor_long_edge (L : Z) : 0 < L -> L * 3000 / L = 3000.
Proof. intros HL. rewrite Z.mul_comm. apply Z.div_mul. lia. Qed.

(** What a run on a large image returns, with the new size. *)
Lemma optimize_image_scaled (h : heap) (l : loc) (im : Image) :
  h !! l = Some im ->
  0 <= width im < 2 ^ 31 -> 0 <= height im < 2 ^ 31 ->
  let o := oriented im in
  let long_edge := Z.max (width o) (height o) in
  3000 < long_edge ->
  exists w' h',
    (w' = width o * 3000 / long_edge
     \/ (w' = width o * 3000 / long_edge - 1
         /\ (width o * 3000) mod long_edge = 0 /\ 0 < width o))
    /\ (h' = height o * 3000 / long_edge
        \/ (h' = height o * 3000 / long_edge - 1
            /\ (height o * 3000) mod long_edge = 0 /\ 0 < height o))
    /\ optimize_image l h
       = if (w' <? 1) || (h' <? 1) then Raise ValueError
         else Ok ((S (S (List.length h)), 95),
                  h ++ [o; resized (w', h') o; to_rgb (resized (w', h') o)]).
Proof.
  intros Hl Hw Hh o long_edge Hlarge.
  destruct (oriented_bounds im (2 ^ 31) Hw Hh) as [How Hoh]. fold o in How, Hoh.
  destruct (scaled_edges_floor (width o) (height o) How Hoh Hlarge)
    as (w' & h' & Ew & Eh & Fw & Fh).
  fold long_edge in Ew, Eh, Fw, Fh.
  exists w', h'. split; [exact Fw|]. split; [exact Fh|].
  apply optimize_image_large; try assumption.
  unfold size. intros E. injection E as E1 E2.
  pose proof (floor_le_ceiling (width o) long_edge) as Hqw.
  pose proof (floor_le_ceiling (height o) long_edge) as Hqh.
  unfold long_edge, o in *. lia.
Qed.

(** A run that returns has added two or three objects to the store and
    returns the last of them. *)
Lemma optimize_image_allocates (h : heap) (l : loc) (out : loc) (q : Z) (h1 : heap) :
  optimize_image l h = Ok ((out, q), h1) ->
  exists im new,
    h !! l = Some im
    /\ h1 = h ++ new
    /\ (2 <= List.length new <= 3)%nat
    /\ out = (List.length h1 - 1)%nat
    /\ q = 95.
Proof.
  unfold optimize_image, optimize_image_with. intros Hrun.
  destruct (h !! l) as [im|] eqn:Hl.
  2:{ unfold exif_transpose in Hrun. unfold mbind at 1, PIL_bind at 1 in Hrun.
      unfold mbind at 1, PIL_bind at 1 in Hrun. unfold load at 1 in Hrun.
      rewrite Hl in Hrun. discriminate. }
  exists im.
  rewrite (bind_Ok _ _ _ _ _ (exif_transpose_spec _ _ _ Hl)) in Hrun.
  set (o := oriented im) in *.
  rewrite (bind_Ok _ _ _ _ _ (load_Some _ _ _ (lookup_fresh h _))) in Hrun.
  cbn [size] in Hrun.
  destruct (Z.max (width o) (height o) >? 3000).
  - unfold mbind at 1, PIL_bind at 1 in Hrun.
    match type of Hrun with
    | context [match ?m (h ++ [o]) with _ => _ end] => set (resize := m) in *
    end.
    assert (Hresize : forall r h2, resize (h ++ [o]) = Ok (r, h2) ->
                                   exists x, r = S (List.length h) /\ h2 = h ++ [o; x]).
    { subst resize. intros r h2.
      destruct (PyFloat.truediv 3000 (Z.max (width o) (height o))) as [scale|e];
        [|discriminate].
      rewrite (bind_Ok _ _ _ _ _ (lift_Ok _ _ _ eq_refl)).
      destruct (PyFloat.int (PyFloat.int_mul (width o) scale)) as [w'|e]; [|discriminate].
      rewrite (bind_Ok _ _ _ _ _ (lift_Ok _ _ _ eq_refl)).
      destruct (PyFloat.int (PyFloat.int_mul (height o) scale)) as [h'|e]; [|discriminate].
      rewrite (bind_Ok _ _ _ _ _ (lift_Ok _ _ _ eq_refl)).
      unfold Image_resize.
      rewrite (bind_Ok _ _ _ _ _ (load_Some _ _ _ (lookup_fresh h _))).
      destruct (decide (size o = (w', h'))).
      - unfold alloc. intros E. injection E as <- <-. exists o.
        rewrite length_app, Nat.add_1_r, <- app_assoc. auto.
      - destruct ((fst (w', h') <? 1) || (snd (w', h') <? 1)); [discriminate|].
        unfold alloc. intros E. injection E as <- <-. eexists.
        rewrite length_app, Nat.add_1_r, <- app_assoc. split; reflexivity. }
    destruct (resize (h ++ [o])) as [[r h2]|e]; [|discriminate].
    destruct (Hresize r h2 eq_refl) as (x & -> & ->).
    rewrite (bind_Ok _ _ _ _ _ (Image_convert_spec _ _ _ (lookup_second h o x))) in Hrun.
    unfold mret, PIL_ret in Hrun. injection Hrun as <- <- <-.
    exists [o; x; to_rgb x]. split; [reflexivity|].
    split; [now rewrite <- app_assoc|]. split; [cbn; lia|].
    split; [|reflexivity]. rewrite !length_app. cbn. lia.
  - erewrite bind_Ok in Hrun by reflexivity.
    rewrite (bind_Ok _ _ _ _ _ (Image_convert_spec _ _ _ (lookup_fresh h _))) in Hrun.
    unfold mret, PIL_ret in Hrun. injection Hrun as <- <- <-.
    exists [o; to_rgb o]. split; [reflexivity|].
    split; [now rewrite <- app_assoc|]. split; [cbn; lia|].
    split; [|reflexivity]. rewrite !length_app. cbn. lia.
Qed.

Lemma optimize_image_extends (h : heap) (l : loc) (out : loc) (q : Z) (h1 : heap) :
  optimize_image l h = Ok ((out, q), h1) ->
  exists new, h1 = h ++ new /\ (List.length h < out)%nat.
Proof.
  intros Hrun.
  destruct (optimize_image_allocates h l out q h1 Hrun)
    as (im & new & _ & E & Hlen & Hout & _).
  exists new. split; [exact E|]. subst h1. rewrite length_app in Hout. lia.
Qed.

(** X1: a run of [optimize_image] that returns leaves every object of the
    store as it was, the upload included; the image it returns is a new
    object, the last of the two or three it has created; the quality it
    returns is 95. *)
Theorem optimize_image_frame (h : heap) (l : loc) (out : loc) (q : Z) (h1 : heap) :
  optimize_image l h = Ok ((out, q), h1) ->
  (forall l' x, h !! l' = Some x -> h1 !! l' = Some x)
  /\ h !! out = None
  /\ is_Some (h1 !! out)
  /\ (List.length h + 2 <= List.length h1 <= List.length h + 3)%nat
  /\ out = (List.length h1 - 1)%nat
  /\ q = 95.
Proof.
  intros Hrun.
  destruct (optimize_image_allocates h l out q h1 Hrun)
    as (im & new & _ & -> & Hlen & Hout & Hq).
  rewrite length_app in Hout |- *.
  split; [intros l' x Hx; now apply lookup_app_l_Some|].
  split; [apply lookup_ge_None; lia|].
  split; [apply lookup_lt_is_Some; rewrite length_app; lia|].
  split; [lia|]. split; [exact Hout|exact Hq].
Qed.

(** The photo 4177 pixels wide: three new objects, the last one
    returned. *)
Lemma optimize_image_frame_witness :
  (forall l' x, [wide_photo] !! l' = Some x -> optimized_wide !! l' = Some x)
  /\ [wide_photo] !! 3%nat = None
  /\ is_Some (optimized_wide !! 3%nat)
  /\ (List.length [wide_photo] + 2 <= List.length optimized_wide
      <= List.length [wide_photo] + 3)%nat
  /\ 3%nat = (List.length optimized_wide - 1)%nat
  /\ 95 = 95.
Proof.
  apply (optimize_image_frame [wide_photo] 0%nat 3%nat 95 optimized_wide).
  vm_compute. reflexivity.
Defined.

(** X2: when the longer edge (after the EXIF orientation is applied, sides
    below 2^31) exceeds 3000 and [optimize_image] returns, each side of the
    result is the side times 3000 divided by the longer edge, rounded down,
    or one less than that when the division leaves no remainder; the
    longer edge of the result is therefore 2999 or 3000. *)
Theorem optimize_image_scaled_size (h : heap) (l : loc) (im : Image)
        (out : loc) (q : Z) (h1 : heap) :
  h !! l = Some im ->
  0 <= width im < 2 ^ 31 -> 0 <= height im < 2 ^ 31 ->
  let o := oriented im in
  let long_edge := Z.max (width o) (height o) in
  3000 < long_edge ->
  optimize_image l h = Ok ((out, q), h1) ->
  exists p,
    h1 !! out = Some p
    /\ (width p = width o * 3000 / long_edge
        \/ (width p = width o * 3000 / long_edge - 1
            /\ (width o * 3000) mod long_edge = 0))
    /\ (height p = height o * 3000 / long_edge
        \/ (height p = height o * 3000 / long_edge - 1
            /\ (height o * 3000) mod long_edge = 0))
    /\ 2999 <= Z.max (width p) (height p) <= 3000.
Proof.
  intros Hl Hw Hh o long_edge Hlarge Hrun.
  destruct (optimize_image_scaled h l im Hl Hw Hh Hlarge) as (w' & h' & Fw & Fh & E).
  fold o long_edge in Fw, Fh, E. rewrite E in Hrun.
  destruct ((w' <? 1) || (h' <? 1)); [discriminate|].
  injection Hrun as <- <- <-.
  exists (to_rgb (resized (w', h') o)).
  split; [apply lookup_third|].
  pose proof (to_rgb_size (resized (w', h') o)) as Es.
  unfold size in Es. injection Es as -> ->. cbn [resized width height fst snd].
  split; [tauto|]. split; [tauto|].
  destruct (oriented_bounds im (2 ^ 31) Hw Hh) as [How Hoh]. fold o in How, Hoh.
  pose proof (floor_le_side (width o) long_edge) as Lw.
  pose proof (floor_le_side (height o) long_edge) as Lh.
  pose proof (floor_le_ceiling (width o) long_edge) as Hqw.
  pose proof (floor_le_ceiling (height o) long_edge) as Hqh.
  pose proof (floor_long_edge long_edge) as Hlong.
  unfold long_edge in *.
  destruct (Z.max_spec (width o) (height o)) as [[Hlt Emax]|[Hle Emax]];
    rewrite Emax in *; lia.
Qed.

(** The photo 4177 by 3000: it comes out 2999 by 2154. *)
Lemma optimize_image_scaled_size_witness :
  exists p,
    [wide_photo; wide_photo; resized (2999, 2154) wide_photo;
     resized (2999, 2154) wide_photo] !! 3%nat = Some p
    /\ (width p = 4177 * 3000 / 4177
        \/ (width p = 4177 * 3000 / 4177 - 1 /\ (4177 * 3000) mod 4177 = 0))
    /\ (height p = 3000 * 3000 / 4177
        \/ (height p = 3000 * 3000 / 4177 - 1 /\ (3000 * 3000) mod 4177 = 0))
    /\ 2999 <= Z.max (width p) (height p) <= 3000.
Proof.
  apply (optimize_image_scaled_size [wide_photo] 0%nat wide_photo 3%nat 95).
  - reflexivity.
  - cbn. lia.
  - cbn. lia.
  - cbn. lia.
  - vm_compute. reflexivity.
Defined.

(** X3: [optimize_image] never enlarges: whenever it returns (sides below
    2^31), neither side of the result exceeds the side of the oriented
    input; when the longer edge exceeds 3000 both sides of the result are
    at least 1 and one of them is strictly smaller than before. *)
Theorem optimize_image_never_enlarges (h : heap) (l : loc) (im : Image)
        (out : loc) (q : Z) (h1 : heap) :
  h !! l = Some im ->
  0 <= width im < 2 ^ 31 -> 0 <= height im < 2 ^ 31 ->
  optimize_image l h = Ok ((out, q), h1) ->
  exists p,
    h1 !! out = Some p
    /\ 0 <= width p <= width (oriented im)
    /\ 0 <= height p <= height (oriented im)
    /\ (3000 < Z.max (width (oriented im)) (height (oriented im)) ->
        1 <= width p /\ 1 <= height p
        /\ (width p < width (oriented im) \/ height p < height (oriented im))).
Proof.
  intros Hl Hw Hh Hrun.
  set (o := oriented im).
  destruct (oriented_bounds im (2 ^ 31) Hw Hh) as [How Hoh]. fold o in How, Hoh.
  destruct (Z_le_gt_dec (Z.max (width o) (height o)) 3000) as [Hsmall|Hlarge].
  - rewrite (optimize_image_small h l im Hl Hsmall) in Hrun.
    injection Hrun as <- <- <-.
    exists (to_rgb o). split; [apply lookup_second|].
    pose proof (to_rgb_size o) as Es. unfold size in Es. injection Es as -> ->.
    split; [lia|]. split; [lia|]. intros H. fold o in H. lia.
  - assert (Hlarge' : 3000 < Z.max (width o) (height o)) by lia.
    destruct (optimize_image_scaled h l im Hl Hw Hh Hlarge') as (w' & h' & Fw & Fh & E).
    fold o in Fw, Fh, E. rewrite E in Hrun.
    destruct ((w' <? 1) || (h' <? 1)) eqn:Epos; [discriminate|].
    apply orb_false_iff in Epos. destruct Epos as [Pw Ph].
    apply Z.ltb_ge in Pw, Ph.
    injection Hrun as <- <- <-.
    exists (to_rgb (resized (w', h') o)).
    split; [apply lookup_third|].
    pose proof (to_rgb_size (resized (w', h') o)) as Es.
    unfold size in Es. injection Es as -> ->. cbn [resized width height fst snd].
    pose proof (floor_le_side (width o) (Z.max (width o) (height o))) as Lw.
    pose proof (floor_le_side (height o) (Z.max (width o) (height o))) as Lh.
    pose proof (floor_le_ceiling (width o) (Z.max (width o) (height o))) as Hqw.
    pose proof (floor_le_ceiling (height o) (Z.max (width o) (height o))) as Hqh.
    split; [lia|]. split; [lia|]. intros _.
    split; [lia|]. split; [lia|]. lia.
Qed.

Lemma optimize_image_never_enlarges_witness :
  exists p,
    [wide_photo; wide_photo; resized (2999, 2154) wide_photo;
     resized (2999, 2154) wide_photo] !! 3%nat = Some p
    /\ 0 <= width p <= 4177 /\ 0 <= height p <= 3000.
Proof.
  destruct (optimize_image_never_enlarges [wide_photo] 0%nat wide_photo 3%nat 95
              [wide_photo; wide_photo; resized (2999, 2154) wide_photo;
               resized (2999, 2154) wide_photo])
    as (p & Hp & Hw & Hh & _).
  - reflexivity.
  - cbn. lia.
  - cbn. lia.
  - vm_compute. reflexivity.
  - exists p. auto.
Defined.

(** X4: an image whose longer edge exceeds 3000 and is more than 3000
    times its shorter edge is refused: the shorter edge is scaled to 0 and
    [Image.resize] raises [ValueError]. *)
Theorem optimize_image_sliver_fails (h : heap) (l : loc) (im : Image) :
  h !! l = Some im ->
  0 <= width im < 2 ^ 31 -> 0 <= height im < 2 ^ 31 ->
  3000 < Z.max (width im) (height im) ->
  3000 * Z.min (width im) (height im) < Z.max (width im) (height im) ->
  optimize_image l h = Raise ValueError.
Proof.
  intros Hl Hw Hh Hlarge Hthin.
  set (o := oriented im).
  assert (Hmax : Z.max (width o) (height o) = Z.max (width im) (height im)
                 /\ Z.min (width o) (height o) = Z.min (width im) (height im)).
  { destruct (oriented_size im) as [E|E]; fold o in E; unfold size in E;
      injection E as -> ->; lia. }
  destruct Hmax as [Emax Emin].
  assert (Hlarge' : 3000 < Z.max (width o) (height o)) by lia.
  destruct (oriented_bounds im (2 ^ 31) Hw Hh) as [How Hoh]. fold o in How, Hoh.
  destruct (optimize_image_scaled h l im Hl Hw Hh Hlarge') as (w' & h' & Fw & Fh & E).
  fold o in Fw, Fh, E. rewrite E.
  replace ((w' <? 1) || (h' <? 1)) with true; [reflexivity|].
  symmetry. apply orb_true_iff.
  set (L := Z.max (width o) (height o)) in *.
  assert (Hz : forall n, 0 <= n -> 3000 * n < L -> n * 3000 / L = 0).
  { intros n Hn Hlt. apply Z.div_small. lia. }
  destruct (Z.min_spec (width o) (height o)) as [[_ Em]|[_ Em]].
  - left. apply Z.ltb_lt. rewrite (Hz (width o)) in Fw by lia. lia.
  - right. apply Z.ltb_lt. rewrite (Hz (height o)) in Fh by lia. lia.
Qed.

(** An upload 1 pixel wide and 3001 pixels high. *)
Lemma optimize_image_sliver_fails_witness :
  optimize_image 0%nat [photo 0 1 3001] = Raise ValueError.
Proof.
  apply (optimize_image_sliver_fails [photo 0 1 3001] 0%nat (photo 0 1 3001)).
  - reflexivity.
  - cbn. lia.
  - cbn. lia.
  - cbn. lia.
  - cbn. lia.
Defined.

(** X5: every other image in the store (sides below 2^31) is accepted:
    when the longer edge is at most 3000, or is less than 3000 times the
    shorter edge, [optimize_image] returns an RGB image with quality
    95. *)
Theorem optimize_image_succeeds (h : heap) (l : loc) (im : Image) :
  h !! l = Some im ->
  0 <= width im < 2 ^ 31 -> 0 <= height im < 2 ^ 31 ->
  Z.max (width im) (height im) <= 3000
  \/ Z.max (width im) (height im) < 3000 * Z.min (width im) (height im) ->
  exists out h1 p,
    optimize_image l h = Ok ((out, 95), h1)
    /\ h1 !! out = Some p /\ mode p = "RGB".
Proof.
  intros Hl Hw Hh Hok.
  set (o := oriented im).
  assert (Hmax : Z.max (width o) (height o) = Z.max (width im) (height im)
                 /\ Z.min (width o) (height o) = Z.min (width im) (height im)).
  { destruct (oriented_size im) as [E|E]; fold o in E; unfold size in E;
      injection E as -> ->; lia. }
  destruct Hmax as [Emax Emin].
  destruct (oriented_bounds im (2 ^ 31) Hw Hh) as [How Hoh]. fold o in How, Hoh.
  destruct (Z_le_gt_dec (Z.max (width o) (height o)) 3000) as [Hsmall|Hlarge].
  - exists (S (List.length h)), (h ++ [o; to_rgb o]), (to_rgb o).
    split; [now apply optimize_image_small|].
    split; [apply lookup_second|apply to_rgb_mode].
  - assert (Hlarge' : 3000 < Z.max (width o) (height o)) by lia.
    destruct (optimize_image_scaled h l im Hl Hw Hh Hlarge') as (w' & h' & Fw & Fh & E).
    fold o in Fw, Fh, E.
    set (L := Z.max (width o) (height o)) in *.
    assert (Hthick : L < 3000 * Z.min (width o) (height o)) by lia.
    assert (Hone : forall n, Z.min (width o) (height o) <= n ->
                             1 <= n * 3000 / L
                             /\ (n * 3000 mod L = 0 -> 2 <= n * 3000 / L)).
    { intros n Hn.
      assert (H1 : 1 <= n * 3000 / L) by (apply Z.div_le_lower_bound; lia).
      split; [exact H1|]. intros Hm.
      pose proof (Z.div_mod (n * 3000) L) as Hdm. rewrite Hm in Hdm.
      destruct (Z.eq_dec (n * 3000 / L) 1) as [E1|]; [|lia].
      rewrite E1 in Hdm. lia. }
    destruct (Hone (width o)) as [W1 W2]; [lia|].
    destruct (Hone (height o)) as [H1 H2]; [lia|].
    replace ((w' <? 1) || (h' <? 1)) with false in E.
    2:{ symmetry. apply orb_false_iff. split; apply Z.ltb_ge; lia. }
    exists (S (S (List.length h))),
      (h ++ [o; resized (w', h') o; to_rgb (resized (w', h') o)]),
      (to_rgb (resized (w', h') o)).
    split; [exact E|]. split; [apply lookup_third|apply to_rgb_mode].
Qed.

Lemma optimize_image_succeeds_witness :
  exists out h1 p,
    optimize_image 0%nat [wide_photo] = Ok ((out, 95), h1)
    /\ h1 !! out = Some p /\ mode p = "RGB".
Proof.
  apply (optimize_image_succeeds [wide_photo] 0%nat wide_photo).
  - reflexivity.
  - cbn. lia.
  - cbn. lia.
  - right. cbn. lia.
Defined.

(** ** Session state *)

Lemma init_photos_fold (cats : list string) :
  forall (p : gmap string (list (option loc))) (cat : string),
    fold_left (fun st c =>
                 match st !! c with
                 | Some _ => st
                 | None => <[c := replicate MAX_PHOTOS None]> st
                 end) cats p !! cat
    = match p !! cat with
      | Some slots => Some slots
      | None => if decide (cat ∈ cats) then Some (replicate MAX_PHOTOS None) else None
      end.
Proof.
  induction cats as [|c cats IH]; intros p cat; cbn [fold_left].
  - destruct (p !! cat); [reflexivity|].
    destruct (decide (cat ∈ [])) as [H|_]; [|reflexivity]. inversion H.
  - rewrite IH. destruct (p !! c) eqn:Ec.
    + destruct (p !! cat) eqn:Ecat; [reflexivity|].
      assert (cat <> c) by congruence.
      destruct (decide (cat ∈ cats)) as [Hin|Hin];
        destruct (decide (cat ∈ c :: cats)) as [Hin'|Hin']; try reflexivity.
      * exfalso. apply Hin'. now apply list_elem_of_further.
      * apply elem_of_cons in Hin'. destruct Hin'; congruence.
    + destruct (decide (c = cat)) as [->|Hne].
      * rewrite lookup_insert_eq, Ec.
        destruct (decide (cat ∈ cat :: cats)) as [_|Hin']; [reflexivity|].
        exfalso. apply Hin'. apply list_elem_of_here.
      * rewrite lookup_insert_ne by exact Hne.
        destruct (p !! cat); [reflexivity|].
        destruct (decide (cat ∈ cats)) as [Hin|Hin];
          destruct (decide (cat ∈ c :: cats)) as [Hin'|Hin']; try reflexivity.
        -- exfalso. apply Hin'. now apply list_elem_of_further.
        -- apply elem_of_cons in Hin'. destruct Hin'; congruence.
Qed.

Lemma init_photos_present (p : gmap string (list (option loc))) :
  Forall (fun cat => is_Some (init_photos p !! cat)) CATEGORIES.
Proof.
  apply Forall_forall. intros cat Hin. unfold init_photos.
  rewrite init_photos_fold. destruct (p !! cat); [eauto|].
  destruct (decide (cat ∈ CATEGORIES)); [eauto|contradiction].
Qed.

Lemma init_photos_same (p : gmap string (list (option loc))) :
  Forall (fun cat => is_Some (p !! cat)) CATEGORIES -> init_photos p = p.
Proof.
  intros H. apply map_eq. intros cat. unfold init_photos. rewrite init_photos_fold.
  destruct (p !! cat) eqn:E; [reflexivity|].
  destruct (decide (cat ∈ CATEGORIES)) as [Hin|]; [|reflexivity].
  rewrite Forall_forall in H. destruct (H cat Hin) as [x Hx]. congruence.
Qed.

(** X6: after the initialisation a key that was present keeps its list,
    a missing category name holds five empty slots, and no other key is
    created. *)
Theorem init_photos_lookup (p : gmap string (list (option loc))) (cat : string) :
  init_photos p !! cat
  = match p !! cat with
    | Some slots => Some slots
    | None => if decide (cat ∈ CATEGORIES) then Some (replicate MAX_PHOTOS None) else None
    end.
Proof. apply init_photos_fold. Qed.

(** X7: when every category already has its key, as on every rerun of the
    script, the initialisation changes nothing: photos taken earlier stay
    in their slots. *)
Theorem init_photos_rerun (p : gmap string (list (option loc))) :
  Forall (fun cat => is_Some (p !! cat)) CATEGORIES -> init_photos p = p.
Proof. apply init_photos_same. Qed.

(** The two sample photos survive a rerun. *)
Lemma init_photos_rerun_witness : init_photos sample_photos = sample_photos.
Proof.
  apply (init_photos_rerun sample_photos).
  unfold CATEGORIES.
  repeat (apply Forall_cons; split; [eexists; vm_compute; reflexivity|]).
  apply Forall_nil. exact I.
Defined.

(** X8: in a session that holds none of the category keys, the
    initialisation gives every category five empty slots, and Preview
    Final Draft then stops with its message instead of failing on a
    missing key. *)
Theorem init_photos_fresh (p : gmap string (list (option loc))) (s : Session) (h : heap) :
  Forall (fun cat => p !! cat = None) CATEGORIES ->
  initialised (init_photos p)
  /\ no_photo (init_photos p)
  /\ preview_final_draft (mkSession (draft s) (preview_ready s) (init_photos p)) h
     = Stopped "Please take/upload at least one photo."
               (mkSession (draft s) (preview_ready s) (init_photos p)) h.
Proof.
  intros Hfresh.
  assert (Hslots : Forall (fun cat => init_photos p !! cat
                                       = Some (replicate MAX_PHOTOS None)) CATEGORIES).
  { rewrite Forall_forall in Hfresh |- *. intros cat Hin.
    unfold init_photos. rewrite init_photos_fold, (Hfresh cat Hin).
    destruct (decide (cat ∈ CATEGORIES)); [reflexivity|contradiction]. }
  assert (Hnone : no_photo (init_photos p)).
  { unfold no_photo. eapply Forall_impl; [exact Hslots|].
    intros cat E. cbv beta. exists (replicate MAX_PHOTOS None). split; [exact E|].
    repeat constructor. }
  split; [|split; [exact Hnone|]].
  - unfold initialised. eapply Forall_impl; [exact Hslots|].
    intros cat E. cbv beta. exists (replicate MAX_PHOTOS None). split; [exact E|reflexivity].
  - unfold preview_final_draft. cbn [photos].
    now rewrite (collect_draft_empty (init_photos p) CATEGORIES Hnone []).
Qed.

Lemma init_photos_fresh_witness :
  initialised (init_photos ∅) /\ no_photo (init_photos ∅).
Proof.
  destruct (init_photos_fresh ∅ new_session []) as (H1 & H2 & _).
  - unfold CATEGORIES. repeat constructor.
  - split; assumption.
Defined.

(** ** Preview Final Draft *)

Lemma collect_draft_raises (photos : gmap string (list (option loc))) (cats : list string) :
  forall (draft : list DraftEntry) (e : exn),
    collect_draft photos cats draft = Raise e
    <-> e = KeyError /\ Exists (fun cat => photos !! cat = None) cats.
Proof.
  induction cats as [|cat cats IH]; intros draft e; cbn [collect_draft].
  - split; [discriminate|]. intros [_ H]. inversion H.
  - destruct (photos !! cat) as [slots|] eqn:E.
    + rewrite IH. split; intros [He Hex]; (split; [exact He|]).
      * now apply Exists_cons_tl.
      * apply Exists_cons in Hex. destruct Hex as [Hex|Hex]; [congruence|exact Hex].
    + split.
      * intros H. injection H as <-. split; [reflexivity|]. now apply Exists_cons_hd.
      * intros [-> _]. reflexivity.
Qed.

(** X9: Preview Final Draft lets an exception escape exactly when the
    session lacks the key of a category, and the exception is then
    [KeyError]. *)
Theorem preview_fails_iff (s : Session) (h : heap) (e : exn) :
  preview_final_draft s h = Failed e
  <-> e = KeyError /\ Exists (fun cat => photos s !! cat = None) CATEGORIES.
Proof.
  unfold preview_final_draft. rewrite <- collect_draft_raises with (draft := []).
  destruct (collect_draft (photos s) CATEGORIES []) as [[|x d]|e'].
  - split; discriminate.
  - split; discriminate.
  - split; intros H; injection H as ->; reflexivity.
Qed.

(** X10: once the initialisation has run, Preview Final Draft cannot
    fail: it stops with its message, or it stores a non-empty draft and
    sets the flag, leaving slots and store alone. *)
Theorem preview_after_init (s : Session) (h : heap) :
  let s0 := mkSession (draft s) (preview_ready s) (init_photos (photos s)) in
  preview_final_draft s0 h = Stopped "Please take/upload at least one photo." s0 h
  \/ exists e d,
       preview_final_draft s0 h = Done tt (mkSession (e :: d) true (photos s0)) h.
Proof.
  intros s0. unfold preview_final_draft. subst s0. cbn [photos].
  rewrite collect_draft_spec by apply init_photos_present.
  destruct (_ ++ _) as [|e d]; [now left|right]. now exists e, d.
Qed.

(** ** Camera inputs *)

Lemma camera_input_spec (cat : string) (i : nat) (raw : loc) (s : Session) (h : heap)
      (slots : list (option loc)) (out : loc) (q : Z) (h1 : heap) :
  photos s !! cat = Some slots -> (i < List.length slots)%nat ->
  optimize_image raw h = Ok ((out, q), h1) ->
  camera_input cat i raw s h
  = Ok (mkSession (draft s) (preview_ready s)
                  (<[cat := <[i := Some out]> slots]> (photos s)), h1).
Proof.
  intros Hc Hi Hrun. unfold camera_input.
  rewrite (bind_Ok _ _ _ _ _ Hrun), Hc. cbn [fst].
  destruct (decide (i < List.length slots)%nat); [reflexivity|contradiction].
Qed.

Lemma camera_input_inv (cat : string) (i : nat) (raw : loc) (s s' : Session)
      (h h1 : heap) :
  camera_input cat i raw s h = Ok (s', h1) ->
  exists out q slots,
    optimize_image raw h = Ok ((out, q), h1)
    /\ photos s !! cat = Some slots /\ (i < List.length slots)%nat
    /\ s' = mkSession (draft s) (preview_ready s)
                      (<[cat := <[i := Some out]> slots]> (photos s)).
Proof.
  unfold camera_input. unfold mbind at 1, PIL_bind at 1.
  destruct (optimize_image raw h) as [[[out q] h2]|e]; [|discriminate].
  destruct (photos s !! cat) as [slots|]; [|discriminate].
  cbn [fst]. destruct (decide (i < List.length slots)%nat); [|discriminate].
  intros E. injection E as <- <-. exists out, q, slots. auto.
Qed.

Lemma slot_insert_eq (photos : gmap string (list (option loc))) (cat : string)
      (slots : list (option loc)) (i : nat) (o : option loc) :
  (i < List.length slots)%nat ->
  slot (<[cat := <[i := o]> slots]> photos) cat i = o.
Proof.
  intros Hi. unfold slot. rewrite lookup_insert_eq.
  now rewrite list_lookup_insert_eq by exact Hi.
Qed.

Lemma slot_insert_ne (photos : gmap string (list (option loc))) (cat cat' : string)
      (slots : list (option loc)) (i j : nat) (o : option loc) :
  photos !! cat = Some slots -> (cat', j) <> (cat, i) ->
  slot (<[cat := <[i := o]> slots]> photos) cat' j = slot photos cat' j.
Proof.
  intros Hc Hne. unfold slot.
  destruct (decide (cat = cat')) as [<-|Hcat].
  - rewrite lookup_insert_eq, Hc.
    rewrite list_lookup_insert_ne; [reflexivity|]. intros ->. now apply Hne.
  - now rewrite lookup_insert_ne by exact Hcat.
Qed.

Lemma initialised_insert (photos : gmap string (list (option loc))) (cat : string)
      (slots : list (option loc)) (i : nat) (o : option loc) :
  initialised photos -> photos !! cat = Some slots ->
  initialised (<[cat := <[i := o]> slots]> photos).
Proof.
  intros Hi Hc. unfold initialised in *. eapply Forall_impl; [exact Hi|].
  intros c (sl & Hsl & Hlen). cbv beta.
  destruct (decide (cat = c)) as [<-|Hne].
  - exists (<[i := o]> slots). rewrite lookup_insert_eq. split; [reflexivity|].
    rewrite length_insert. congruence.
  - exists sl. now rewrite lookup_insert_ne by exact Hne.
Qed.

Lemma initialised_lookup (photos : gmap string (list (option loc))) (cat : string) :
  initialised photos -> cat ∈ CATEGORIES ->
  exists slots, photos !! cat = Some slots /\ List.length slots = MAX_PHOTOS.
Proof. intros Hi Hin. unfold initialised in Hi. rewrite Forall_forall in Hi. auto. Qed.

(** X11: a photo taken for slot [i] of a category (the session being
    initialised and [optimize_image] returning) puts the optimized image
    into that slot, replacing what it held; every other slot, the draft and
    the flag stay as they were, and every category still has its five
    slots. *)
Theorem camera_input_sets_slot (cat : string) (i : nat) (raw : loc) (s : Session)
        (h : heap) (out : loc) (q : Z) (h1 : heap) :
  initialised (photos s) -> cat ∈ CATEGORIES -> (i < MAX_PHOTOS)%nat ->
  optimize_image raw h = Ok ((out, q), h1) ->
  exists s',
    camera_input cat i raw s h = Ok (s', h1)
    /\ slot (photos s') cat i = Some out
    /\ (forall cat' j, (cat', j) <> (cat, i) ->
                       slot (photos s') cat' j = slot (photos s) cat' j)
    /\ draft s' = draft s
    /\ preview_ready s' = preview_ready s
    /\ initialised (photos s').
Proof.
  intros Hi Hin Hlt Hrun.
  destruct (initialised_lookup _ _ Hi Hin) as (slots & Hc & Hlen).
  eexists. split.
  { apply (camera_input_spec cat i raw s h slots out q h1 Hc); [lia|exact Hrun]. }
  cbn [photos draft preview_ready].
  split; [apply slot_insert_eq; lia|].
  split; [intros cat' j Hne; now apply slot_insert_ne|].
  split; [reflexivity|]. split; [reflexivity|].
  now apply initialised_insert.
Qed.

(** A large photo taken for the second CPU slot of a new session. *)
Lemma camera_input_sets_slot_witness :
  exists s',
    camera_input "CPU" 1 0%nat new_session [wide_photo]
    = Ok (s', [wide_photo; wide_photo; resized (2999, 2154) wide_photo;
               resized (2999, 2154) wide_photo])
    /\ slot (photos s') "CPU" 1 = Some 3%nat.
Proof.
  destruct (camera_input_sets_slot "CPU" 1 0%nat new_session [wide_photo] 3%nat 95
              [wide_photo; wide_photo; resized (2999, 2154) wide_photo;
               resized (2999, 2154) wide_photo])
    as (s' & Hrun & Hslot & _).
  - unfold initialised, CATEGORIES.
    repeat (apply Forall_cons; split;
            [eexists; split; [vm_compute; reflexivity|reflexivity]|]).
    apply Forall_nil. exact I.
  - unfold CATEGORIES. do 6 apply list_elem_of_further. apply list_elem_of_here.
  - unfold MAX_PHOTOS. lia.
  - vm_compute. reflexivity.
  - exists s'. split; assumption.
Defined.

(** X12: after a capture (upload with sides below 2^31) the slot holds a
    new object of the store, an RGB image whose longer edge is at most
    3000; the upload and all earlier photos are unchanged. *)
Theorem camera_input_stores_prepared (cat : string) (i : nat) (raw : loc) (im : Image)
        (s s' : Session) (h h1 : heap) :
  h !! raw = Some im ->
  0 <= width im < 2 ^ 31 -> 0 <= height im < 2 ^ 31 ->
  camera_input cat i raw s h = Ok (s', h1) ->
  exists out p,
    slot (photos s') cat i = Some out
    /\ h1 !! out = Some p
    /\ mode p = "RGB"
    /\ Z.max (width p) (height p) <= 3000
    /\ h !! out = None
    /\ (forall l x, h !! l = Some x -> h1 !! l = Some x).
Proof.
  intros Hl Hw Hh Hrun.
  destruct (camera_input_inv _ _ _ _ _ _ _ Hrun) as (out & q & slots & Hopt & Hc & Hi & ->).
  destruct (optimize_image_result h raw im out q h1 Hl Hw Hh Hopt)
    as (p & Hp & _ & Hmode & _ & Hmax).
  destruct (optimize_image_extends h raw out q h1 Hopt) as (new & -> & Hfresh).
  exists out, p. cbn [photos].
  split; [now apply slot_insert_eq|].
  split; [exact Hp|]. split; [exact Hmode|]. split; [exact Hmax|].
  split; [apply lookup_ge_None; lia|].
  intros l x Hx. now apply lookup_app_l_Some.
Qed.

Lemma camera_input_stores_prepared_witness :
  exists out p,
    slot (photos (mkSession [] false
                    (<["CPU" := <[1%nat := Some 3%nat]> (replicate MAX_PHOTOS None)]>
                       (init_photos ∅)))) "CPU" 1 = Some out
    /\ [wide_photo; wide_photo; resized (2999, 2154) wide_photo;
        resized (2999, 2154) wide_photo] !! out = Some p
    /\ mode p = "RGB"
    /\ Z.max (width p) (height p) <= 3000
    /\ [wide_photo] !! out = None
    /\ (forall l x, [wide_photo] !! l = Some x ->
                    [wide_photo; wide_photo; resized (2999, 2154) wide_photo;
                     resized (2999, 2154) wide_photo] !! l = Some x).
Proof.
  apply (camera_input_stores_prepared "CPU" 1 0%nat wide_photo new_session).
  - reflexivity.
  - cbn. lia.
  - cbn. lia.
  - vm_compute. reflexivity.
Defined.

(** ** The draft, entry by entry *)

Lemma spec_draft_elem (photos : gmap string (list (option loc))) (e : DraftEntry) :
  e ∈ spec_draft photos
  <-> include e = true /\ label e ∈ CATEGORIES
      /\ exists i, (i < MAX_PHOTOS)%nat /\ slot photos (label e) i = Some (image e).
Proof.
  unfold spec_draft. rewrite list_elem_of_In, in_flat_map. split.
  - intros (cat & Hcat & He). apply in_flat_map in He. destruct He as (i & Hi & He).
    apply in_seq in Hi.
    destruct (slot photos cat i) as [img|] eqn:Es; [|destruct He].
    destruct He as [<-|[]]. cbn [include label image].
    split; [reflexivity|]. split; [now apply list_elem_of_In|].
    exists i. split; [lia|exact Es].
  - intros (Hinc & Hcat & i & Hi & Es). exists (label e).
    split; [now apply list_elem_of_In|].
    apply in_flat_map. exists i. split; [apply in_seq; lia|].
    rewrite Es. left. destruct e as [inc img lbl]. cbn in *. now subst inc.
Qed.

Lemma flat_map_length_le {A B} (f : A -> list B) (k : nat) (l : list A) :
  (forall x, List.length (f x) <= k)%nat ->
  (List.length (flat_map f l) <= k * List.length l)%nat.
Proof.
  intros Hf. induction l as [|x l IH]; cbn [flat_map List.length]; [lia|].
  rewrite length_app. specialize (Hf x). lia.
Qed.

Lemma spec_draft_length (photos : gmap string (list (option loc))) :
  (List.length (spec_draft photos) <= 65)%nat.
Proof.
  unfold spec_draft.
  etransitivity; [apply (flat_map_length_le _ 5)|reflexivity].
  intros cat.
  etransitivity; [apply (flat_map_length_le _ 1)|reflexivity].
  intros i. destruct (slot photos cat i); cbn; lia.
Qed.

Lemma preview_done (s s' : Session) (h h' : heap) :
  initialised (photos s) ->
  preview_final_draft s h = Done tt s' h' ->
  s' = mkSession (spec_draft (photos s)) true (photos s) /\ h' = h
  /\ spec_draft (photos s) <> [].
Proof.
  intros Hi. unfold preview_final_draft.
  rewrite (collect_draft_refines (photos s) Hi).
  destruct (spec_draft (photos s)) as [|e d]; [discriminate|].
  intros E. injection E as <- <-. split; [reflexivity|]. split; [reflexivity|discriminate].
Qed.

(** X13: when Preview Final Draft succeeds on an initialised session, the
    store and the slots are untouched, the flag is set, and an entry is in
    the draft exactly when it is included, labelled with a category, and
    its image is the very object held by one of the five slots of that
    category: the draft shares the photos with the slots, it does not copy
    them. *)
Theorem preview_draft_entries (s s' : Session) (h h' : heap) :
  initialised (photos s) ->
  preview_final_draft s h = Done tt s' h' ->
  h' = h /\ photos s' = photos s /\ preview_ready s' = true
  /\ (forall e, e ∈ draft s'
                <-> include e = true /\ label e ∈ CATEGORIES
                    /\ exists i, (i < MAX_PHOTOS)%nat
                                 /\ slot (photos s) (label e) i = Some (image e)).
Proof.
  intros Hi Hrun. destruct (preview_done s s' h h' Hi Hrun) as (-> & -> & _).
  cbn [photos preview_ready draft].
  split; [reflexivity|]. split; [reflexivity|]. split; [reflexivity|].
  intros e. apply spec_draft_elem.
Qed.

Lemma sample_initialised : initialised sample_photos.
Proof.
  unfold initialised, CATEGORIES.
  repeat (apply Forall_cons; split;
          [eexists; split; [vm_compute; reflexivity|reflexivity]|]).
  apply Forall_nil. exact I.
Qed.

Lemma sample_preview :
  preview_final_draft sample_session sample_heap
  = Done tt (mkSession [mkEntry true 0%nat "CPU"; mkEntry true 1%nat "Fan"] true
                       sample_photos) sample_heap.
Proof.
  unfold preview_final_draft. cbn [photos sample_session].
  rewrite (collect_draft_refines sample_photos sample_initialised).
  vm_compute. reflexivity.
Qed.

(** The two sample photos. *)
Lemma preview_draft_entries_witness :
  sample_heap = sample_heap
  /\ photos (mkSession [mkEntry true 0%nat "CPU"; mkEntry true 1%nat "Fan"] true
                       sample_photos) = photos sample_session
  /\ preview_ready (mkSession [mkEntry true 0%nat "CPU"; mkEntry true 1%nat "Fan"] true
                              sample_photos) = true
  /\ (forall e, e ∈ draft (mkSession [mkEntry true 0%nat "CPU"; mkEntry true 1%nat "Fan"]
                                     true sample_photos)
                <-> include e = true /\ label e ∈ CATEGORIES
                    /\ exists i, (i < MAX_PHOTOS)%nat
                                 /\ slot (photos sample_session) (label e) i
                                    = Some (image e)).
Proof.
  apply (preview_draft_entries sample_session _ sample_heap sample_heap).
  - exact sample_initialised.
  - exact sample_preview.
Defined.

(** X14: a draft built by Preview Final Draft has at least one entry and
    at most one per slot, 13 times 5. *)
Theorem preview_draft_bounded (s s' : Session) (h h' : heap) :
  initialised (photos s) ->
  preview_final_draft s h = Done tt s' h' ->
  (1 <= List.length (draft s') <= List.length CATEGORIES * MAX_PHOTOS)%nat.
Proof.
  intros Hi Hrun. destruct (preview_done s s' h h' Hi Hrun) as (-> & _ & Hne).
  cbn [draft]. pose proof (spec_draft_length (photos s)) as Hle.
  change (List.length CATEGORIES * MAX_PHOTOS)%nat with 65%nat.
  destruct (spec_draft (photos s)); [congruence|]. cbn [List.length] in *. lia.
Qed.

Lemma preview_draft_bounded_witness :
  (1 <= List.length [mkEntry true 0%nat "CPU"; mkEntry true 1%nat "Fan"]
   <= List.length CATEGORIES * MAX_PHOTOS)%nat.
Proof.
  exact (preview_draft_bounded sample_session _ sample_heap sample_heap
           sample_initialised sample_preview).
Defined.

(** ** The gallery of a category *)

Lemma omap_entries (cat : string) (slots : list (option loc)) :
  omap id slots = map image (entries_of cat slots).
Proof.
  unfold entries_of. induction slots as [|o slots IH]; [reflexivity|].
  cbn [omap flat_map]. rewrite map_app, <- IH. now destruct o.
Qed.

Lemma imap_by_index {A B} (g : nat -> B) (l : list A) :
  forall j, imap (fun i _ => g (j + i)%nat) l = map g (seq j (List.length l)).
Proof.
  induction l as [|x l IH]; intros j; [reflexivity|].
  cbn [imap List.length seq map]. rewrite Nat.add_0_r. f_equal.
  rewrite <- IH. apply imap_ext. intros i y _. unfold compose. f_equal. lia.
Qed.

(** X15: under the camera inputs of a category nothing is shown when it
    has no photo; otherwise the photos shown are exactly the images of the
    entries Preview Final Draft will list for the category, in the same
    order, and the k-th caption is the category name followed by #k: the
    captions number the photos shown, not the slots. *)
Theorem show_uploaded_matches_draft (cat : string) (s : Session)
        (slots : list (option loc)) :
  photos s !! cat = Some slots ->
  (entries_of cat slots = [] /\ show_uploaded cat s = Ok None)
  \/ (entries_of cat slots <> []
      /\ show_uploaded cat s
         = Ok (Some (map image (entries_of cat slots),
                     map (fun k => cat +:+ " #" +:+ pretty (S k))
                         (seq 0 (List.length (entries_of cat slots)))))).
Proof.
  intros Hc. unfold show_uploaded. rewrite Hc, (omap_entries cat slots).
  destruct (entries_of cat slots) as [|e es] eqn:E; [left; auto|right].
  split; [discriminate|]. cbn [map]. f_equal. f_equal. f_equal.
  rewrite <- (length_map image (e :: es)). cbn [map].
  rewrite <- (imap_by_index (fun k => cat +:+ " #" +:+ pretty (S k)) _ 0).
  apply imap_ext. intros i y _. cbn. f_equal. f_equal. f_equal. lia.
Qed.

(** The Fan photo sits in the third slot and is captioned #1. *)
Lemma show_uploaded_matches_draft_witness :
  show_uploaded "Fan" sample_session = Ok (Some ([1%nat], ["Fan #1"])).
Proof.
  destruct (show_uploaded_matches_draft "Fan" sample_session
              [None; None; Some 1%nat; None; None]) as [[_ H]|[_ H]].
  - vm_compute. reflexivity.
  - vm_compute in H. discriminate H.
  - rewrite H. vm_compute. reflexivity.
Defined.

(** ** Captioned pages, once more *)

Section RenderMore.

Variable truetype_available : string -> Z -> bool.
Variable font_getbbox : Font -> string -> string -> Z * Z * Z * Z.
Variable font_getlength : Font -> string -> string -> Fixed.t.

Abbreviation render_image' := (render_image truetype_available font_getbbox font_getlength).
Abbreviation captioned_page' := (captioned_page truetype_available font_getbbox font_getlength).

Lemma render_image_stale (h : heap) (l : loc) (label : string) :
  h !! l = None -> render_image' l label h = Raise StaleReference.
Proof.
  intros E. unfold render_image, Image_copy.
  unfold mbind at 1, PIL_bind at 1. unfold mbind at 1, PIL_bind at 1.
  unfold load at 1. now rewrite E.
Qed.

Lemma render_image_refuses (h : heap) (l : loc) (im : Image) (label : string) :
  h !! l = Some im -> multiline_check label = true ->
  render_image' l label h = Raise ValueError.
Proof.
  intros Hl Hs. unfold render_image.
  rewrite (bind_Ok _ _ _ _ _ (Image_copy_spec _ _ _ Hl)).
  pose proof (lookup_fresh h im) as Hc.
  rewrite (bind_Ok _ _ _ _ _ (ImageDraw_Draw_spec _ _ _ Hc)).
  rewrite (bind_Ok _ _ _ _ _ (load_Some _ _ _ Hc)).
  unfold Image_new at 1.
  erewrite bind_Ok by reflexivity.
  set (h1 := h ++ [im]).
  set (blank := mkImage "RGB" _ _ None (Filled "white")).
  pose proof (lookup_fresh h1 blank) as Hb.
  assert (Hc' : (h1 ++ [blank]) !! List.length h = Some im)
    by now apply lookup_old.
  rewrite (bind_Ok _ _ _ _ _ (Image_paste_spec _ _ _ _ _ _ Hb Hc')).
  rewrite insert_fresh.
  set (pasted := repaint _ blank).
  pose proof (lookup_fresh h1 pasted) as Hp.
  rewrite (bind_Ok _ _ _ _ _ (ImageDraw_Draw_spec _ _ _ Hp)).
  unfold textlength. rewrite Hs. reflexivity.
Qed.

Lemma render_image_inv (h h' : heap) (l canvas : loc) (label : string) :
  render_image' l label h = Ok (canvas, h') ->
  exists im,
    h !! l = Some im /\ multiline_check label = false
    /\ canvas = S (List.length h)
    /\ h' = h ++ [im; captioned_page' im label].
Proof.
  intros Hrun. destruct (h !! l) as [im|] eqn:Hl.
  - destruct (multiline_check label) eqn:Hs.
    + rewrite (render_image_refuses h l im label Hl Hs) in Hrun. discriminate.
    + rewrite (render_image_spec _ _ _ h l im label Hl Hs) in Hrun.
      injection Hrun as <- <-. exists im. auto.
  - rewrite (render_image_stale h l label Hl) in Hrun. discriminate.
Qed.

(** X16: a label that contains a line feed makes [render_image] raise
    [ValueError] (Pillow does not measure multiline text), whatever the
    image. *)
Theorem render_image_multiline_label (h : heap) (l : loc) (im : Image) (label : string) :
  h !! l = Some im -> multiline_check label = true ->
  render_image' l label h = Raise ValueError.
Proof. apply render_image_refuses. Qed.

(** X17: the page [render_image] returns is an RGB image on which
    exactly two texts are drawn, the label and then the footer; the label
    starts 20 pixels below the photo, the footer 10 pixels below the
    label's height, and 20 pixels are left under the footer's height; each
    text is centred: its left margin is at most its right margin, by less
    than two pixels. *)
Theorem render_image_layout (h : heap) (l : loc) (im : Image) (label : string) :
  h !! l = Some im -> multiline_check label = false ->
  let label_font := load_font truetype_available 32 in
  let footer_font := load_font truetype_available 20 in
  let label_h := text_height font_getbbox (mode im) label label_font in
  let footer_h := text_height font_getbbox (mode im) FOOTER_TEXT footer_font in
  exists canvas h' page lx fx,
    render_image' l label h = Ok (canvas, h')
    /\ h' !! canvas = Some page
    /\ mode page = "RGB"
    /\ letterings (pixels page)
       = [((lx, height im + 20), label);
          ((fx, height im + 20 + label_h + 10), FOOTER_TEXT)]
    /\ 0 <= Fixed.of_int (width page) - font_getlength label_font "L" label
            - 2 * Fixed.of_int lx < 2 * 64
    /\ 0 <= Fixed.of_int (width page) - font_getlength footer_font "L" FOOTER_TEXT
            - 2 * Fixed.of_int fx < 2 * 64
    /\ height page = (height im + 20 + label_h + 10) + footer_h + 20.
Proof.
  intros Hl Hs label_font footer_font label_h footer_h.
  exists (S (List.length h)), (h ++ [im; captioned_page' im label]),
    (captioned_page' im label).
  exists (centered font_getlength (width im) label label_font),
    (centered font_getlength (width im) FOOTER_TEXT footer_font).
  split; [now apply render_image_spec|].
  split; [apply lookup_second|].
  split; [reflexivity|].
  split; [reflexivity|].
  cbn [captioned_page width height].
  unfold centered, Fixed.floordiv, Fixed.sub, Fixed.of_int.
  change (fontmode_of "RGB") with "L".
  split; [|split].
  - pose proof (Z.div_mod (64 * width im - font_getlength label_font "L" label) (64 * 2)).
    pose proof (Z.mod_pos_bound (64 * width im - font_getlength label_font "L" label)
                                (64 * 2)).
    lia.
  - pose proof (Z.div_mod (64 * width im - font_getlength footer_font "L" FOOTER_TEXT)
                          (64 * 2)).
    pose proof (Z.mod_pos_bound (64 * width im - font_getlength footer_font "L" FOOTER_TEXT)
                                (64 * 2)).
    lia.
  - unfold bar_height. fold label_font footer_font label_h footer_h. lia.
Qed.

End RenderMore.

Lemma render_image_multiline_label_witness :
  render_image no_truetype sample_bbox sample_length 0%nat
               (String LF "CPU") sample_heap = Raise ValueError.
Proof.
  apply (render_image_multiline_label no_truetype sample_bbox sample_length
           sample_heap 0%nat (photo 0 640 480)).
  - reflexivity.
  - reflexivity.
Defined.

Lemma render_image_layout_witness :
  exists canvas h' page lx fx,
    render_image no_truetype sample_bbox sample_length 0%nat "CPU" sample_heap
    = Ok (canvas, h')
    /\ h' !! canvas = Some page
    /\ letterings (pixels page)
       = [((lx, 480 + 20), "CPU"); ((fx, 480 + 20 + 9 + 10), FOOTER_TEXT)]
    /\ height page = 548.
Proof.
  destruct (render_image_layout no_truetype sample_bbox sample_length
              sample_heap 0%nat (photo 0 640 480) "CPU")
    as (canvas & h' & page & lx & fx & Hrun & Hp & _ & Hl & _ & _ & Hh).
  - reflexivity.
  - reflexivity.
  - exists canvas, h', page, lx, fx. repeat split; assumption.
Defined.

(** ** Export, once more *)

Lemma load_all_heap (ls : list loc) :
  forall (h h' : heap) (vs : list Image), load_all ls h = Ok (vs, h') -> h' = h.
Proof.
  induction ls as [|l ls IH]; intros h h' vs; cbn [load_all].
  - intros E. now injection E as <- <-.
  - unfold mbind at 1, PIL_bind at 1. unfold load at 1.
    destruct (h !! l) as [im|]; [|discriminate].
    unfold mbind at 1, PIL_bind at 1.
    destruct (load_all ls h) as [[ims h2]|e] eqn:E; [|discriminate].
    intros E'. injection E' as <- <-. now apply (IH h h2 ims).
Qed.

Section ExportMore.

Variable truetype_available : string -> Z -> bool.
Variable font_getbbox : Font -> string -> string -> Z * Z * Z * Z.
Variable font_getlength : Font -> string -> string -> Fixed.t.

Abbreviation image_pages' := (image_pages truetype_available font_getbbox font_getlength).
Abbreviation convert_to_pdf' :=
  (convert_to_pdf truetype_available font_getbbox font_getlength).

Lemma image_pages_extends (selected : list DraftEntry) :
  forall (h h' : heap) (acc acc' : list loc),
    image_pages' selected acc h = Ok (acc', h') ->
    exists new, h' = h ++ new
                /\ List.length new = (2 * List.length selected)%nat.
Proof.
  induction selected as [|e selected IH]; intros h h' acc acc'; cbn [image_pages].
  - intros E. injection E as <- <-. exists []. now rewrite app_nil_r.
  - unfold mbind at 1, PIL_bind at 1.
    destruct (render_image truetype_available font_getbbox font_getlength
                           (image e) (label e) h) as [[page h1]|err] eqn:Er; [|discriminate].
    apply render_image_inv in Er. destruct Er as (im & _ & _ & -> & ->).
    intros Hrest. apply IH in Hrest. destruct Hrest as (new & -> & Hlen).
    eexists. rewrite <- app_assoc. split; [reflexivity|].
    rewrite length_app. cbn [List.length]. lia.
Qed.

Lemma image_pages_refuses (selected : list DraftEntry) :
  forall (ims : list Image) (h : heap) (acc : list loc),
    Forall2 (fun e im => h !! image e = Some im) selected ims ->
    Exists (fun e => multiline_check (label e) = true) selected ->
    image_pages' selected acc h = Raise ValueError.
Proof.
  induction selected as [|e selected IH]; intros ims h acc Hims Hex; [inversion Hex|].
  apply Forall2_cons_inv_l in Hims. destruct Hims as (im & ims' & Him & Hims & ->).
  cbn [image_pages].
  destruct (multiline_check (label e)) eqn:Hs.
  - unfold mbind, PIL_bind.
    now rewrite (render_image_refuses truetype_available font_getbbox font_getlength
                   h (image e) im (label e) Him Hs).
  - rewrite (bind_Ok _ _ _ _ _
               (render_image_spec truetype_available font_getbbox font_getlength
                                  h (image e) im (label e) Him Hs)).
    apply (IH ims').
    + eapply Forall2_impl; [exact Hims|]. cbv beta. intros e' im' He'.
      now apply lookup_app_l_Some.
    + apply Exists_cons in Hex. destruct Hex as [Hex|Hex]; [congruence|exact Hex].
Qed.

Lemma convert_to_pdf_extends (info : ReportInfo) (s s' : Session) (h h' : heap)
      (d : Download) :
  convert_to_pdf' info s h = Done d s' h' ->
  exists new,
    h' = h ++ new
    /\ List.length new = (1 + 2 * List.length (List.filter include (draft s)))%nat.
Proof.
  unfold convert_to_pdf.
  destruct (List.filter include (draft s)) as [|e0 sel0] eqn:Esel; [discriminate|].
  rewrite (bind_Ok _ _ _ _ _ (cover_page_spec truetype_available info h)).
  unfold mbind at 1, PIL_bind at 1.
  destruct (image_pages truetype_available font_getbbox font_getlength (e0 :: sel0)
                        [List.length h] (h ++ [cover_canvas truetype_available info]))
    as [[acc' h1]|err] eqn:Ep; [|discriminate].
  apply image_pages_extends in Ep. destruct Ep as (new & -> & Hlen).
  destruct acc' as [|first others]; [discriminate|].
  unfold save_pdf. unfold mbind at 1, PIL_bind at 1.
  destruct (load_all (first :: others) _) as [[ims h2]|err] eqn:El; [|discriminate].
  apply load_all_heap in El. subst h2.
  intros E. injection E as _ _ <-.
  exists (cover_canvas truetype_available info :: new).
  rewrite <- app_assoc. split; [reflexivity|]. cbn [List.length] in *. lia.
Qed.

Lemma filter_nil_iff (l : list DraftEntry) :
  List.filter include l = [] <-> Forall (fun e => include e = false) l.
Proof.
  induction l as [|e l IH]; cbn [List.filter].
  - split; [constructor|reflexivity].
  - destruct (include e) eqn:E.
    + split; [discriminate|]. intros H. apply Forall_cons in H. destruct H; congruence.
    + rewrite IH. split; [intros H; now constructor|].
      intros H. apply Forall_cons in H. tauto.
Qed.

(** X18: Convert to PDF stops with its message exactly when no entry of
    the draft is included (an empty draft too); session and store are then
    as before. *)
Theorem convert_to_pdf_stops_iff (info : ReportInfo) (s s' : Session) (h h' : heap)
        (message : string) :
  convert_to_pdf' info s h = Stopped message s' h'
  <-> Forall (fun e => include e = false) (draft s)
      /\ message = "No images selected for PDF." /\ s' = s /\ h' = h.
Proof.
  rewrite <- filter_nil_iff. unfold convert_to_pdf.
  destruct (List.filter include (draft s)) as [|e0 sel0].
  - split.
    + intros E. injection E as <- <- <-. auto.
    + intros (_ & -> & -> & ->). reflexivity.
  - match goal with
    | |- context [match ?m with Ok _ => _ | Raise _ => _ end] => destruct m as [[pdf h1]|err]
    end; (split; [discriminate|intros [H _]; discriminate]).
Qed.

(** X19: Convert to PDF can be repeated: a second run on the session and
    store the first one left gives the same document; each run adds 1 + 2k
    objects to the store (the cover, and a copy and a page per included
    entry) and removes none. *)
Theorem convert_to_pdf_repeatable (info : ReportInfo) (s : Session) (h : heap)
        (ims : list Image) :
  let selected := List.filter include (draft s) in
  Forall2 (fun e im => h !! image e = Some im) selected ims ->
  Forall (fun e => multiline_check (label e) = false) selected ->
  selected <> [] ->
  exists d h1 h2 new1 new2,
    convert_to_pdf' info s h = Done d s h1
    /\ convert_to_pdf' info s h1 = Done d s h2
    /\ h1 = h ++ new1 /\ h2 = h1 ++ new2
    /\ List.length new1 = (1 + 2 * List.length selected)%nat
    /\ List.length new2 = (1 + 2 * List.length selected)%nat.
Proof.
  intros selected Hims Hlab Hne.
  destruct (convert_to_pdf_spec truetype_available font_getbbox font_getlength
              info s h ims Hims Hlab Hne) as (h1 & Hrun1 & Hmono).
  assert (Hims1 : Forall2 (fun e im => h1 !! image e = Some im) selected ims).
  { eapply Forall2_impl; [exact Hims|]. cbv beta. auto. }
  destruct (convert_to_pdf_spec truetype_available font_getbbox font_getlength
              info s h1 ims Hims1 Hlab Hne) as (h2 & Hrun2 & _).
  destruct (convert_to_pdf_extends _ _ _ _ _ _ Hrun1) as (new1 & E1 & L1).
  destruct (convert_to_pdf_extends _ _ _ _ _ _ Hrun2) as (new2 & E2 & L2).
  eexists. exists h1, h2, new1, new2.
  split; [exact Hrun1|]. split; [exact Hrun2|]. auto.
Qed.

(** X20: when an included entry has a label with a line feed, Convert to
    PDF fails with [ValueError] and offers no document. *)
Theorem convert_to_pdf_multiline_label (info : ReportInfo) (s : Session) (h : heap)
        (ims : list Image) :
  let selected := List.filter include (draft s) in
  Forall2 (fun e im => h !! image e = Some im) selected ims ->
  Exists (fun e => multiline_check (label e) = true) selected ->
  convert_to_pdf' info s h = Failed ValueError.
Proof.
  intros selected Hims Hex. unfold convert_to_pdf. fold selected.
  destruct selected as [|e0 sel0] eqn:Esel; [inversion Hex|].
  rewrite (bind_Ok _ _ _ _ _ (cover_page_spec truetype_available info h)).
  unfold mbind, PIL_bind.
  rewrite (image_pages_refuses (e0 :: sel0) ims); [reflexivity| |exact Hex].
  eapply Forall2_impl; [exact Hims|]. cbv beta. intros e im He.
  now apply lookup_app_l_Some.
Qed.

(** X21: a photo retaken after the draft was built does not reach the
    document: Convert to PDF gives the same document after the capture as
    before it, because the draft still holds the earlier images. *)
Theorem recapture_keeps_export (info : ReportInfo) (s s' : Session) (h h1 : heap)
        (ims : list Image) (cat : string) (i : nat) (raw : loc) :
  let selected := List.filter include (draft s) in
  Forall2 (fun e im => h !! image e = Some im) selected ims ->
  Forall (fun e => multiline_check (label e) = false) selected ->
  selected <> [] ->
  camera_input cat i raw s h = Ok (s', h1) ->
  exists d h2 h3,
    convert_to_pdf' info s h = Done d s h2
    /\ convert_to_pdf' info s' h1 = Done d s' h3.
Proof.
  intros selected Hims Hlab Hne Hcam.
  destruct (camera_input_inv _ _ _ _ _ _ _ Hcam) as (out & q & slots & Hopt & _ & _ & Es).
  destruct (optimize_image_extends h raw out q h1 Hopt) as (new & -> & _).
  assert (Hd : draft s' = draft s) by now subst s'.
  destruct (convert_to_pdf_spec truetype_available font_getbbox font_getlength
              info s h ims Hims Hlab Hne) as (h2 & Hrun1 & _).
  destruct (convert_to_pdf_spec truetype_available font_getbbox font_getlength
              info s' (h ++ new) ims) as (h3 & Hrun2 & _).
  - rewrite Hd. eapply Forall2_impl; [exact Hims|]. cbv beta. intros e im He.
    now apply lookup_app_l_Some.
  - now rewrite Hd.
  - now rewrite Hd.
  - rewrite Hd in Hrun2. eexists. exists h2, h3. split; [exact Hrun1|exact Hrun2].
Qed.

End ExportMore.

(** The sample draft, exported twice. *)
Lemma convert_to_pdf_repeatable_witness :
  exists d h1 h2 new1 new2,
    convert_to_pdf no_truetype sample_bbox sample_length sample_info
                   (mkSession sample_draft true sample_photos) sample_heap
    = Done d (mkSession sample_draft true sample_photos) h1
    /\ convert_to_pdf no_truetype sample_bbox sample_length sample_info
                      (mkSession sample_draft true sample_photos) h1
       = Done d (mkSession sample_draft true sample_photos) h2
    /\ h1 = sample_heap ++ new1 /\ h2 = h1 ++ new2
    /\ List.length new1
       = (1 + 2 * List.length
                    (List.filter include
                       (draft (mkSession sample_draft true sample_photos))))%nat
    /\ List.length new2
       = (1 + 2 * List.length
                    (List.filter include
                       (draft (mkSession sample_draft true sample_photos))))%nat.
Proof.
  apply (convert_to_pdf_repeatable no_truetype sample_bbox sample_length sample_info
           (mkSession sample_draft true sample_photos) sample_heap
           [photo 0 640 480; photo 1 20 30]).
  - repeat constructor.
  - repeat constructor.
  - discriminate.
Defined.

(** A label of two lines. *)
Lemma convert_to_pdf_multiline_label_witness :
  convert_to_pdf no_truetype sample_bbox sample_length sample_info
                 (mkSession [mkEntry true 0%nat (String LF "CPU")] true sample_photos)
                 sample_heap
  = Failed ValueError.
Proof.
  apply (convert_to_pdf_multiline_label no_truetype sample_bbox sample_length sample_info
           (mkSession [mkEntry true 0%nat (String LF "CPU")] true sample_photos)
           sample_heap [photo 0 640 480]).
  - repeat constructor.
  - apply Exists_cons_hd. reflexivity.
Defined.

(** The CPU photo is taken again, for the second slot, after the draft was
    built. *)
Lemma recapture_keeps_export_witness :
  exists d h2 h3,
    convert_to_pdf no_truetype sample_bbox sample_length sample_info
                   (mkSession sample_draft true sample_photos) sample_heap
    = Done d (mkSession sample_draft true sample_photos) h2
    /\ convert_to_pdf no_truetype sample_bbox sample_length sample_info
                      (mkSession sample_draft true
                         (<["CPU" := [Some 0%nat; Some 3%nat; None; None; None]]>
                            sample_photos))
                      (sample_heap ++ [photo 0 640 480; photo 0 640 480])
       = Done d (mkSession sample_draft true
                   (<["CPU" := [Some 0%nat; Some 3%nat; None; None; None]]>
                      sample_photos)) h3.
Proof.
  apply (recapture_keeps_export no_truetype sample_bbox sample_length sample_info
           (mkSession sample_draft true sample_photos) _ sample_heap _
           [photo 0 640 480; photo 1 20 30] "CPU" 1 0%nat).
  - repeat constructor.
  - repeat constructor.
  - discriminate.
  - vm_compute. reflexivity.
Defined.

(** ** The draft editor *)

Lemma Forall2_filter_zip (d : list DraftEntry) (ims : list Image) (h : heap) :
  Forall2 (fun e im => h !! image e = Some im) d ims ->
  Forall2 (fun e im => h !! image e = Some im) (List.filter include d)
          (map snd (List.filter (fun p => include (fst p)) (zip d ims)))
  /\ List.filter include d = map fst (List.filter (fun p => include (fst p)) (zip d ims)).
Proof.
  induction 1 as [|e im d ims He _ [IH1 IH2]]; [split; [constructor|reflexivity]|].
  cbn [zip zip_with List.filter fst]. destruct (include e); cbn [map fst snd].
  - split; [now constructor|now f_equal].
  - split; assumption.
Qed.

Section EditorFacts.

Variable truetype_available : string -> Z -> bool.
Variable font_getbbox : Font -> string -> string -> Z * Z * Z * Z.
Variable font_getlength : Font -> string -> string -> Fixed.t.
Variable checkbox : nat -> bool -> bool.
Variable text_input : nat -> string -> string.

Abbreviation edit_items' :=
  (edit_items truetype_available font_getbbox font_getlength checkbox text_input).
Abbreviation draft_editor' :=
  (draft_editor truetype_available font_getbbox font_getlength checkbox text_input).
Abbreviation edited' := (edited checkbox text_input).
Abbreviation page' :=
  (fun (e : DraftEntry) (im : Image) =>
     captioned_page truetype_available font_getbbox font_getlength im (label e)).

(** One turn per entry: the entry is rewritten from its widgets and two
    objects join the store, the copy and the preview. *)
Lemma edit_items_spec (items : list DraftEntry) :
  forall (ims : list Image) (idx : nat) (h : heap),
    Forall2 (fun e im => h !! image e = Some im) items ims ->
    (forall k e, items !! k = Some e ->
                 multiline_check (text_input (idx + k) (label e)) = false) ->
    exists shown new,
      edit_items' idx items h
      = Ok (imap (fun k => edited' (idx + k)) items, shown, h ++ new)
      /\ List.length new = (2 * List.length items)%nat
      /\ Forall2 (fun l page => (h ++ new) !! l = Some page) shown
                 (zip_with page' (imap (fun k => edited' (idx + k)) items) ims).
Proof.
  induction items as [|e items IH]; intros ims idx h Hims Hlab.
  - apply Forall2_nil_inv_l in Hims. subst ims.
    exists [], []. rewrite app_nil_r. split; [reflexivity|]. split; [reflexivity|constructor].
  - apply Forall2_cons_inv_l in Hims. destruct Hims as (im & ims' & Him & Hims & ->).
    cbn [edit_items include image label].
    assert (Hs : multiline_check (text_input idx (label e)) = false).
    { rewrite <- (Nat.add_0_r idx) at 1. now apply (Hlab 0%nat e). }
    rewrite (bind_Ok _ _ _ _ _
               (render_image_spec truetype_available font_getbbox font_getlength
                                  h (image e) im _ Him Hs)).
    set (pg := captioned_page truetype_available font_getbbox font_getlength im
                              (text_input idx (label e))).
    destruct (IH ims' (S idx) (h ++ [im; pg])) as (shown & new & Hrun & Hlen & Hshown).
    + eapply Forall2_impl; [exact Hims|]. cbv beta. intros e' im' He'.
      now apply lookup_app_l_Some.
    + intros k e' Hk. replace (S idx + k)%nat with (idx + S k)%nat by lia.
      now apply Hlab.
    + rewrite (bind_Ok _ _ _ _ _ Hrun). unfold mret, PIL_ret. cbn [fst snd].
      assert (Hext : imap (fun k => edited' (S idx + k)) items
                     = imap ((fun k => edited' (idx + k)) ∘ S) items).
      { apply imap_ext. intros k x _. unfold compose.
        now replace (S idx + k)%nat with (idx + S k)%nat by lia. }
      exists (S (List.length h) :: shown), ([im; pg] ++ new).
      rewrite app_assoc. cbn [imap]. rewrite <- Hext, Nat.add_0_r.
      split; [reflexivity|]. split; [rewrite length_app; cbn [List.length]; lia|].
      cbn [zip_with]. constructor; [|exact Hshown].
      apply lookup_app_l_Some. cbn [label]. apply lookup_second.
Qed.

Lemma imap_images (f : nat -> DraftEntry -> DraftEntry) (items : list DraftEntry) :
  (forall k e, image (f k e) = image e) ->
  map image (imap f items) = map image items.
Proof.
  revert f. induction items as [|e items IH]; intros f Hf; [reflexivity|].
  cbn [imap map]. rewrite Hf. f_equal. apply IH. intros k x. apply Hf.
Qed.

Lemma imap_same {A} (f : nat -> A -> A) (l : list A) :
  (forall k x, f k x = x) -> imap f l = l.
Proof.
  revert f. induction l as [|x l IH]; intros f Hf; [reflexivity|].
  cbn [imap]. rewrite Hf. f_equal. apply IH. intros k y. apply Hf.
Qed.

Lemma draft_editor_spec (s : Session) (h : heap) (ims : list Image) :
  preview_ready s = true ->
  Forall2 (fun e im => h !! image e = Some im) (draft s) ims ->
  (forall k e, draft s !! k = Some e ->
               multiline_check (text_input k (label e)) = false) ->
  exists shown new,
    draft_editor' s h
    = Done shown (mkSession (imap edited' (draft s)) true (photos s)) (h ++ new)
    /\ List.length new = (2 * List.length (draft s))%nat
    /\ Forall2 (fun l page => (h ++ new) !! l = Some page) shown
               (zip_with page' (imap edited' (draft s)) ims).
Proof.
  intros Hready Hims Hlab. unfold draft_editor. rewrite Hready.
  destruct (edit_items_spec (draft s) ims 0 h Hims Hlab) as (shown & new & Hrun & Hlen & Hs).
  rewrite Hrun. exists shown, new. auto.
Qed.

(** X22: a pass of the draft editor (flag set, images in the store, labels
    of a single line) rewrites the include flag and the label of every
    entry from its widgets and nothing else: the entries keep their images
    and their order, the slots and the flag are unchanged, the store only
    grows, by two objects per entry; when the widgets return the values
    they were created with, the draft is unchanged. *)
Theorem draft_editor_keeps_images (s : Session) (h : heap) (ims : list Image) :
  preview_ready s = true ->
  Forall2 (fun e im => h !! image e = Some im) (draft s) ims ->
  (forall k e, draft s !! k = Some e ->
               multiline_check (text_input k (label e)) = false) ->
  exists shown s' new,
    draft_editor' s h = Done shown s' (h ++ new)
    /\ draft s' = imap edited' (draft s)
    /\ map image (draft s') = map image (draft s)
    /\ photos s' = photos s
    /\ preview_ready s' = true
    /\ List.length new = (2 * List.length (draft s))%nat
    /\ ((forall k v, checkbox k v = v) -> (forall k v, text_input k v = v) ->
        draft s' = draft s).
Proof.
  intros Hready Hims Hlab.
  destruct (draft_editor_spec s h ims Hready Hims Hlab) as (shown & new & Hrun & Hlen & _).
  exists shown, (mkSession (imap edited' (draft s)) true (photos s)), new.
  split; [exact Hrun|]. cbn [draft photos preview_ready].
  split; [reflexivity|]. split; [now apply imap_images|].
  split; [reflexivity|]. split; [reflexivity|]. split; [exact Hlen|].
  intros Hc Ht. apply imap_same. intros k [inc img lbl]. unfold edited. cbn.
  now rewrite Hc, Ht.
Qed.

(** X23: what the editor shows is what the document holds: when Convert
    to PDF follows a pass of the editor, the document has one page per
    included entry after the cover, and each of these pages is one of the
    previews the editor has just shown. *)
Theorem editor_previews_are_pages (info : ReportInfo) (s : Session) (h : heap)
        (ims : list Image) :
  preview_ready s = true ->
  Forall2 (fun e im => h !! image e = Some im) (draft s) ims ->
  (forall k e, draft s !! k = Some e ->
               multiline_check (text_input k (label e)) = false) ->
  Exists (fun e => include e = true) (imap edited' (draft s)) ->
  exists shown s' h' pdf h'',
    draft_editor' s h = Done shown s' h'
    /\ convert_to_pdf truetype_available font_getbbox font_getlength info s' h'
       = Done (mkDownload pdf "NED_FAI_Report.pdf" "application/pdf") s' h''
    /\ List.length (pages pdf)
       = (1 + List.length (List.filter include (draft s')))%nat
    /\ Forall (fun page => exists l, l ∈ shown /\ h' !! l = Some page)
              (tail (pages pdf)).
Proof.
  intros Hready Hims Hlab Hex.
  destruct (draft_editor_spec s h ims Hready Hims Hlab) as (shown & new & Hrun & Hlen & Hs).
  set (d' := imap edited' (draft s)) in *.
  set (s' := mkSession d' true (photos s)).
  assert (Hims' : Forall2 (fun e im => (h ++ new) !! image e = Some im) d' ims).
  { assert (Hmap : map image d' = map image (draft s))
      by (apply imap_images; reflexivity).
    clearbody d'. clear -Hims Hmap.
    revert d' Hmap. induction Hims as [|e im d ims He _ IH]; intros d' Hmap.
    - destruct d'; [constructor|discriminate].
    - destruct d' as [|e' d']; [discriminate|]. cbn [map] in Hmap.
      injection Hmap as E1 E2. constructor; [|now apply IH].
      rewrite E1. now apply lookup_app_l_Some. }
  destruct (Forall2_filter_zip d' ims (h ++ new) Hims') as [Hsel Efilter].
  set (pairs := List.filter (fun p => include (fst p)) (zip d' ims)) in *.
  assert (Hlab' : Forall (fun e => multiline_check (label e) = false)
                         (List.filter include d')).
  { apply Forall_forall. intros e He.
    apply list_elem_of_In, filter_In in He. destruct He as [He _].
    apply list_elem_of_In, list_elem_of_lookup in He. destruct He as [k Hk].
    subst d'. rewrite list_lookup_imap in Hk.
    destruct (draft s !! k) as [e0|] eqn:E0; [|discriminate].
    cbn in Hk. injection Hk as <-. cbn [edited label]. now apply Hlab. }
  assert (Hne : List.filter include d' <> []).
  { intros E. apply filter_nil_iff in E. rewrite Forall_forall in E.
    apply Exists_exists in Hex. destruct Hex as (e & He & Hinc).
    rewrite (E e He) in Hinc. discriminate. }
  destruct (convert_to_pdf_spec truetype_available font_getbbox font_getlength
              info s' (h ++ new) (map snd pairs) Hsel Hlab' Hne) as (h'' & Hconv & _).
  exists shown, s', (h ++ new). eexists. exists h''.
  split; [exact Hrun|]. split; [exact Hconv|].
  cbn [pages tail draft s' List.length]. split.
  - f_equal. rewrite length_zip_with_l_eq; [reflexivity|].
    now apply Forall2_length in Hsel.
  - rewrite Efilter. apply Forall_forall. intros page Hpage.
    apply list_elem_of_lookup in Hpage. destruct Hpage as [j Hj].
    rewrite lookup_zip_with in Hj. rewrite !list_lookup_fmap in Hj.
    destruct (pairs !! j) as [[e im]|] eqn:Ej; [|discriminate].
    cbn in Hj. injection Hj as <-.
    assert (Hin : (e, im) ∈ zip d' ims).
    { apply list_elem_of_In. apply list_elem_of_lookup_2, list_elem_of_In in Ej.
      subst pairs. now apply filter_In in Ej. }
    apply list_elem_of_lookup in Hin. destruct Hin as [k Hk].
    assert (Hpg : zip_with page' d' ims !! k = Some (page' e im)).
    { rewrite lookup_zip_with. rewrite lookup_zip_with in Hk.
      destruct (d' !! k) as [e1|]; [|discriminate]. cbn in Hk |- *.
      destruct (ims !! k) as [im1|]; [|discriminate]. cbn in Hk |- *.
      now injection Hk as -> ->. }
    destruct (Forall2_lookup_r _ _ _ _ _ Hs Hpg) as (l & Hl & Hpage).
    exists l. split; [now apply list_elem_of_lookup_2 in Hl|exact Hpage].
Qed.

End EditorFacts.

(** The sample draft, its first entry retitled. *)
Lemma draft_editor_keeps_images_witness :
  exists shown s' new,
    draft_editor no_truetype sample_bbox sample_length sample_checkbox sample_text_input
                 (mkSession sample_draft true sample_photos) sample_heap
    = Done shown s' (sample_heap ++ new)
    /\ draft s' = imap (edited sample_checkbox sample_text_input)
                       (draft (mkSession sample_draft true sample_photos))
    /\ map image (draft s') = map image (draft (mkSession sample_draft true sample_photos))
    /\ photos s' = photos (mkSession sample_draft true sample_photos)
    /\ preview_ready s' = true
    /\ List.length new
       = (2 * List.length (draft (mkSession sample_draft true sample_photos)))%nat
    /\ ((forall k v, sample_checkbox k v = v) ->
        (forall k v, sample_text_input k v = v) ->
        draft s' = draft (mkSession sample_draft true sample_photos)).
Proof.
  apply (draft_editor_keeps_images no_truetype sample_bbox sample_length
           sample_checkbox sample_text_input
           (mkSession sample_draft true sample_photos) sample_heap
           [photo 0 640 480; photo 1 20 30; photo 1 20 30]).
  - reflexivity.
  - repeat constructor.
  - intros k e Hk. destruct k as [|[|[|k]]]; cbn in Hk; try discriminate;
      injection Hk as <-; reflexivity.
Defined.

Lemma editor_previews_are_pages_witness :
  exists shown s' h' pdf h'',
    draft_editor no_truetype sample_bbox sample_length sample_checkbox sample_text_input
                 (mkSession sample_draft true sample_photos) sample_heap
    = Done shown s' h'
    /\ convert_to_pdf no_truetype sample_bbox sample_length sample_info s' h'
       = Done (mkDownload pdf "NED_FAI_Report.pdf" "application/pdf") s' h''
    /\ List.length (pages pdf)
       = (1 + List.length (List.filter include (draft s')))%nat
    /\ Forall (fun page => exists l, l ∈ shown /\ h' !! l = Some page)
              (tail (pages pdf)).
Proof.
  apply (editor_previews_are_pages no_truetype sample_bbox sample_length
           sample_checkbox sample_text_input sample_info
           (mkSession sample_draft true sample_photos) sample_heap
           [photo 0 640 480; photo 1 20 30; photo 1 20 30]).
  - reflexivity.
  - repeat constructor.
  - intros k e Hk. destruct k as [|[|[|k]]]; cbn in Hk; try discriminate;
      injection Hk as <-; reflexivity.
  - apply Exists_cons_hd. reflexivity.
Defined.

(** ** The wrapped description *)

Module textwrap_lines.
Import textwrap textwrap_facts.

Lemma take_fitting_fits (width : nat) (chunks : list (list ascii)) :
  forall cur_line cur_len,
    List.length (concat cur_line) = cur_len -> (cur_len <= width)%nat ->
    let '(cur_line', cur_len', rest) := take_fitting width cur_line cur_len chunks in
    List.length (concat cur_line') = cur_len' /\ (cur_len' <= width)%nat
    /\ concat cur_line' ++ concat rest = concat cur_line ++ concat chunks.
Proof.
  induction chunks as [|c chunks IH]; intros cur_line cur_len Hlen Hle; cbn [take_fitting].
  - auto.
  - destruct (cur_len + List.length c <=? width)%nat eqn:E.
    + apply Nat.leb_le in E.
      specialize (IH (cur_line ++ [c]) (cur_len + List.length c)%nat).
      destruct (take_fitting width (cur_line ++ [c]) (cur_len + List.length c) chunks)
        as [[cl len'] rest].
      destruct IH as (H1 & H2 & H3).
      * rewrite concat_app, length_app. cbn [concat]. rewrite app_nil_r. lia.
      * exact E.
      * split; [exact H1|]. split; [exact H2|].
        rewrite H3, concat_app. cbn [concat]. now rewrite app_nil_r, <- app_assoc.
    + auto.
Qed.

Lemma rfind_hyphen_bound (chunk : list ascii) :
  forall stop i j, rfind_hyphen chunk stop i = Some j -> (i <= j < i + stop)%nat.
Proof.
  induction chunk as [|c r IH]; intros stop i j; destruct stop; cbn [rfind_hyphen];
    try discriminate.
  destruct (rfind_hyphen r stop (S i)) as [j'|] eqn:E.
  - intros H. injection H as <-. apply IH in E. lia.
  - destruct (is_hyphen c); [|discriminate]. intros H. injection H as <-. lia.
Qed.

Lemma handle_long_word_fits (chunks cur_line : list (list ascii)) (cur_len width : nat) :
  (0 < width)%nat ->
  List.length (concat cur_line) = cur_len -> (cur_len <= width)%nat ->
  let '(cur_line', rest) := handle_long_word chunks cur_line cur_len width in
  (List.length (concat cur_line') <= width)%nat
  /\ concat cur_line' ++ concat rest = concat cur_line ++ concat chunks.
Proof.
  intros Hw Hlen Hle. unfold handle_long_word.
  replace (width <? 1)%nat with false by (symmetry; apply Nat.ltb_ge; lia).
  destruct chunks as [|chunk rest]; [split; [lia|reflexivity]|].
  set (stop := if (width - cur_len <? List.length chunk)%nat then _ else _).
  assert (Hstop : (stop <= width - cur_len)%nat).
  { subst stop. destruct (width - cur_len <? List.length chunk)%nat; [|lia].
    destruct (rfind_hyphen chunk (width - cur_len) 0) as [hy|] eqn:E; [|lia].
    apply rfind_hyphen_bound in E.
    destruct ((0 <? hy)%nat && existsb (fun c => negb (is_hyphen c)) (take hy chunk)); lia. }
  split.
  - rewrite concat_app, length_app. cbn [concat]. rewrite app_nil_r, length_take. lia.
  - rewrite concat_app. cbn [concat]. rewrite app_nil_r, <- !app_assoc. f_equal.
    rewrite app_assoc. now rewrite take_drop.
Qed.

Lemma visible_app (a b : list ascii) : visible (a ++ b) = visible a ++ visible b.
Proof. unfold visible. apply List.filter_app. Qed.

Lemma visible_blank (c : list ascii) : blank c = true -> visible c = [].
Proof.
  unfold blank, visible. induction c as [|x c IH]; [reflexivity|].
  cbn [forallb List.filter]. intros H. apply andb_true_iff in H. destruct H as [Hx Hc].
  rewrite Hx. cbn [negb]. now apply IH.
Qed.

Lemma concat_snoc (l : list (list ascii)) (x : list ascii) :
  concat (l ++ [x]) = concat l ++ x.
Proof. rewrite concat_app. cbn [concat]. now rewrite app_nil_r. Qed.

Lemma last_snoc_inv {A} (l : list A) (x : A) :
  last l = Some x -> l = removelast l ++ [x].
Proof.
  intros H. destruct l as [|y l] using rev_ind; [discriminate|].
  rewrite last_snoc in H. injection H as ->. now rewrite removelast_last.
Qed.

Lemma drop_blank_last (cur_line : list (list ascii)) :
  let cur_line' := match last cur_line with
                   | Some l => if blank l then removelast cur_line else cur_line
                   | None => cur_line
                   end in
  (List.length (concat cur_line') <= List.length (concat cur_line))%nat
  /\ visible (concat cur_line') = visible (concat cur_line).
Proof.
  cbv zeta. destruct (last cur_line) as [l|] eqn:E; [|split; [lia|reflexivity]].
  destruct (blank l) eqn:B; [|split; [lia|reflexivity]].
  apply last_snoc_inv in E. rewrite E at 2 4. rewrite concat_snoc. split.
  - rewrite length_app. lia.
  - rewrite visible_app, (visible_blank l B). now rewrite app_nil_r.
Qed.

(** One turn of the loop: the line fits, and the line and the chunks left
    hold the visible characters of the chunks it started with. *)
Lemma next_line_fits (width : nat) (started : bool) (chunks : list (list ascii)) :
  (0 < width)%nat ->
  let '(line, rest) := next_line width started chunks in
  (List.length (default [] line) <= width)%nat
  /\ visible (default [] line) ++ visible (concat rest) = visible (concat chunks).
Proof.
  intros Hw. unfold next_line.
  set (chunks1 := match chunks with
                  | first :: rest => if blank first && started then rest else chunks
                  | [] => chunks
                  end).
  assert (H1 : visible (concat chunks1) = visible (concat chunks)).
  { subst chunks1. destruct chunks as [|first rest]; [reflexivity|].
    destruct (blank first) eqn:B; cbn [andb]; [|reflexivity].
    destruct started; [|reflexivity].
    cbn [concat]. now rewrite visible_app, (visible_blank first B). }
  clearbody chunks1.
  pose proof (take_fitting_fits width chunks1 [] 0%nat eq_refl (Nat.le_0_l _)) as H2.
  destruct (take_fitting width [] 0 chunks1) as [[cur_line cur_len] chunks2].
  destruct H2 as (Hlen & Hle & Hcat). cbn [concat app] in Hcat.
  set (step3 := match chunks2 with
                | c :: _ => if (width <? List.length c)%nat
                            then handle_long_word chunks2 cur_line cur_len width
                            else (cur_line, chunks2)
                | [] => (cur_line, chunks2)
                end).
  assert (H3 : (List.length (concat (fst step3)) <= width)%nat
               /\ concat (fst step3) ++ concat (snd step3) = concat chunks1).
  { subst step3. destruct chunks2 as [|c rest2]; [cbn [fst snd]; split; [lia|exact Hcat]|].
    destruct (width <? List.length c)%nat; [|cbn [fst snd]; split; [lia|exact Hcat]].
    pose proof (handle_long_word_fits (c :: rest2) cur_line cur_len width Hw Hlen Hle) as H.
    destruct (handle_long_word (c :: rest2) cur_line cur_len width) as [cl r].
    cbn [fst snd]. destruct H as [Ha Hb]. split; [exact Ha|]. now rewrite Hb. }
  destruct step3 as [cur_line3 chunks3]. cbn [fst snd] in H3. destruct H3 as [Hfit Hall].
  pose proof (drop_blank_last cur_line3) as H4. cbv zeta in H4.
  set (cur_line4 := match last cur_line3 with
                    | Some l => if blank l then removelast cur_line3 else cur_line3
                    | None => cur_line3
                    end) in *.
  destruct H4 as [Hshort Hvis].
  assert (Hres : (List.length (concat cur_line4) <= width)%nat
                 /\ visible (concat cur_line4) ++ visible (concat chunks3)
                    = visible (concat chunks)).
  { split; [lia|]. now rewrite Hvis, <- visible_app, Hall. }
  clearbody cur_line4.
  destruct cur_line4 as [|x cl4]; cbn [default]; [|exact Hres].
  split; [cbn; lia|]. exact (proj2 Hres).
Qed.

Lemma wrap_chunks_fits (width : nat) :
  (0 < width)%nat ->
  forall (fuel : nat) (started : bool) (chunks : list (list ascii)),
    Forall (fun line => (List.length line <= width)%nat)
           (wrap_chunks fuel width started chunks).
Proof.
  intros Hw. induction fuel as [|fuel IH]; intros started chunks; [constructor|].
  cbn [wrap_chunks]. destruct chunks as [|c rest]; [constructor|].
  pose proof (next_line_fits width started (c :: rest) Hw) as H.
  destruct (next_line width started (c :: rest)) as [[line|] chunks'].
  - constructor; [exact (proj1 H)|apply IH].
  - apply IH.
Qed.

Lemma wrap_chunks_visible (width : nat) :
  (0 < width)%nat ->
  forall (fuel : nat) (started : bool) (chunks : list (list ascii)),
    (weight chunks < fuel)%nat ->
    visible (concat (wrap_chunks fuel width started chunks)) = visible (concat chunks).
Proof.
  intros Hw. induction fuel as [|fuel IH]; intros started chunks Hfuel; [lia|].
  cbn [wrap_chunks]. destruct chunks as [|c rest]; [reflexivity|].
  pose proof (next_line_fits width started (c :: rest) Hw) as H.
  pose proof (next_line_weight width started (c :: rest) Hw) as Hlt.
  destruct (next_line width started (c :: rest)) as [[line|] chunks'];
    cbn [snd default] in *; destruct H as [_ H];
    (assert (weight chunks' < weight (c :: rest))%nat by (apply Hlt; discriminate)).
  - cbn [concat]. rewrite visible_app, IH by lia. exact H.
  - rewrite IH by lia. exact H.
Qed.

Lemma isspace_SP : isspace SP = true.
Proof. reflexivity. Qed.

Lemma tab_isspace (c : ascii) : one_of [9%N] c = true -> isspace c = true.
Proof. destruct c as [[] [] [] [] [] [] [] []]; vm_compute; congruence. Qed.

Lemma visible_spaces (n : nat) : visible (repeat SP n) = [].
Proof. induction n as [|n IH]; [reflexivity|]. cbn [repeat]. unfold visible in *. cbn. exact IH. Qed.

Lemma visible_expandtabs (s : list ascii) :
  forall col, visible (expandtabs col s) = visible s.
Proof.
  induction s as [|c r IH]; intros col; [reflexivity|]. cbn [expandtabs].
  destruct (one_of [9%N] c) eqn:Et.
  - rewrite visible_app, visible_spaces, IH. cbn [app].
    unfold visible. cbn [List.filter]. now rewrite (tab_isspace c Et).
  - destruct (one_of [10%N; 13%N] c); unfold visible in *; cbn [List.filter];
      rewrite IH; reflexivity.
Qed.

Lemma visible_munge (s : list ascii) : visible (munge_whitespace s) = visible s.
Proof.
  unfold munge_whitespace. rewrite <- (visible_expandtabs s 0).
  induction (expandtabs 0 s) as [|c r IH]; [reflexivity|].
  unfold visible in *. cbn [map List.filter].
  destruct (is_whitespace c) eqn:E.
  - rewrite isspace_SP, (whitespace_isspace c E). cbn [negb]. exact IH.
  - destruct (negb (isspace c)); [f_equal|]; exact IH.
Qed.

Lemma list_ascii_roundtrip (l : list ascii) :
  list_ascii_of_string (string_of_list_ascii l) = l.
Proof. apply list_ascii_of_string_of_list_ascii. Qed.

Lemma concat_map_roundtrip (ls : list (list ascii)) :
  concat (map list_ascii_of_string (map string_of_list_ascii ls)) = concat ls.
Proof.
  induction ls as [|l ls IH]; [reflexivity|].
  cbn [map concat]. now rewrite list_ascii_roundtrip, IH.
Qed.

(** No line is longer than the width. *)
Lemma wrap_fits (text : string) (width : nat) :
  (0 < width)%nat ->
  Forall (fun line => (String.length line <= width)%nat) (wrap text width).
Proof.
  intros Hw. unfold wrap. apply Forall_map.
  eapply Forall_impl; [apply (wrap_chunks_fits width Hw)|].
  intros line Hline. cbv beta.
  rewrite <- length_list_ascii. now rewrite list_ascii_roundtrip.
Qed.

(** The lines hold the visible characters of the text. *)
Lemma wrap_visible (text : string) (width : nat) :
  (0 < width)%nat ->
  visible (concat (map list_ascii_of_string (wrap text width)))
  = visible (list_ascii_of_string text).
Proof.
  intros Hw. unfold wrap.
  set (s := munge_whitespace (list_ascii_of_string text)).
  rewrite concat_map_roundtrip.
  destruct (scan_chunks s Fresh [] []) as [Hc Hne]; [reflexivity|congruence|].
  cbn [rev app] in Hc. fold (split s) in Hc, Hne.
  pose proof (weight_bound (split s) Hne) as Hb. rewrite Hc in Hb.
  rewrite wrap_chunks_visible by (try exact Hw; lia).
  rewrite Hc. apply visible_munge.
Qed.

Lemma concat_length_le (width : nat) (ls : list (list ascii)) :
  Forall (fun l => (List.length l <= width)%nat) ls ->
  (List.length (concat ls) <= width * List.length ls)%nat.
Proof.
  induction 1 as [|l ls Hl _ IH]; cbn [concat List.length]; [lia|].
  rewrite length_app. lia.
Qed.

Lemma visible_length (s : list ascii) : (List.length (visible s) <= List.length s)%nat.
Proof.
  unfold visible. induction s as [|c s IH]; cbn [List.filter List.length]; [lia|].
  destruct (negb (textwrap.isspace c)); cbn [List.length]; lia.
Qed.

(** A text needs at least one line for every [width] visible
    characters. *)
Lemma wrap_lines_needed (text : string) (width : nat) :
  (0 < width)%nat ->
  (List.length (visible (list_ascii_of_string text))
   <= width * List.length (wrap text width))%nat.
Proof.
  intros Hw. rewrite <- (wrap_visible text width Hw).
  etransitivity; [apply visible_length|].
  etransitivity; [apply (concat_length_le width)|].
  - apply Forall_map. eapply Forall_impl; [apply (wrap_fits text width Hw)|].
    intros line Hl. cbv beta. now rewrite length_list_ascii.
  - now rewrite length_map.
Qed.

End textwrap_lines.

(** X24: no line of [textwrap.wrap(text, width)] is longer than the
    width (for a width of at least 1); the lines drawn on the cover hold at
    most 60 characters each. *)
Theorem wrap_lines_fit (text : string) (width : nat) :
  (0 < width)%nat ->
  Forall (fun line => (String.length line <= width)%nat) (textwrap.wrap text width).
Proof. apply textwrap_lines.wrap_fits. Qed.

Lemma wrap_lines_fit_witness :
  Forall (fun line => (String.length line <= 60)%nat) (textwrap.wrap prose 60).
Proof. apply (wrap_lines_fit prose 60). lia. Defined.

(** X25: wrapping loses nothing but white space: the characters of the
    lines that are not white space are those of the text, in the same
    order. *)
Theorem wrap_keeps_visible (text : string) (width : nat) :
  (0 < width)%nat ->
  visible (concat (map list_ascii_of_string (textwrap.wrap text width)))
  = visible (list_ascii_of_string text).
Proof. apply textwrap_lines.wrap_visible. Qed.

Lemma wrap_keeps_visible_witness :
  visible (concat (map list_ascii_of_string (textwrap.wrap prose 60)))
  = visible (list_ascii_of_string prose).
Proof. apply (wrap_keeps_visible prose 60). lia. Defined.

(** ** The cover page, once more *)

Lemma cover_letterings (truetype_available : string -> Z -> bool) (info : ReportInfo) :
  let lines := textwrap.wrap (description info) 60 in
  let y := 225 + 34 * Z.of_nat (List.length lines) + 30 in
  letterings (pixels (cover_canvas truetype_available info))
  = [((510, 90), "NED FAI REPORT"); ((60, 180), "Description:")]
    ++ imap (fun i line => ((80, 225 + 34 * Z.of_nat i), line)) lines
    ++ [((60, y), "KMATX Part Number : " +:+ kmatx_part_number info);
        ((60, y + 50), "HALBX Part Number : " +:+ halbX_part_number info);
        ((60, y + 100), "Sales Order : " +:+ sales_order info);
        ((60, y + 150), "Date : " +:+ strftime_d_b_Y (report_date info));
        ((510, 815), FOOTER_TEXT)].
Proof.
  intros lines y.
  unfold cover_canvas. cbn [pixels letterings].
  rewrite letterings_with_lines. cbn [letterings app]. fold lines.
  rewrite <- !app_assoc. cbn [app].
  change (COVER_WIDTH / 2) with 510. change (COVER_HEIGHT - 35) with 815.
  change (90 + 90) with 180. change (90 + 90 + 45) with 225.
  subst y.
  repeat match goal with
         | |- _ :: _ = _ :: _ => f_equal
         | |- _ ++ _ = _ ++ _ => f_equal
         | |- (_, _) = (_, _) => f_equal
         end; lia.
Qed.

(** X26: a description with more than 780 characters that are not white
    space (13 lines of 60) pushes the date off the cover: the Date field is
    drawn at or below the bottom edge of the 850 pixel canvas, where
    nothing of it shows, while the footer keeps its place at (510, 815);
    the script does not check for the overflow. *)
Theorem cover_date_off_canvas (truetype_available : string -> Z -> bool)
        (info : ReportInfo) (h : heap) :
  (780 < List.length (visible (list_ascii_of_string (description info))))%nat ->
  exists cover h' page y,
    cover_page truetype_available info h = Ok (cover, h')
    /\ h' !! cover = Some page
    /\ ((60, y), "Date : " +:+ strftime_d_b_Y (report_date info))
         ∈ letterings (pixels page)
    /\ ((510, 815), FOOTER_TEXT) ∈ letterings (pixels page)
    /\ height page <= y.
Proof.
  intros Hlong.
  pose proof (textwrap_lines.wrap_lines_needed (description info) 60) as Hn.
  set (lines := textwrap.wrap (description info) 60) in *.
  exists (List.length h), (h ++ [cover_canvas truetype_available info]),
    (cover_canvas truetype_available info),
    (225 + 34 * Z.of_nat (List.length lines) + 30 + 150).
  split; [apply cover_page_spec|]. split; [apply lookup_fresh|].
  rewrite cover_letterings. fold lines.
  split; [|split].
  - apply list_elem_of_In. apply in_or_app. right. apply in_or_app. right.
    cbn [In]. auto.
  - apply list_elem_of_In. apply in_or_app. right. apply in_or_app. right.
    cbn [In]. auto 6.
  - cbn [cover_canvas height]. unfold COVER_HEIGHT. lia.
Qed.

(** A description of 800 letters. *)
Lemma cover_date_off_canvas_witness :
  exists cover h' page y,
    cover_page no_truetype (mkInfo (letters 800) "" "" "" (mkDate 2024 3 5)) []
    = Ok (cover, h')
    /\ h' !! cover = Some page
    /\ ((60, y), "Date : " +:+ strftime_d_b_Y (mkDate 2024 3 5)) ∈ letterings (pixels page)
    /\ ((510, 815), FOOTER_TEXT) ∈ letterings (pixels page)
    /\ height page <= y.
Proof.
  apply (cover_date_off_canvas no_truetype
           (mkInfo (letters 800) "" "" "" (mkDate 2024 3 5)) []).
  vm_compute. lia.
Defined.
